(** * chatdocs: the retrieval-augmented prompting core

    A shallow embedding of
    - [chunkDocument] (src/lib/document-processing/document-utils.ts),
    - [OpenAIService] (src/lib/llm/openai-service.ts) and
    - [WebLLMService] (the local-model twin of the former),
    together with the properties the specification states about them.

    JavaScript strings are sequences of UTF-16 code units; they are modelled
    as lists of code units, so [length] is the code-unit count the sources
    compare against. *)

From Stdlib Require Import List ZArith NArith Bool Lia String Ascii.
From Stdlib Require Import Permutation Sorted.
Import ListNotations.

Set Implicit Arguments.

(* ================================================================== *)
(** ** ECMAScript primitives the sources rely on *)
(* ================================================================== *)

Module JS.

Definition char := N.
Definition jsstring := list char.

(** An ASCII literal as a JavaScript string. *)
Definition str (s : string) : jsstring :=
  List.map N_of_ascii (list_ascii_of_string s).

Definition nl : char := 10%N.
Definition sp : char := 32%N.
Definition dquote : char := 34%N.

(** [s.length] *)
Definition strlen (s : jsstring) : Z := Z.of_nat (List.length s).

(** [a.length] of an array. *)
Definition arraylen {A} (a : list A) : Z := Z.of_nat (List.length a).

(** Truthiness of a string: every string but the empty one. *)
Definition truthy (s : jsstring) : bool :=
  match s with [] => false | _ :: _ => true end.

Definition char_eqb (a b : char) : bool := N.eqb a b.

Fixpoint str_eqb (a b : jsstring) : bool :=
  match a, b with
  | [], [] => true
  | x :: a', y :: b' => char_eqb x y && str_eqb a' b'
  | _, _ => false
  end.

(** The class [\s] of regular expressions, which is also what
    [String.prototype.trim] removes: WhiteSpace and LineTerminator. *)
Definition is_space (c : char) : bool :=
  ((9 <=? c) && (c <=? 13) || (c =? 32) || (c =? 160) || (c =? 5760)
   || (8192 <=? c) && (c <=? 8202) || (c =? 8232) || (c =? 8233)
   || (c =? 8239) || (c =? 8287) || (c =? 12288) || (c =? 65279))%N.

Fixpoint trimStart (s : jsstring) : jsstring :=
  match s with
  | [] => []
  | c :: s' => if is_space c then trimStart s' else s
  end.

Definition trimEnd (s : jsstring) : jsstring := rev (trimStart (rev s)).

Definition trim (s : jsstring) : jsstring := trimEnd (trimStart s).

(** [s.startsWith(p)] *)
Fixpoint startsWith (s p : jsstring) {struct p} : bool :=
  match p, s with
  | [], _ => true
  | x :: p', y :: s' => char_eqb x y && startsWith s' p'
  | _ :: _, [] => false
  end.

(** [s.includes(t)]: [t] occurs in [s] at some position. *)
Fixpoint includes (s t : jsstring) : bool :=
  startsWith s t ||
  match s with
  | [] => false
  | _ :: s' => includes s' t
  end.

(** [a.includes(x)] on an array of strings. *)
Definition array_includes (a : list jsstring) (x : jsstring) : bool :=
  existsb (str_eqb x) a.

(** [parts.join(sep)] *)
Fixpoint join (sep : jsstring) (parts : list jsstring) : jsstring :=
  match parts with
  | [] => []
  | [p] => p
  | p :: rest => p ++ sep ++ join sep rest
  end.

(** A separator pattern, reduced to what [split] asks of it: the length of
    the match that starts at the head of the remaining text, if there is
    one. *)
Definition matcher := jsstring -> option nat.

(** [/\s+/]: the maximal run of white space, when it is not empty. *)
Fixpoint space_run (s : jsstring) : nat :=
  match s with
  | [] => O
  | c :: s' => if is_space c then S (space_run s') else O
  end.

Definition re_spaces : matcher :=
  fun s => match space_run s with O => None | n => Some n end.

(** The tail [\s*\n] of [/\n\s*\n/], greedy with backtracking: the match
    ends after the last line feed of the white-space run. The result is the
    number of code units it takes. *)
Fixpoint blank_tail (s : jsstring) : option nat :=
  match s with
  | [] => None
  | c :: s' =>
      if is_space c then
        match blank_tail s' with
        | Some n => Some (S n)
        | None => if char_eqb c nl then Some 1%nat else None
        end
      else None
  end.

(** [/\n\s*\n/] *)
Definition re_blank_line : matcher :=
  fun s =>
    match s with
    | c :: s' =>
        if char_eqb c nl then option_map S (blank_tail s') else None
    | [] => None
    end.

(** The literal separator ["\n"]. *)
Definition sep_newline : matcher :=
  fun s =>
    match s with
    | c :: _ => if char_eqb c nl then Some 1%nat else None
    | [] => None
    end.

(** [String.prototype.split] for a separator that never matches the empty
    string. [cur] is the piece being read since the last separator, and
    [skip] counts the code units of the current match still to pass. On
    the empty text the result is the one empty piece; a match that reaches
    the end of the text leaves a last empty piece. *)
Fixpoint split_go (m : matcher) (s cur : jsstring) (skip : nat)
  : list jsstring :=
  match s with
  | [] => [cur]
  | c :: s' =>
      match skip with
      | S k => split_go m s' cur k
      | O =>
          match m s with
          | Some (S k) => cur :: split_go m s' [] k
          | _ => split_go m s' (cur ++ [c]) O
          end
      end
  end.

Definition split (m : matcher) (s : jsstring) : list jsstring :=
  split_go m s [] O.

(** [Array.prototype.slice(start, end)] and [slice(start)] on integers:
    a negative bound counts from the end; bounds are clamped. *)
Definition clamp_index (len i : Z) : Z :=
  if (i <? 0)%Z then Z.max (len + i) 0 else Z.min i len.

Definition slice {A} (l : list A) (start fin : Z) : list A :=
  let len := Z.of_nat (List.length l) in
  let k := clamp_index len start in
  let e := clamp_index len fin in
  firstn (Z.to_nat (e - k)) (skipn (Z.to_nat k) l).

Definition slice_from {A} (l : list A) (start : Z) : list A :=
  slice l start (Z.of_nat (List.length l)).

(** [s.substring(0, n)] for an integer [n]. *)
Definition substring0 (s : jsstring) (n : Z) : jsstring :=
  firstn (Z.to_nat n) s.

(** [Array.prototype.sort(cmp)]: a stable sort; [cmp a b <= 0] keeps [a]
    before [b]. *)
Fixpoint sort_insert {A} (cmp : A -> A -> Z) (x : A) (l : list A) : list A :=
  match l with
  | [] => [x]
  | y :: l' => if (cmp x y <=? 0)%Z then x :: l else y :: sort_insert cmp x l'
  end.

Definition sort {A} (cmp : A -> A -> Z) (l : list A) : list A :=
  fold_right (sort_insert cmp) [] l.

(** What a comparator says of two entries: [a] may stay before [b]. *)
Definition precedes {A} (cmp : A -> A -> Z) (a b : A) : Prop :=
  (cmp a b <= 0)%Z.

(** [a.map((x, index) => f x index)], the index counted from [i]. *)
Fixpoint map_indexed {A B} (f : A -> Z -> B) (l : list A) (i : Z) : list B :=
  match l with
  | [] => []
  | x :: l' => f x i :: map_indexed f l' (i + 1)%Z
  end.

(** [String.prototype.toLowerCase] on text made of ASCII code units; the
    services are modelled over an arbitrary lower-casing function, and this
    one is used where a literal example is evaluated. *)
Definition ascii_toLowerCase (s : jsstring) : jsstring :=
  List.map (fun c => if ((65 <=? c) && (c <=? 90))%N then (c + 32)%N else c) s.

End JS.

Import JS.

(* ================================================================== *)
(** ** document-utils.ts *)
(* ================================================================== *)

Module DocumentUtils.

Local Open Scope Z_scope.

Record ProcessedDocument := {
  id : jsstring;
  name : jsstring;
  content : jsstring;
  extension : jsstring;
  chunks : list jsstring;
  summary : option jsstring;
  createdAt : Z;
  source : option jsstring
}.

(** The loop state of [chunkDocument]: the chunks pushed so far and
    [currentChunk]. *)
Definition chunk_state := (list jsstring * jsstring)%type.

Definition flush (st : chunk_state) : list jsstring :=
  let '(chunks, currentChunk) := st in
  if truthy currentChunk then chunks ++ [currentChunk] else chunks.

(** Body of [for (const word of words)]. *)
Definition add_word (chunkSize : Z) (st : chunk_state) (word : jsstring)
  : chunk_state :=
  let '(chunks, currentChunk) := st in
  if strlen (currentChunk ++ str " " ++ word) <=? chunkSize then
    (chunks,
     currentChunk ++ (if truthy currentChunk then str " " else []) ++ word)
  else
    (flush st, word).

(** Body of [for (const paragraph of paragraphs)]. *)
Definition add_paragraph (chunkSize : Z) (st : chunk_state)
  (paragraph : jsstring) : chunk_state :=
  let '(chunks, currentChunk) := st in
  if strlen paragraph >? chunkSize then
    fold_left (add_word chunkSize) (split re_spaces paragraph) st
  else if strlen (currentChunk ++ [nl; nl] ++ paragraph) <=? chunkSize then
    (chunks,
     currentChunk ++ (if truthy currentChunk then [nl; nl] else [])
       ++ paragraph)
  else
    (flush st, paragraph).

Definition chunkDocument (content : jsstring) (chunkSize : Z)
  : list jsstring :=
  if strlen content <? chunkSize then [content]
  else
    flush (fold_left (add_paragraph chunkSize)
             (split re_blank_line content) ([], [])).

Definition defaultChunkSize : Z := 1000.

End DocumentUtils.

(* ================================================================== *)
(** ** What the two services share

    [ChatMessage], [createSystemPrompt], [findRelevantChunks],
    [extractKeywords] and the parsing of the topic list are written out
    twice in the sources, letter for letter the same in [OpenAIService] and
    [WebLLMService]; they are embedded once. *)
(* ================================================================== *)

Module Chat.

Inductive Role := user | assistant | system.

Record ChatMessage := { role : Role; content : jsstring }.

(** [messages[messages.length - 1]], [None] for [undefined]. *)
Definition last_message (messages : list ChatMessage) : option ChatMessage :=
  List.last (List.map Some messages) None.

End Chat.

Import Chat.

Module Retrieval.

Local Open Scope Z_scope.

Definition ProcessedDocument : Type := DocumentUtils.ProcessedDocument.

Definition lines (l : list jsstring) : jsstring := join [nl] l.

Definition createSystemPrompt (document : option ProcessedDocument)
  : jsstring :=
  match document with
  | None => str "Help the user with their questions."
  | Some doc =>
      lines
        [ str "You are a document assistant. Based on the following document, answer the user's questions:";
          str "    ";
          str "Document: " ++ [dquote] ++ DocumentUtils.name doc ++ [dquote];
          [];
          str "Follow these rules in your answers:";
          str "1. If the answer to the question is not in the document, honestly say you don't know and don't make up information outside the document.";
          str "2. Only answer based on the information in the document.";
          str "3. In your answers, refer to the information in the document.";
          str "4. If needed, make clear explanations and summaries.";
          str "5. If you can't help with a topic that is not in the document, say so." ]
  end.

Definition stopwords : list jsstring :=
  [ str "bir"; str "ve"; str "veya"; str "da"; str "de"; str "bu";
    [351; 117]%N (* su, with cedilla *); str "o";
    [105; 231; 105; 110]%N (* icin *); str "ile"; str "gibi"; str "kadar";
    str "mi"; [109; 305]%N (* mi, dotless *); str "mu";
    [109; 252]%N (* mu, diaeresis *); str "ne";
    [110; 97; 115; 305; 108]%N (* nasil *); str "neden"; str "hangi";
    str "kim"; str "kime"; str "nerede"; str "ne zaman"; str "acaba";
    str "belki"; str "evet"; [104; 97; 121; 305; 114]%N (* hayir *);
    str "tamam"; [100; 101; 287; 105; 108]%N (* degil *); str "var";
    str "yok" ].

(** The class of [/[.,\/#!$%\^&\*;:{}=\-_`~()]/]. *)
Definition is_punctuation (c : char) : bool :=
  existsb (char_eqb c) (str ".,/#!$%^&*;:{}=-_`~()").

(** [s.replace(/[...]/g, empty)]: every match is removed. *)
Definition strip_punctuation (s : jsstring) : jsstring :=
  filter (fun c => negb (is_punctuation c)) s.

(** The [filter] callback of [extractKeyTopics]: for a line that is not
    empty and does not start with ["-"] the callback's value is
    [line.replace(/^-\s*/, empty)], for any other line it is the line; [filter]
    keeps the lines whose value is truthy. *)
Definition strip_list_marker (line : jsstring) : jsstring :=
  match line with
  | c :: rest => if char_eqb c 45%N then trimStart rest else line
  | [] => []
  end.

Definition topic_callback (line : jsstring) : jsstring :=
  if truthy line && negb (startsWith line (str "-"))
  then strip_list_marker line
  else line.

Definition parseTopics (topicsText : jsstring) : list jsstring :=
  filter (fun line => truthy (topic_callback line))
    (List.map trim (split sep_newline topicsText)).

(** [x || empty]: the empty string for [undefined]. *)
Definition or_empty (x : option jsstring) : jsstring :=
  match x with
  | Some s => s
  | None => []
  end.

Definition topicsPrompt (doc : ProcessedDocument) (content : jsstring)
  : jsstring :=
  lines
    [ str "Analyze the following document content and identify the 5-7 most important topics or concepts in the document.";
      str "      ";
      str "Document: " ++ [dquote] ++ DocumentUtils.name doc ++ [dquote];
      [];
      str "Document Content:";
      content;
      [];
      str "Format your response as a list of only the topics or concepts, with each topic being no more than 3-4 words. List each topic on a new line." ].

Definition topicsMessages (doc : ProcessedDocument) (maxContentLength : Z)
  : list ChatMessage :=
  let content :=
    if strlen (DocumentUtils.content doc) >? maxContentLength
    then substring0 (DocumentUtils.content doc) maxContentLength
    else DocumentUtils.content doc in
  [ {| role := system;
       content := str "You are a content analyst and topic expert." |};
    {| role := user; content := topicsPrompt doc content |} ].

Record ScoredChunk := { chunk : jsstring; score : Z; index : Z }.

(** The comparator handed to [sort]. *)
Definition compareScored (a b : ScoredChunk) : Z :=
  if negb (score b =? score a) then score b - score a
  else index a - index b.

Section WithCaseMapping.

(** [String.prototype.toLowerCase]; its Unicode tables are no part of the
    sources. *)
Variable toLowerCase : jsstring -> jsstring.

Definition extractKeywords (text : jsstring) : list jsstring :=
  let words := split re_spaces (strip_punctuation (toLowerCase text)) in
  filter
    (fun word => (strlen word >? 3) && negb (array_includes stopwords word))
    words.

(** The [reduce] over the keywords that scores one chunk. *)
Definition chunkScore (keywords : list jsstring) (chunk : jsstring) : Z :=
  fold_left
    (fun acc keyword =>
       acc + (if includes (toLowerCase chunk) (toLowerCase keyword)
              then 1 else 0))
    keywords 0.

(** [this.document.chunks.map((chunk, index) => ({ chunk, score, index }))] *)
Definition scoredChunks (keywords chunks : list jsstring)
  : list ScoredChunk :=
  map_indexed
    (fun chunk index =>
       {| chunk := chunk;
          score := chunkScore keywords chunk;
          index := index |})
    chunks 0.

Definition findRelevantChunks (document : option ProcessedDocument)
  (query : jsstring) (maxChunks : Z) : list jsstring :=
  match document with
  | None => []
  | Some doc =>
      if arraylen (DocumentUtils.chunks doc) =? 0 then []
      else
        let keywords := extractKeywords query in
        if arraylen keywords =? 0
        then slice (DocumentUtils.chunks doc) 0 maxChunks
        else
          List.map chunk
            (slice
               (sort compareScored
                  (scoredChunks keywords (DocumentUtils.chunks doc)))
               0 maxChunks)
  end.

End WithCaseMapping.

End Retrieval.

Import Retrieval.

(** What a call of a service method leaves behind: the service object
    afterwards, the value returned or the error thrown, the requests handed
    to the transport, and the arguments of [onUpdate], both in call order. *)
Record Outcome (Service Request Error Value : Type) := {
  after : Service;
  returned : Error + Value;
  requests : list Request;
  updates : list jsstring
}.

(** The history once an exchange is recorded:
    [chatHistory.push(user, assistant)] and then the cut to the last ten. *)
Definition recordExchange (chatHistory : list ChatMessage)
  (userQuestion response : jsstring) : list ChatMessage :=
  let pushed :=
    chatHistory ++ [ {| role := user; content := userQuestion |};
                     {| role := assistant; content := response |} ] in
  if (arraylen pushed >? 10)%Z then slice_from pushed (-10) else pushed.

(** [if (chatHistory.length > 0) recentHistory = chatHistory.slice(-6)] *)
Definition recentHistory (chatHistory : list ChatMessage)
  : list ChatMessage :=
  if (arraylen chatHistory >? 0)%Z then slice_from chatHistory (-6) else [].

(* ================================================================== *)
(** ** openai-service.ts *)
(* ================================================================== *)

Module OpenAIService.

Local Open Scope Z_scope.

Record OpenAIService := {
  apiKey : jsstring;
  model : jsstring;
  document : option ProcessedDocument;
  chatHistory : list ChatMessage
}.

Definition setDocument (this : OpenAIService) (doc : ProcessedDocument)
  : OpenAIService :=
  {| apiKey := apiKey this; model := model this;
     document := Some doc; chatHistory := [] |}.

Definition withHistory (this : OpenAIService) (h : list ChatMessage)
  : OpenAIService :=
  {| apiKey := apiKey this; model := model this;
     document := document this; chatHistory := h |}.

(** The body of the POST to the completions endpoint; the temperature, a
    floating-point constant of the configuration, is left out. *)
Record Request := {
  req_model : jsstring;
  req_messages : list ChatMessage;
  req_stream : bool
}.

(** What [await response.json()] gives: a rejection, or an object of which
    the methods read [error?.message] and [choices[0]?.message?.content];
    [json_choices] is [None] when there is no [choices] array to index. *)
Record JsonObject := {
  json_error_message : option jsstring;
  json_choices : option (option jsstring)
}.

Inductive JsonResult :=
| JsonRejects (e : jsstring)
| JsonResolves (data : JsonObject).

(** One [await reader.read()] before the stream is done: the decoded text of
    the value read, or a rejection. *)
Inductive ReadResult :=
| ReadValue (text : jsstring)
| ReadRejects (e : jsstring).

(** [response.ok], [response.json()], and the reads of
    [response.body?.getReader()] up to [done]. *)
Record Response := {
  ok : bool;
  json : JsonResult;
  body : option (list ReadResult)
}.

Inductive FetchResult :=
| FetchRejects (e : jsstring)
| FetchResolves (response : Response).

Inductive Error :=
| DocumentNotSet             (* "Document not set. ..." *)
| TypeError                  (* a property read on [undefined] *)
| ApiError (message : jsstring)
| StreamNotRead              (* "Stream not read" *)
| Rejected (e : jsstring).   (* a rejection of [fetch], [json] or [read] *)

(** [throw new Error(errorData.error?.message || "API response not
    received")] *)
Definition notOkError (r : JsonResult) : Error :=
  match r with
  | JsonRejects e => Rejected e
  | JsonResolves data =>
      match json_error_message data with
      | Some (c :: m) => ApiError (c :: m)
      | _ => ApiError (str "API response not received")
      end
  end.

Definition userContextMessage (context userQuestion : jsstring)
  : ChatMessage :=
  {| role := user;
     content := str "Document content:" ++ [nl] ++ context ++ [nl; nl]
                ++ str "Question: " ++ userQuestion |}.

Section WithRuntime.

Variable toLowerCase : jsstring -> jsstring.

(** [JSON.parse(data).choices[0]?.delta?.content || empty] on the payload of
    one [data: ] line; [None] when the evaluation throws, which the
    [try]/[catch] around it logs and passes over. *)
Variable parseDelta : jsstring -> option jsstring.

(** The accumulator of the read loop: [fullResponse] and the calls of
    [onUpdate] so far. *)
Definition stream_state := (jsstring * list jsstring)%type.

(** Body of [for (const line of lines)]. *)
Definition handleLine (st : stream_state) (line : jsstring) : stream_state :=
  let '(fullResponse, calls) := st in
  if startsWith line (str "data: ") then
    match parseDelta (skipn 6 line) with
    | Some content =>
        if truthy content then (fullResponse ++ content, calls ++ [content])
        else st
    | None => st
    end
  else st.

Definition streamLines (chunk : jsstring) : list jsstring :=
  filter
    (fun line => negb (str_eqb (trim line) [])
                 && negb (str_eqb (trim line) (str "data: [DONE]")))
    (split sep_newline chunk).

(** The [while (!done)] loop over the reads that come before [done]. *)
Fixpoint readLoop (reads : list ReadResult) (st : stream_state)
  : option jsstring * stream_state :=
  match reads with
  | [] => (None, st)
  | ReadValue text :: rest =>
      readLoop rest (fold_left handleLine (streamLines text) st)
  | ReadRejects e :: _ => (Some e, st)
  end.

Definition GenerateOutcome : Type :=
  Outcome OpenAIService Request Error jsstring.

Definition throws {V} (this : OpenAIService) (e : Error)
  (reqs : list Request) (calls : list jsstring)
  : Outcome OpenAIService Request Error V :=
  {| after := this; returned := inl e; requests := reqs; updates := calls |}.

Definition generateResponse (fetch : Request -> FetchResult)
  (this : OpenAIService) (messages : list ChatMessage) : GenerateOutcome :=
  match document this with
  | None => throws this DocumentNotSet [] []
  | Some _ =>
      match last_message messages with
      | None => throws this TypeError [] []
      | Some lastMessage =>
          let userQuestion := content lastMessage in
          let relevantChunks :=
            findRelevantChunks toLowerCase (document this) userQuestion 3 in
          let context := join [nl; nl] relevantChunks in
          let systemMessage :=
            {| role := system;
               content := createSystemPrompt (document this) |} in
          let apiMessages :=
            [systemMessage] ++ recentHistory (chatHistory this)
              ++ [userContextMessage context userQuestion] in
          let request :=
            {| req_model := model this; req_messages := apiMessages;
               req_stream := true |} in
          match fetch request with
          | FetchRejects e => throws this (Rejected e) [request] []
          | FetchResolves response =>
              if negb (ok response) then
                throws this (notOkError (json response)) [request] []
              else
                match body response with
                | None => throws this StreamNotRead [request] []
                | Some reads =>
                    match readLoop reads ([], []) with
                    | (Some e, (_, calls)) =>
                        throws this (Rejected e) [request] calls
                    | (None, (fullResponse, calls)) =>
                        {| after :=
                             withHistory this
                               (recordExchange (chatHistory this)
                                  userQuestion fullResponse);
                           returned := inr fullResponse;
                           requests := [request];
                           updates := calls |}
                    end
                end
          end
      end
  end.

Definition extractKeyTopics (fetch : Request -> FetchResult)
  (this : OpenAIService)
  : Outcome OpenAIService Request Error (list jsstring) :=
  match document this with
  | None => throws this DocumentNotSet [] []
  | Some doc =>
      let request :=
        {| req_model := model this;
           req_messages := topicsMessages doc 10000;
           req_stream := false |} in
      match fetch request with
      | FetchRejects e => throws this (Rejected e) [request] []
      | FetchResolves response =>
          if negb (ok response) then
            throws this (notOkError (json response)) [request] []
          else
            match json response with
            | JsonRejects e => throws this (Rejected e) [request] []
            | JsonResolves data =>
                match json_choices data with
                | None => throws this TypeError [request] []
                | Some messageContent =>
                    {| after := this;
                       returned := inr (parseTopics (or_empty messageContent));
                       requests := [request];
                       updates := [] |}
                end
            end
      end
  end.

End WithRuntime.

End OpenAIService.

(* ================================================================== *)
(** ** The local-model service, [WebLLMService] *)
(* ================================================================== *)

Module WebLLMService.

Local Open Scope Z_scope.

(** The engine is a handle; what it answers is an input of each call. *)
Inductive MLCEngine := mlcEngine.

Record WebLLMService := {
  engine : option MLCEngine;
  isInitialized : bool;
  document : option ProcessedDocument;
  chatHistory : list ChatMessage
}.

Definition setDocument (this : WebLLMService) (doc : ProcessedDocument)
  : WebLLMService :=
  {| engine := engine this; isInitialized := isInitialized this;
     document := Some doc; chatHistory := [] |}.

Definition withHistory (this : WebLLMService) (h : list ChatMessage)
  : WebLLMService :=
  {| engine := engine this; isInitialized := isInitialized this;
     document := document this; chatHistory := h |}.

(** The argument of [engine.chat.completions.create], without the
    temperature. *)
Record Request := {
  req_messages : list ChatMessage;
  req_stream : bool
}.

(** One step of [for await (const chunk of stream)]: a chunk, of which the
    loop reads [choices[0]?.delta.content] ([None] for [undefined]), or an
    exception out of the iteration. *)
Inductive StreamStep :=
| Chunk (deltaContent : option jsstring)
| Raises (e : jsstring).

(** What [await create(...)] gives: a rejection, a stream of chunks, or
    (with [stream: false]) a completion, of which [extractKeyTopics]
    reads [choices[0]?.message.content]. *)
Inductive CreateResult :=
| CreateRejects (e : jsstring)
| CreateStream (steps : list StreamStep)
| CreateCompletion (messageContent : option jsstring).

Inductive Error :=
| ModelNotLoaded       (* "Model henuz yuklenmedi. ..." *)
| DocumentNotSet       (* "Belge ayarlanmadi. ..." *)
| GenerationFailed     (* "Yanit olusturulurken bir hata olustu." *)
| TopicsFailed.        (* "Error extracting key topics." *)

(** "Belge icerigi:\n${context}\n\nSorum: ${userQuestion}", in Turkish
    spelling. *)
Definition userContextMessage (context userQuestion : jsstring)
  : ChatMessage :=
  {| role := user;
     content := str "Belge i" ++ [231%N] ++ str "eri" ++ [287%N] ++ str "i:"
                ++ [nl] ++ context ++ [nl; nl]
                ++ str "Sorum: " ++ userQuestion |}.

Definition stream_state := (jsstring * list jsstring)%type.

(** The [for await] loop: [response += content; onUpdate(content)] with
    [content = chunk.choices[0]?.delta.content || empty]. *)
Fixpoint streamLoop (steps : list StreamStep) (st : stream_state)
  : option jsstring * stream_state :=
  match steps with
  | [] => (None, st)
  | Chunk deltaContent :: rest =>
      let content := or_empty deltaContent in
      streamLoop rest (fst st ++ content, snd st ++ [content])
  | Raises e :: _ => (Some e, st)
  end.

Definition throws {V} (this : WebLLMService) (e : Error)
  (reqs : list Request) (calls : list jsstring)
  : Outcome WebLLMService Request Error V :=
  {| after := this; returned := inl e; requests := reqs; updates := calls |}.

(** [!this.isInitialized || !this.engine] *)
Definition notLoaded (this : WebLLMService) : bool :=
  negb (isInitialized this)
  || match engine this with Some _ => false | None => true end.

Section WithRuntime.

Variable toLowerCase : jsstring -> jsstring.

Definition generateResponse (create : Request -> CreateResult)
  (this : WebLLMService) (messages : list ChatMessage)
  : Outcome WebLLMService Request Error jsstring :=
  if notLoaded this then throws this ModelNotLoaded [] []
  else
    match document this with
    | None => throws this DocumentNotSet [] []
    | Some _ =>
        match last_message messages with
        | None => throws this GenerationFailed [] []
        | Some lastMessage =>
            let userQuestion := content lastMessage in
            let relevantChunks :=
              findRelevantChunks toLowerCase (document this) userQuestion 3 in
            let context := join [nl; nl] relevantChunks in
            let baseMessages :=
              [ {| role := system;
                   content := createSystemPrompt (document this) |};
                userContextMessage context userQuestion ] in
            let augmentedMessages :=
              baseMessages ++ recentHistory (chatHistory this) in
            let request :=
              {| req_messages := augmentedMessages; req_stream := true |} in
            match create request with
            | CreateStream steps =>
                match streamLoop steps ([], []) with
                | (Some _, (_, calls)) =>
                    throws this GenerationFailed [request] calls
                | (None, (response, calls)) =>
                    {| after :=
                         withHistory this
                           (recordExchange (chatHistory this)
                              userQuestion response);
                       returned := inr response;
                       requests := [request];
                       updates := calls |}
                end
            | _ => throws this GenerationFailed [request] []
            end
        end
    end.

End WithRuntime.

Definition extractKeyTopics (create : Request -> CreateResult)
  (this : WebLLMService)
  : Outcome WebLLMService Request Error (list jsstring) :=
  if notLoaded this then throws this ModelNotLoaded [] []
  else
    match document this with
    | None => throws this DocumentNotSet [] []
    | Some doc =>
        let request :=
          {| req_messages := topicsMessages doc 6000;
             req_stream := false |} in
        match create request with
        | CreateCompletion messageContent =>
            {| after := this;
               returned := inr (parseTopics (or_empty messageContent));
               requests := [request];
               updates := [] |}
        | _ => throws this TopicsFailed [request] []
        end
    end.

End WebLLMService.

(* ================================================================== *)
(** ** [summarizeDocument], in both services *)
(* ================================================================== *)

Module Summary.

Local Open Scope Z_scope.

(** [s.substring(n)] for an integer [n]. *)
Definition substringFrom (s : jsstring) (n : Z) : jsstring :=
  skipn (Z.to_nat n) s.

(** The content put in the prompt: as it is up to [maxContentLength],
    otherwise its two ends around a marker. *)
Definition summaryContent (content : jsstring) (maxContentLength : Z)
  : jsstring :=
  if strlen content >? maxContentLength then
    let firstPart := substring0 content (maxContentLength / 2) in
    let lastPart :=
      substringFrom content (strlen content - maxContentLength / 2) in
    firstPart ++ [nl] ++ str "..." ++ [nl] ++ lastPart
  else content.

Definition summarizePrompt (doc : ProcessedDocument) (content : jsstring)
  : jsstring :=
  lines
    [ str "Summarize the following document in a short and concise manner.";
      str "      ";
      str "Document: " ++ [dquote] ++ DocumentUtils.name doc ++ [dquote];
      [];
      str "Document Content:";
      content;
      [];
      str "Pay attention to the following in the summary:";
      str "1. The summary should be 3-5 paragraphs long";
      str "2. Important topics and information should be included";
      str "3. Highlight the overall purpose of the document and important points";
      str "4. Use a clear and understandable language while keeping technical terms";
      str "5. Reflect the structure of the document (introduction, development, conclusion, etc.)";
      [] ].

Definition summaryMessages (doc : ProcessedDocument) (maxContentLength : Z)
  : list ChatMessage :=
  [ {| role := system;
       content :=
         str "You are a professional text analyst and summary writer." |};
    {| role := user;
       content :=
         summarizePrompt doc
           (summaryContent (DocumentUtils.content doc) maxContentLength) |} ].

(** [OpenAIService.summarizeDocument]; the request carries no [stream]
    key. *)
Definition remoteSummarize
  (fetch : OpenAIService.Request -> OpenAIService.FetchResult)
  (this : OpenAIService.OpenAIService)
  : Outcome OpenAIService.OpenAIService OpenAIService.Request
      OpenAIService.Error jsstring :=
  match OpenAIService.document this with
  | None => OpenAIService.throws this OpenAIService.DocumentNotSet [] []
  | Some doc =>
      let request :=
        {| OpenAIService.req_model := OpenAIService.model this;
           OpenAIService.req_messages := summaryMessages doc 12000;
           OpenAIService.req_stream := false |} in
      match fetch request with
      | OpenAIService.FetchRejects e =>
          OpenAIService.throws this (OpenAIService.Rejected e) [request] []
      | OpenAIService.FetchResolves response =>
          if negb (OpenAIService.ok response) then
            OpenAIService.throws this
              (OpenAIService.notOkError (OpenAIService.json response))
              [request] []
          else
            match OpenAIService.json response with
            | OpenAIService.JsonRejects e =>
                OpenAIService.throws this (OpenAIService.Rejected e)
                  [request] []
            | OpenAIService.JsonResolves data =>
                match OpenAIService.json_choices data with
                | None =>
                    OpenAIService.throws this OpenAIService.TypeError
                      [request] []
                | Some messageContent =>
                    {| after := this;
                       returned := inr (or_empty messageContent);
                       requests := [request];
                       updates := [] |}
                end
            end
      end
  end.

(** What [WebLLMService.summarizeDocument] throws. *)
Inductive LocalSummaryError :=
| SummaryModelNotLoaded      (* "Model henuz yuklenmedi. ..." *)
| SummaryDocumentNotSet      (* "Belge ayarlanmadi. ..." *)
| SummaryFailed.             (* "Error creating summary." *)

(** The [for await] loop of the local summary: [summary += content], and no
    callback. *)
Fixpoint summaryLoop (steps : list WebLLMService.StreamStep)
  (summary : jsstring) : option jsstring * jsstring :=
  match steps with
  | [] => (None, summary)
  | WebLLMService.Chunk deltaContent :: rest =>
      summaryLoop rest (summary ++ or_empty deltaContent)
  | WebLLMService.Raises e :: _ => (Some e, summary)
  end.

Definition localThrows (this : WebLLMService.WebLLMService)
  (e : LocalSummaryError) (reqs : list WebLLMService.Request)
  : Outcome WebLLMService.WebLLMService WebLLMService.Request
      LocalSummaryError jsstring :=
  {| after := this; returned := inl e; requests := reqs; updates := [] |}.

(** [WebLLMService.summarizeDocument] *)
Definition localSummarize
  (create : WebLLMService.Request -> WebLLMService.CreateResult)
  (this : WebLLMService.WebLLMService)
  : Outcome WebLLMService.WebLLMService WebLLMService.Request
      LocalSummaryError jsstring :=
  if WebLLMService.notLoaded this
  then localThrows this SummaryModelNotLoaded []
  else
    match WebLLMService.document this with
    | None => localThrows this SummaryDocumentNotSet []
    | Some doc =>
        let request :=
          {| WebLLMService.req_messages := summaryMessages doc 8000;
             WebLLMService.req_stream := true |} in
        match create request with
        | WebLLMService.CreateStream steps =>
            match summaryLoop steps [] with
            | (Some _, _) => localThrows this SummaryFailed [request]
            | (None, summary) =>
                {| after := this;
                   returned := inr summary;
                   requests := [request];
                   updates := [] |}
            end
        | _ => localThrows this SummaryFailed [request]
        end
    end.

End Summary.

(* ================================================================== *)
(** ** Loading and disposing of the local model

    [WebLLMService.init], [isModelLoaded] and [dispose]. The service object
    is the record of the generation methods together with [initPromise],
    the field they do not read. [init] runs in two steps: the call itself,
    which stores the promise and starts [CreateMLCEngine], and the
    continuation after the [await], which runs when the engine is there or
    the load has failed. The progress reports, floating-point fractions,
    are left out. *)
(* ================================================================== *)

Module WebLLMLifecycle.

Inductive PromiseState :=
| Pending
| Fulfilled
| Rejected (error : jsstring).

Record Instance := {
  service : WebLLMService.WebLLMService;
  initPromise : option PromiseState
}.

(** [new WebLLMService()] *)
Definition newInstance : Instance :=
  {| service :=
       {| WebLLMService.engine := None;
          WebLLMService.isInitialized := false;
          WebLLMService.document := None;
          WebLLMService.chatHistory := [] |};
     initPromise := None |}.

Definition isModelLoaded (this : Instance) : bool :=
  WebLLMService.isInitialized (service this).

(** The call of [init]: with a promise stored, that promise is returned and
    nothing else happens; otherwise a pending promise is stored and the
    load starts. The second component tells whether [CreateMLCEngine] was
    called; the third is the promise returned. *)
Definition init (this : Instance) : Instance * bool * PromiseState :=
  match initPromise this with
  | Some p => (this, false, p)
  | None =>
      ({| service := service this; initPromise := Some Pending |},
       true, Pending)
  end.

(** How the load that [init] started ends. *)
Inductive LoadResult :=
| EngineCreated
| CreationFails (message : jsstring).

(** The continuation of [init] after [await CreateMLCEngine(...)], for the
    load in flight: the engine is stored and the promise resolved, or
    [onError] is called with the message and the promise rejected. The
    second component lists the calls of [onError]. *)
Definition settle (this : Instance) (result : LoadResult)
  : Instance * list jsstring :=
  match initPromise this with
  | Some Pending =>
      match result with
      | EngineCreated =>
          ({| service :=
                {| WebLLMService.engine := Some WebLLMService.mlcEngine;
                   WebLLMService.isInitialized := true;
                   WebLLMService.document :=
                     WebLLMService.document (service this);
                   WebLLMService.chatHistory :=
                     WebLLMService.chatHistory (service this) |};
              initPromise := Some Fulfilled |}, [])
      | CreationFails message =>
          ({| service := service this;
              initPromise := Some (Rejected message) |}, [message])
      end
  | _ => (this, [])
  end.

(** [dispose]: with an engine, the engine, the flag, the promise and the
    history are reset; without one nothing is. *)
Definition dispose (this : Instance) : Instance :=
  match WebLLMService.engine (service this) with
  | Some _ =>
      {| service :=
           {| WebLLMService.engine := None;
              WebLLMService.isInitialized := false;
              WebLLMService.document :=
                WebLLMService.document (service this);
              WebLLMService.chatHistory := [] |};
         initPromise := None |}
  | None => this
  end.

(** [setDocument] on the whole object. *)
Definition setDocument (this : Instance) (doc : ProcessedDocument)
  : Instance :=
  {| service := WebLLMService.setDocument (service this) doc;
     initPromise := initPromise this |}.

(** The calls a user of the object can make between loads. *)
Inductive Call :=
| CallInit
| CallDispose
| CallSetDocument (doc : ProcessedDocument).

(** One call: the object afterwards, and whether a load was started. *)
Definition step (this : Instance) (c : Call) : Instance * bool :=
  match c with
  | CallInit => (fst (fst (init this)), snd (fst (init this)))
  | CallDispose => (dispose this, false)
  | CallSetDocument doc => (setDocument this doc, false)
  end.

(** A sequence of calls: the object afterwards and the number of loads
    started. *)
Fixpoint run (this : Instance) (calls : list Call) : Instance * nat :=
  match calls with
  | [] => (this, O)
  | c :: rest =>
      let '(this', started) := step this c in
      let '(this'', n) := run this' rest in
      (this'', if started then S n else n)
  end.

End WebLLMLifecycle.

(* ================================================================== *)
(** ** The document store

    [saveDocument], [getDocumentById], [getAllDocuments], [deleteDocument],
    [clearAllDocuments] and the last-processed id, which the sources keep
    in an IndexedDB object store keyed by [id] with an index on
    [createdAt], and in one [localStorage] key. The object store is the
    list of its records; whether the database opens and whether
    [localStorage] answers are inputs. Each function is taken as one
    step. *)
(* ================================================================== *)

Module DocumentStorage.

Import DocumentUtils.
Local Open Scope Z_scope.

Record Storage := {
  documents : list ProcessedDocument;
  lastProcessedDocumentId : option jsstring
}.

Record Environment := {
  databaseOpens : bool;
  localStorageWorks : bool
}.

Definition withName (doc : ProcessedDocument) (n : jsstring)
  : ProcessedDocument :=
  {| id := id doc; name := n; content := content doc;
     extension := extension doc; chunks := chunks doc;
     summary := summary doc; createdAt := createdAt doc;
     source := source doc |}.

(** [db.get(DOCUMENTS_STORE, id)] *)
Definition db_get (store : list ProcessedDocument) (key : jsstring)
  : option ProcessedDocument :=
  find (fun doc => str_eqb (id doc) key) store.

(** [db.put(DOCUMENTS_STORE, document)]: the record with the key of the
    document is replaced, or the document is added. *)
Definition db_put (store : list ProcessedDocument) (doc : ProcessedDocument)
  : list ProcessedDocument :=
  match db_get store (id doc) with
  | Some _ =>
      List.map (fun d => if str_eqb (id d) (id doc) then doc else d) store
  | None => store ++ [doc]
  end.

(** [db.delete(DOCUMENTS_STORE, id)] *)
Definition db_delete (store : list ProcessedDocument) (key : jsstring)
  : list ProcessedDocument :=
  filter (fun doc => negb (str_eqb (id doc) key)) store.

(** The order of keys that are strings: code unit by code unit. *)
Fixpoint str_compare (a b : jsstring) : Z :=
  match a, b with
  | [], [] => 0
  | [], _ :: _ => -1
  | _ :: _, [] => 1
  | x :: a', y :: b' =>
      if (x <? y)%N then -1
      else if (y <? x)%N then 1
      else str_compare a' b'
  end.

(** The order of the index [by-date]: by [createdAt], and by [id] among
    equal dates. *)
Definition indexCompare (a b : ProcessedDocument) : Z :=
  if createdAt a =? createdAt b then str_compare (id a) (id b)
  else createdAt a - createdAt b.

(** [db.getAllFromIndex(DOCUMENTS_STORE, "by-date")] *)
Definition db_getAllFromIndex (store : list ProcessedDocument)
  : list ProcessedDocument :=
  sort indexCompare store.

(** [map.set(key, value)] on a [Map], kept in insertion order: a key that
    is there keeps its place and takes the new value. *)
Fixpoint map_set (m : list (jsstring * ProcessedDocument)) (key : jsstring)
  (value : ProcessedDocument) : list (jsstring * ProcessedDocument) :=
  match m with
  | [] => [(key, value)]
  | (k, v) :: rest =>
      if str_eqb k key then (k, value) :: rest
      else (k, v) :: map_set rest key value
  end.

(** [allDocs.forEach((doc) => uniqueDocMap.set(doc.id, doc))] and then
    [Array.from(uniqueDocMap.values())]. *)
Definition uniqueById (allDocs : list ProcessedDocument)
  : list ProcessedDocument :=
  List.map snd (fold_left (fun m doc => map_set m (id doc) doc) allDocs []).

(** The comparator of [getAllDocuments]: newest first. *)
Definition newestFirst (a b : ProcessedDocument) : Z :=
  createdAt b - createdAt a.

Definition getAllDocuments (env : Environment) (st : Storage)
  : list ProcessedDocument :=
  if databaseOpens env
  then sort newestFirst (uniqueById (db_getAllFromIndex (documents st)))
  else [].

Definition getDocumentById (env : Environment) (st : Storage)
  (key : jsstring) : option ProcessedDocument :=
  if databaseOpens env then db_get (documents st) key else None.

(** [timeString.replace(/:/g, "-")] *)
Definition dashed (timeString : jsstring) : jsstring :=
  List.map (fun c => if char_eqb c 58%N then 45%N else c) timeString.

(** "Document could not be saved to the database" and its siblings. *)
Definition saveError : jsstring :=
  str "Document could not be saved to the database".

Definition deleteError : jsstring :=
  str "Document could not be deleted from the database".

Definition clearError : jsstring :=
  str "Documents could not be cleared from the database".

(** [saveDocument]. [timeString] is what
    [new Date().toLocaleTimeString()] gives at the call. The document
    comes back with the name it was stored under: the function renames the
    object it was given. *)
Definition saveDocument (env : Environment) (timeString : jsstring)
  (st : Storage) (doc : ProcessedDocument)
  : jsstring + (Storage * ProcessedDocument) :=
  if negb (databaseOpens env) then inl saveError
  else
    match db_get (documents st) (id doc) with
    | Some _ =>
        inr ({| documents := db_put (documents st) doc;
                lastProcessedDocumentId := lastProcessedDocumentId st |},
             doc)
    | None =>
        let allDocs := getAllDocuments env st in
        let existingDocByName :=
          find (fun d => str_eqb (name d) (name doc)
                         && negb (str_eqb (id d) (id doc))) allDocs in
        let doc' :=
          match existingDocByName with
          | Some _ =>
              withName doc
                (name doc ++ str " (" ++ dashed timeString ++ str ")")
          | None => doc
          end in
        inr ({| documents := db_put (documents st) doc';
                lastProcessedDocumentId := lastProcessedDocumentId st |},
             doc')
    end.

Definition saveLastProcessedDocumentId (env : Environment) (st : Storage)
  (documentId : jsstring) : Storage :=
  if localStorageWorks env
  then {| documents := documents st;
          lastProcessedDocumentId := Some documentId |}
  else st.

Definition getLastProcessedDocumentId (env : Environment) (st : Storage)
  : option jsstring :=
  if localStorageWorks env then lastProcessedDocumentId st else None.

(** [lastProcessedId === id] *)
Definition same_id (last : option jsstring) (key : jsstring) : bool :=
  match last with
  | Some l => str_eqb l key
  | None => false
  end.

(** [deleteDocument]: the store afterwards, and the error thrown if any. *)
Definition deleteDocument (env : Environment) (st : Storage)
  (key : jsstring) : Storage * option jsstring :=
  if negb (databaseOpens env) then (st, Some deleteError)
  else
    match db_get (documents st) key with
    | None => (st, None)
    | Some _ =>
        ({| documents := db_delete (documents st) key;
            lastProcessedDocumentId :=
              if same_id (getLastProcessedDocumentId env st) key
              then None
              else lastProcessedDocumentId st |},
         None)
    end.

(** [clearAllDocuments]: [localStorage.removeItem] comes after
    [db.clear], inside the same [try]. *)
Definition clearAllDocuments (env : Environment) (st : Storage)
  : Storage * option jsstring :=
  if negb (databaseOpens env) then (st, Some clearError)
  else if localStorageWorks env then
    ({| documents := []; lastProcessedDocumentId := None |}, None)
  else
    ({| documents := [];
        lastProcessedDocumentId := lastProcessedDocumentId st |},
     Some clearError).

(** [loadLastDocument] of [useLastDocument]: the document the hook ends up
    holding. *)
Definition loadLastDocument (env : Environment) (st : Storage)
  : option ProcessedDocument :=
  match getLastProcessedDocumentId env st with
  | Some (c :: lastDocumentId) => getDocumentById env st (c :: lastDocumentId)
  | _ => None
  end.

End DocumentStorage.

(* ================================================================== *)
(** ** Ingestion: [extractDocumentContent], [extractContentFromUrl]

    The parsers of files and pages are collaborators; what they hand back
    is an input. The id and the creation time of a new document come from
    the clock and the random generator, and are inputs too. *)
(* ================================================================== *)

Module Ingestion.

Import DocumentUtils DocumentStorage.
Local Open Scope Z_scope.

(** [fullText] of [extractPdfContent] for the text items of the pages:
    [item.str || empty], joined by a space within a page, each page
    followed by a blank line, the whole trimmed. *)
Definition pdfText (pages : list (list (option jsstring))) : jsstring :=
  trim
    (fold_left
       (fun fullText items =>
          fullText ++ join [sp] (List.map or_empty items) ++ [nl; nl])
       pages []).

(** What reading the file gives: the text, or the message of the error
    thrown. *)
Definition Extraction : Type := (jsstring + jsstring)%type.

(** [extractPdfContent] once pdf.js has answered. *)
Definition extractPdfContent (pdf : option (list (list (option jsstring))))
  : Extraction :=
  match pdf with
  | Some pages => inr (pdfText pages)
  | None => inl (str "PDF file could not be read.")
  end.

Record FileWithPreview := {
  file_name : jsstring;
  file_extension : jsstring
}.

(** What the three readers give for the file at hand. *)
Record Readers := {
  readPdf : Extraction;
  readText : Extraction;
  readMarkdown : Extraction
}.

(** [!content || content.trim() === empty] *)
Definition blank (content : jsstring) : bool :=
  negb (truthy content) || negb (truthy (trim content)).

Definition noContentError : jsstring :=
  str "Content could not be extracted from the document.".

Definition noUrlContentError : jsstring :=
  str "Content could not be extracted from the URL.".

(** The values the clock and the random generator give during one call. *)
Record Fresh := {
  fresh_id : jsstring;
  fresh_now : Z;
  fresh_timeString : jsstring
}.

(** The common end of both functions: chunk, build the document, save it,
    remember its id. *)
Definition store (env : Environment) (fresh : Fresh) (st : Storage)
  (docName content ext : jsstring) (origin : option jsstring)
  : Storage * (jsstring + ProcessedDocument) :=
  let document :=
    {| id := fresh_id fresh;
       name := docName;
       DocumentUtils.content := content;
       extension := ext;
       chunks := chunkDocument content defaultChunkSize;
       summary := None;
       createdAt := fresh_now fresh;
       source := origin |} in
  match saveDocument env (fresh_timeString fresh) st document with
  | inl message => (st, inl message)
  | inr (st', saved) =>
      (saveLastProcessedDocumentId env st' (id saved), inr saved)
  end.

Section WithCaseMapping.

Variable toLowerCase : jsstring -> jsstring.

(** The [switch] on [file.extension.toLowerCase()]. *)
Definition readFile (readers : Readers) (file : FileWithPreview)
  : Extraction :=
  let ext := toLowerCase (file_extension file) in
  if str_eqb ext (str "pdf") then readPdf readers
  else if str_eqb ext (str "txt") then readText readers
  else if str_eqb ext (str "md") then readMarkdown readers
  else inl (str "Unsupported file format: " ++ file_extension file).

(** [extractDocumentContent]: the store afterwards, and the result, an
    error message ([success: false]) or the document ([success: true]). *)
Definition extractDocumentContent (env : Environment) (fresh : Fresh)
  (readers : Readers) (st : Storage) (file : FileWithPreview)
  : Storage * (jsstring + ProcessedDocument) :=
  match readFile readers file with
  | inl message => (st, inl message)
  | inr content =>
      if blank content then (st, inl noContentError)
      else
        store env fresh st (file_name file) content (file_extension file)
          None
  end.

End WithCaseMapping.

(** What the POST to [/api/fetch-url] gives: a rejection (of [fetch] or of
    [json]), a response that is not ok with [errorData.error], or the
    [content] and [title] of the body. *)
Inductive PageFetch :=
| PageRejects (message : jsstring)
| PageNotOk (error : option jsstring)
| PageOk (content title : option jsstring).

(** [a || b] on strings that may be [undefined]. *)
Definition or_else (a : option jsstring) (b : jsstring) : jsstring :=
  match a with
  | Some (c :: s) => c :: s
  | _ => b
  end.

(** The literal separator ["/"]. *)
Definition sep_slash : matcher :=
  fun s =>
    match s with
    | c :: _ => if char_eqb c 47%N then Some 1%nat else None
    | [] => None
    end.

(** [name || title || url.split("/").pop() || "Web Page"] *)
Definition pageName (name : jsstring) (title : option jsstring)
  (url : jsstring) : jsstring :=
  or_else (Some name)
    (or_else title
       (or_else (Some (List.last (split sep_slash url) []))
          (str "Web Page"))).

(** "URL icerigi cekilemedi", in Turkish spelling. *)
Definition pageNotOkError : jsstring :=
  str "URL i" ++ [231%N] ++ str "eri" ++ [287%N] ++ str "i " ++ [231%N]
    ++ str "ekilemedi".

(** [extractContentFromUrl]; [urlValid] tells whether [new URL(url)]
    accepts the address. *)
Definition extractContentFromUrl (env : Environment) (fresh : Fresh)
  (urlValid : bool) (page : PageFetch) (st : Storage)
  (url name : jsstring) : Storage * (jsstring + ProcessedDocument) :=
  if negb urlValid then (st, inl (str "Invalid URL format"))
  else
    match page with
    | PageRejects message => (st, inl message)
    | PageNotOk error => (st, inl (or_else error pageNotOkError))
    | PageOk content title =>
        if blank (or_empty content) then (st, inl noUrlContentError)
        else
          store env fresh st (pageName name title url) (or_empty content)
            (str "html") (Some url)
    end.

End Ingestion.

(* ================================================================== *)
(** ** The chat hook: [sendMessage] of [useWebLLM]

    The state of the hook that [sendMessage] writes, with the updaters
    handed to [setMessages] applied in the order of the calls. The ids and
    times of the two new messages come from the clock and the random
    generator and are inputs. The active service is its [generateResponse]
    with the transport of this call, or [None] when there is none. *)
(* ================================================================== *)

Module ChatHook.

Record Message := {
  msg_id : jsstring;
  msg_content : jsstring;
  msg_role : Role;
  msg_createdAt : Z
}.

Record HookState := {
  messages : list Message;
  isGenerating : bool;
  modelLoadingError : option jsstring
}.

(** A message of the hook as the services read it. *)
Definition toChatMessage (m : Message) : ChatMessage :=
  {| role := msg_role m; content := msg_content m |}.

Definition withContent (m : Message) (c : jsstring) : Message :=
  {| msg_id := msg_id m; msg_content := c; msg_role := msg_role m;
     msg_createdAt := msg_createdAt m |}.

(** The updater both callbacks share: the first message with the id, if
    there is one, gets a new content computed from its old one. *)
Fixpoint updateById (target : jsstring) (f : jsstring -> jsstring)
  (prev : list Message) : list Message :=
  match prev with
  | [] => []
  | m :: rest =>
      if str_eqb (msg_id m) target
      then withContent m (f (msg_content m)) :: rest
      else m :: updateById target f rest
  end.

(** The callback given to [generateResponse]. *)
Definition onChunk (assistantMessageId : jsstring) (prev : list Message)
  (chunk : jsstring) : list Message :=
  updateById assistantMessageId (fun old => old ++ chunk) prev.

Definition sorry : jsstring :=
  str "Sorry, an error occurred. Please try again.".

Definition noServiceError (localProvider : bool) : jsstring :=
  if localProvider then str "Model not loaded. Please try again."
  else str "API service not started. Check your API key.".

Record NewIds := {
  userMessageId : jsstring;
  userCreatedAt : Z;
  assistantMessageId : jsstring;
  assistantCreatedAt : Z
}.

Section WithService.

Variables Service Request Error : Type.

Definition Generate : Type :=
  list ChatMessage -> Outcome Service Request Error jsstring.

(** [sendMessage]: the state of the hook afterwards and, when the service
    was called, what the call did. *)
Definition sendMessage (service : option Generate) (localProvider : bool)
  (ids : NewIds) (st : HookState) (content : jsstring)
  : HookState * option (Outcome Service Request Error jsstring) :=
  if negb (truthy (trim content)) then (st, None)
  else
    match service with
    | None =>
        ({| messages := messages st;
            isGenerating := isGenerating st;
            modelLoadingError := Some (noServiceError localProvider) |},
         None)
    | Some generateResponse =>
        let userMessage :=
          {| msg_id := userMessageId ids; msg_content := content;
             msg_role := user; msg_createdAt := userCreatedAt ids |} in
        let assistantMessage :=
          {| msg_id := assistantMessageId ids; msg_content := [];
             msg_role := assistant;
             msg_createdAt := assistantCreatedAt ids |} in
        let shown := (messages st ++ [userMessage]) ++ [assistantMessage] in
        let call :=
          generateResponse
            (List.map toChatMessage (messages st ++ [userMessage])) in
        let streamed :=
          fold_left (onChunk (assistantMessageId ids)) (updates call)
            shown in
        let final :=
          match returned call with
          | inr _ => streamed
          | inl _ =>
              updateById (assistantMessageId ids) (fun _ => sorry) streamed
          end in
        ({| messages := final;
            isGenerating := false;
            modelLoadingError := modelLoadingError st |},
         Some call)
    end.

End WithService.

End ChatHook.

(* ================================================================== *)
(** ** Words of a text

    The words of a text are its maximal runs of code units that are not
    white space; two texts that differ in white space only have the same
    words. *)
(* ================================================================== *)

Module Words.

Definition emit (cur : jsstring) : list jsstring :=
  if truthy cur then [cur] else [].

Fixpoint words_go (cur s : jsstring) : list jsstring :=
  match s with
  | [] => emit cur
  | c :: s' =>
      if is_space c then emit cur ++ words_go [] s'
      else words_go (cur ++ [c]) s'
  end.

Definition words (s : jsstring) : list jsstring := words_go [] s.

(** A separator pattern that matches white space only. *)
Definition white (m : matcher) : Prop :=
  forall s n, m s = Some n ->
    Forall (fun c => is_space c = true) (firstn n s).

(** A text that holds no white space. *)
Definition solid (w : jsstring) : Prop :=
  Forall (fun c => is_space c = false) w.

End Words.

Import Words.

(* ================================================================== *)
(** ** The invariant of the chunking loops *)
(* ================================================================== *)

Section ChunkInvariant.

Import DocumentUtils.
Local Open Scope Z_scope.

Variable chunkSize : Z.

(** The words a chunk longer than [chunkSize] may consist of. *)
Variable vocabulary : list jsstring.

Definition within (c : jsstring) : Prop :=
  strlen c <= chunkSize \/ (In c vocabulary /\ chunkSize < strlen c).

Definition words_of (st : chunk_state) : list jsstring :=
  flat_map words (fst st) ++ words (snd st).

(** The invariant of both loops: the chunks pushed are not empty and within
    the bound, and so is [currentChunk] unless it is still empty. *)
Definition chunk_inv (st : chunk_state) : Prop :=
  Forall (fun c => c <> [] /\ within c) (fst st) /\
  (snd st = [] \/ within (snd st)).

End ChunkInvariant.

(* ================================================================== *)
(** ** The ranking order and the score in the specification's words *)
(* ================================================================== *)

(** [a] is ranked before [b]: a higher score, or the same score and a
    smaller index in the document. *)
Definition ranks_before (a b : ScoredChunk) : Prop :=
  (score b < score a \/ (score a = score b /\ index a < index b))%Z.

(** The keyword occurs in the chunk, letter case set aside: the test of
    the scoring callback. *)
Definition occursIn (toLowerCase : jsstring -> jsstring)
  (chunk keyword : jsstring) : bool :=
  includes (toLowerCase chunk) (toLowerCase keyword).

Definition jsstring_eq_dec : forall a b : jsstring, {a = b} + {a <> b} :=
  list_eq_dec N.eq_dec.

(** The score as the specification words it: the number of distinct
    keywords that occur in the chunk. *)
Definition distinctKeywordScore (toLowerCase : jsstring -> jsstring)
  (keywords : list jsstring) (chunk : jsstring) : Z :=
  Z.of_nat
    (List.length
       (filter (occursIn toLowerCase chunk)
          (nodup jsstring_eq_dec keywords))).

(* ================================================================== *)
(** ** Runs of completed exchanges *)
(* ================================================================== *)

(** The two entries one completed exchange appends. *)
Definition turn (exchange : jsstring * jsstring) : list ChatMessage :=
  [ {| role := user; content := fst exchange |};
    {| role := assistant; content := snd exchange |} ].

Section Runs.

(** A service, as far as its history goes: [completes s q r s'] says that
    a call of [generateResponse] on [s] with the question [q] returned [r]
    and left the service as [s']. *)
Variable Service : Type.
Variable completes : Service -> jsstring -> jsstring -> Service -> Prop.

(** A run of completed exchanges, oldest first. *)
Inductive exchanges
  : Service -> list (jsstring * jsstring) -> Service -> Prop :=
| exchanges_nil : forall s, exchanges s [] s
| exchanges_cons : forall s q r s' rest s'',
    completes s q r s' -> exchanges s' rest s'' ->
    exchanges s ((q, r) :: rest) s''.

End Runs.

(** Some call on the remote service with the question [q] returned [r] and
    left [this']. *)
Definition remoteCompletes (toLowerCase : jsstring -> jsstring)
  (parseDelta : jsstring -> option jsstring)
  (this : OpenAIService.OpenAIService) (q r : jsstring)
  (this' : OpenAIService.OpenAIService) : Prop :=
  exists fetch messages lastMessage,
    last_message messages = Some lastMessage /\
    content lastMessage = q /\
    returned (OpenAIService.generateResponse toLowerCase parseDelta
                fetch this messages) = inr r /\
    after (OpenAIService.generateResponse toLowerCase parseDelta
             fetch this messages) = this'.

(** The same for the local service. *)
Definition localCompletes (toLowerCase : jsstring -> jsstring)
  (this : WebLLMService.WebLLMService) (q r : jsstring)
  (this' : WebLLMService.WebLLMService) : Prop :=
  exists create messages lastMessage,
    last_message messages = Some lastMessage /\
    content lastMessage = q /\
    returned (WebLLMService.generateResponse toLowerCase create
                this messages) = inr r /\
    after (WebLLMService.generateResponse toLowerCase create
             this messages) = this'.

Definition remoteRun toLowerCase parseDelta :=
  exchanges (remoteCompletes toLowerCase parseDelta).

Definition localRun toLowerCase :=
  exchanges (localCompletes toLowerCase).

(* ================================================================== *)
(** ** Sample services and transports *)
(* ================================================================== *)

Module Samples.

Definition sampleDocument (cs : list jsstring)
  : DocumentUtils.ProcessedDocument :=
  {| DocumentUtils.id := str "d1";
     DocumentUtils.name := str "notes.txt";
     DocumentUtils.content := join [nl; nl] cs;
     DocumentUtils.extension := str "txt";
     DocumentUtils.chunks := cs;
     DocumentUtils.summary := None;
     DocumentUtils.createdAt := 0%Z;
     DocumentUtils.source := None |}.

Definition notes : DocumentUtils.ProcessedDocument :=
  sampleDocument [str "apple banana"; str "apple"; str "banana apple"].

Definition remote (h : list ChatMessage) : OpenAIService.OpenAIService :=
  {| OpenAIService.apiKey := str "sk-test";
     OpenAIService.model := str "gpt-3.5-turbo";
     OpenAIService.document := Some notes;
     OpenAIService.chatHistory := h |}.

Definition remoteFresh : OpenAIService.OpenAIService :=
  {| OpenAIService.apiKey := str "sk-test";
     OpenAIService.model := str "gpt-3.5-turbo";
     OpenAIService.document := None;
     OpenAIService.chatHistory := [] |}.

Definition loaded (h : list ChatMessage) : WebLLMService.WebLLMService :=
  {| WebLLMService.engine := Some WebLLMService.mlcEngine;
     WebLLMService.isInitialized := true;
     WebLLMService.document := Some notes;
     WebLLMService.chatHistory := h |}.

(** [new WebLLMService()], before [init] and [setDocument]. *)
Definition localFresh : WebLLMService.WebLLMService :=
  {| WebLLMService.engine := None;
     WebLLMService.isInitialized := false;
     WebLLMService.document := None;
     WebLLMService.chatHistory := [] |}.

(** [init] done, [setDocument] not called. *)
Definition localLoadedUnbound : WebLLMService.WebLLMService :=
  {| WebLLMService.engine := Some WebLLMService.mlcEngine;
     WebLLMService.isInitialized := true;
     WebLLMService.document := None;
     WebLLMService.chatHistory := [] |}.

Definition ask (q : string) : list ChatMessage :=
  [ {| role := user; content := str q |} ].

(** The payload of a stream line that carries the fragment [text]:
    {"choices":[{"delta":{"content":"text"}}]} *)
Definition deltaPrefix : jsstring :=
  str "{" ++ [dquote] ++ str "choices" ++ [dquote] ++ str ":[{" ++ [dquote]
    ++ str "delta" ++ [dquote] ++ str ":{" ++ [dquote] ++ str "content"
    ++ [dquote] ++ str ":" ++ [dquote].

Definition deltaSuffix : jsstring := [dquote] ++ str "}}]}".

Definition jsonDelta (text : jsstring) : jsstring :=
  deltaPrefix ++ text ++ deltaSuffix.

(** One server-sent event: "data: payload" and a blank line. *)
Definition event (payload : jsstring) : jsstring :=
  str "data: " ++ payload ++ [nl; nl].

(** A reader of payloads of the one shape [jsonDelta] writes, for texts
    that need no escapes; anything else does not parse. *)
Definition readDelta (data : jsstring) : option jsstring :=
  let inner :=
    firstn (List.length data - List.length deltaPrefix
            - List.length deltaSuffix)
      (skipn (List.length deltaPrefix) data) in
  if str_eqb data (jsonDelta inner) then Some inner else None.

Definition streaming (reads : list OpenAIService.ReadResult)
  : OpenAIService.Request -> OpenAIService.FetchResult :=
  fun _ =>
    OpenAIService.FetchResolves
      {| OpenAIService.ok := true;
         OpenAIService.json := OpenAIService.JsonRejects [];
         OpenAIService.body := Some reads |}.

Definition answering (text : string)
  : OpenAIService.Request -> OpenAIService.FetchResult :=
  streaming [OpenAIService.ReadValue (event (jsonDelta (str text)))].

Definition completion (text : jsstring)
  : OpenAIService.Request -> OpenAIService.FetchResult :=
  fun _ =>
    OpenAIService.FetchResolves
      {| OpenAIService.ok := true;
         OpenAIService.json :=
           OpenAIService.JsonResolves
             {| OpenAIService.json_error_message := None;
                OpenAIService.json_choices := Some (Some text) |};
         OpenAIService.body := None |}.

Definition generating (text : string)
  : WebLLMService.Request -> WebLLMService.CreateResult :=
  fun _ => WebLLMService.CreateStream [WebLLMService.Chunk (Some (str text))].

(** "- Topic A", an empty line, "- Topic B". *)
Definition topicList : jsstring :=
  str "- Topic A" ++ [nl; nl] ++ str "- Topic B".

(** The three fragments of the streaming example. *)
Definition helloReads : list OpenAIService.ReadResult :=
  [ OpenAIService.ReadValue (event (jsonDelta (str "Hel")));
    OpenAIService.ReadValue (event (jsonDelta (str "lo, ")));
    OpenAIService.ReadValue (event (jsonDelta (str "world"))) ].

Definition helloSteps : list WebLLMService.StreamStep :=
  [ WebLLMService.Chunk (Some (str "Hel"));
    WebLLMService.Chunk (Some (str "lo, "));
    WebLLMService.Chunk (Some (str "world")) ].

(** A stream that breaks after its first fragment. *)
Definition brokenReads : list OpenAIService.ReadResult :=
  [ OpenAIService.ReadValue (event (jsonDelta (str "Hel")));
    OpenAIService.ReadRejects (str "network error") ].

Definition brokenSteps : list WebLLMService.StreamStep :=
  [ WebLLMService.Chunk (Some (str "Hel"));
    WebLLMService.Raises (str "device lost") ].

(** Six questions and their answers. *)
Definition sixExchanges : list (jsstring * jsstring) :=
  [ (str "q1", str "a1"); (str "q2", str "a2"); (str "q3", str "a3");
    (str "q4", str "a4"); (str "q5", str "a5"); (str "q6", str "a6") ].

Definition lastFive : list ChatMessage :=
  flat_map turn
    [ (str "q2", str "a2"); (str "q3", str "a3"); (str "q4", str "a4");
      (str "q5", str "a5"); (str "q6", str "a6") ].

Definition turnsOf (n : nat) : list ChatMessage :=
  flat_map turn (firstn n sixExchanges).

End Samples.

(* ================================================================== *)
(** ** Vocabulary of the further properties *)
(* ================================================================== *)

(** A line the read loop makes nothing of: no [data: ] prefix, a payload
    that does not parse, or a payload without content. *)
Definition unusable (parseDelta : jsstring -> option jsstring)
  (line : jsstring) : Prop :=
  startsWith line (str "data: ") = false \/
  parseDelta (skipn 6 line) = None \/
  parseDelta (skipn 6 line) = Some [].

(** A response that is ok and whose body is read as [reads]. *)
Definition streamOf (json : OpenAIService.JsonResult)
  (reads : list OpenAIService.ReadResult)
  : OpenAIService.Request -> OpenAIService.FetchResult :=
  fun _ =>
    OpenAIService.FetchResolves
      {| OpenAIService.ok := true;
         OpenAIService.json := json;
         OpenAIService.body := Some reads |}.

(** A read that gives a value. *)
Definition isValue (r : OpenAIService.ReadResult) : Prop :=
  match r with
  | OpenAIService.ReadValue _ => True
  | OpenAIService.ReadRejects _ => False
  end.

(** The browser at its best: the database opens and [localStorage]
    answers. *)
Definition working : DocumentStorage.Environment :=
  {| DocumentStorage.databaseOpens := true;
     DocumentStorage.localStorageWorks := true |}.

(** No two records of the store share an id. *)
Definition uniqueIds (st : DocumentStorage.Storage) : Prop :=
  NoDup (List.map DocumentUtils.id (DocumentStorage.documents st)).

(** The last-processed id, when there is one, names a stored document. *)
Definition pointerValid (st : DocumentStorage.Storage) : Prop :=
  forall key,
    DocumentStorage.lastProcessedDocumentId st = Some key ->
    DocumentStorage.db_get (DocumentStorage.documents st) key <> None.

(** What the application does to the store. *)
Inductive StoreOp :=
| OpFile (fresh : Ingestion.Fresh) (readers : Ingestion.Readers)
    (file : Ingestion.FileWithPreview)
| OpUrl (fresh : Ingestion.Fresh) (urlValid : bool)
    (page : Ingestion.PageFetch) (url name : jsstring)
| OpDelete (key : jsstring)
| OpClear.

Definition applyOp (toLowerCase : jsstring -> jsstring)
  (env : DocumentStorage.Environment) (st : DocumentStorage.Storage)
  (op : StoreOp) : DocumentStorage.Storage :=
  match op with
  | OpFile fresh readers file =>
      fst (Ingestion.extractDocumentContent toLowerCase env fresh readers
             st file)
  | OpUrl fresh urlValid page url name =>
      fst (Ingestion.extractContentFromUrl env fresh urlValid page st
             url name)
  | OpDelete key => fst (DocumentStorage.deleteDocument env st key)
  | OpClear => fst (DocumentStorage.clearAllDocuments env st)
  end.

Definition emptyStorage : DocumentStorage.Storage :=
  {| DocumentStorage.documents := [];
     DocumentStorage.lastProcessedDocumentId := None |}.

(** Sample documents, files and stores. *)
Module StoreSamples.

Definition report (key : string) (time : Z)
  : DocumentUtils.ProcessedDocument :=
  {| DocumentUtils.id := str key;
     DocumentUtils.name := str "report.txt";
     DocumentUtils.content := str "Quarterly report";
     DocumentUtils.extension := str "txt";
     DocumentUtils.chunks := [str "Quarterly report"];
     DocumentUtils.summary := None;
     DocumentUtils.createdAt := time;
     DocumentUtils.source := None |}.

Definition oneReport : DocumentStorage.Storage :=
  {| DocumentStorage.documents := [report "id1" 100];
     DocumentStorage.lastProcessedDocumentId := Some (str "id1") |}.

Definition twoReports : DocumentStorage.Storage :=
  {| DocumentStorage.documents := [report "id1" 100; report "id2" 300];
     DocumentStorage.lastProcessedDocumentId := Some (str "id2") |}.

Definition offline : DocumentStorage.Environment :=
  {| DocumentStorage.databaseOpens := false;
     DocumentStorage.localStorageWorks := true |}.

Definition fresh (key : string) (time : Z) : Ingestion.Fresh :=
  {| Ingestion.fresh_id := str key;
     Ingestion.fresh_now := time;
     Ingestion.fresh_timeString := str "10:15:00" |}.

Definition textFile : Ingestion.FileWithPreview :=
  {| Ingestion.file_name := str "report.txt";
     Ingestion.file_extension := str "TXT" |}.

Definition scan : Ingestion.FileWithPreview :=
  {| Ingestion.file_name := str "scan.pdf";
     Ingestion.file_extension := str "pdf" |}.

Definition reading (text : Ingestion.Extraction) : Ingestion.Readers :=
  {| Ingestion.readPdf := text;
     Ingestion.readText := text;
     Ingestion.readMarkdown := text |}.

End StoreSamples.

(** The two invariants of the store. *)
Definition wellFormed (st : DocumentStorage.Storage) : Prop :=
  uniqueIds st /\ pointerValid st.

(** The two messages [sendMessage] adds to the conversation shown. *)
Definition userBubble (ids : ChatHook.NewIds) (content : jsstring)
  : ChatHook.Message :=
  {| ChatHook.msg_id := ChatHook.userMessageId ids;
     ChatHook.msg_content := content;
     ChatHook.msg_role := user;
     ChatHook.msg_createdAt := ChatHook.userCreatedAt ids |}.

Definition assistantBubble (ids : ChatHook.NewIds) (content : jsstring)
  : ChatHook.Message :=
  {| ChatHook.msg_id := ChatHook.assistantMessageId ids;
     ChatHook.msg_content := content;
     ChatHook.msg_role := assistant;
     ChatHook.msg_createdAt := ChatHook.assistantCreatedAt ids |}.

(** The id of the new assistant message is not the id of a message shown
    nor that of the new user message. *)
Definition freshAssistantId (ids : ChatHook.NewIds)
  (st : ChatHook.HookState) : Prop :=
  ~ In (ChatHook.assistantMessageId ids)
       (List.map ChatHook.msg_id (ChatHook.messages st)) /\
  ChatHook.assistantMessageId ids <> ChatHook.userMessageId ids.

Module HookSamples.

Definition ids : ChatHook.NewIds :=
  {| ChatHook.userMessageId := str "m3";
     ChatHook.userCreatedAt := 30%Z;
     ChatHook.assistantMessageId := str "m4";
     ChatHook.assistantCreatedAt := 31%Z |}.

Definition earlier : ChatHook.HookState :=
  {| ChatHook.messages :=
       [ {| ChatHook.msg_id := str "m1";
            ChatHook.msg_content := str "q0";
            ChatHook.msg_role := user;
            ChatHook.msg_createdAt := 10%Z |};
         {| ChatHook.msg_id := str "m2";
            ChatHook.msg_content := str "a0";
            ChatHook.msg_role := assistant;
            ChatHook.msg_createdAt := 11%Z |} ];
     ChatHook.isGenerating := false;
     ChatHook.modelLoadingError := None |}.

End HookSamples.

(* ================================================================== *)
(** * Properties *)
(* ================================================================== *)

Section WordFacts.

Lemma words_go_app_space (a b cur : jsstring) (c : char) :
  is_space c = true ->
  words_go cur (a ++ c :: b) = words_go cur a ++ words b.
Proof.
  intros Hc. revert cur.
  induction a as [|x a IH]; intros cur; simpl.
  - now rewrite Hc.
  - destruct (is_space x).
    + now rewrite IH, app_assoc.
    + apply IH.
Qed.

Lemma words_app_space (a b : jsstring) (c : char) :
  is_space c = true -> words (a ++ c :: b) = words a ++ words b.
Proof. apply words_go_app_space. Qed.

Lemma words_cons_space (c : char) (s : jsstring) :
  is_space c = true -> words (c :: s) = words s.
Proof. intros Hc. unfold words. simpl. now rewrite Hc. Qed.

Lemma words_nil : words [] = [].
Proof. reflexivity. Qed.

(** A text without white space is one word, or none when it is empty. *)
Lemma words_go_solid (w cur : jsstring) :
  Forall (fun c => is_space c = false) w ->
  words_go cur w = emit (cur ++ w).
Proof.
  intros H. revert cur.
  induction H as [|c w Hc _ IH]; intros cur; simpl.
  - now rewrite app_nil_r.
  - rewrite Hc, IH, <- app_assoc. reflexivity.
Qed.

Lemma words_solid (w : jsstring) :
  Forall (fun c => is_space c = false) w -> words w = emit w.
Proof. intros H. unfold words. now rewrite words_go_solid. Qed.

Lemma sp_is_space : is_space sp = true.
Proof. reflexivity. Qed.

Lemma nl_is_space : is_space nl = true.
Proof. reflexivity. Qed.

Lemma words_join_space (a b : jsstring) :
  words (a ++ str " " ++ b) = words a ++ words b.
Proof. apply words_app_space, sp_is_space. Qed.

Lemma words_join_blank (a b : jsstring) :
  words (a ++ [nl; nl] ++ b) = words a ++ words b.
Proof.
  change (a ++ [nl; nl] ++ b) with (a ++ nl :: (nl :: b)).
  rewrite words_app_space by apply nl_is_space.
  now rewrite words_cons_space by apply nl_is_space.
Qed.

(** Splitting on a white separator keeps the words. *)
Lemma split_go_words (m : matcher) :
  white m ->
  forall s,
    (forall cur, flat_map words (split_go m s cur 0) = words (cur ++ s)) /\
    (forall k, Forall (fun c => is_space c = true) (firstn k s) ->
               flat_map words (split_go m s [] k) = words s).
Proof.
  intros Hm.
  induction s as [|c s [IH0 IHk]].
  - split; intros; simpl; now rewrite ?app_nil_r.
  - assert (H0 : forall cur,
      flat_map words (split_go m (c :: s) cur 0) = words (cur ++ c :: s)).
    { intros cur. simpl.
      destruct (m (c :: s)) as [[|k]|] eqn:E.
      - rewrite IH0, <- app_assoc. reflexivity.
      - apply Hm in E. simpl in E. inversion E as [|? ? Hc Hk]; subst.
        simpl. rewrite (IHk k Hk). now rewrite words_app_space.
      - rewrite IH0, <- app_assoc. reflexivity. }
    split; [exact H0|].
    intros [|k] Hk.
    + apply H0.
    + simpl in *. inversion Hk as [|? ? Hc Hk']; subst.
      rewrite (IHk k Hk'). now rewrite words_cons_space.
Qed.

Lemma split_words (m : matcher) (s : jsstring) :
  white m -> flat_map words (split m s) = words s.
Proof. intros Hm. apply (proj1 (split_go_words Hm s) []). Qed.

Lemma space_run_white (s : jsstring) :
  Forall (fun c => is_space c = true) (firstn (space_run s) s).
Proof.
  induction s as [|c s IH]; simpl; [constructor|].
  destruct (is_space c) eqn:E; simpl; [|constructor].
  constructor; assumption.
Qed.

Lemma re_spaces_white : white re_spaces.
Proof.
  intros s n. unfold re_spaces.
  pose proof (space_run_white s) as H.
  destruct (space_run s); [discriminate|].
  intros [= <-]. exact H.
Qed.

Lemma blank_tail_white (s : jsstring) (n : nat) :
  blank_tail s = Some n -> Forall (fun c => is_space c = true) (firstn n s).
Proof.
  revert n. induction s as [|c s IH]; intros n; simpl; [discriminate|].
  destruct (is_space c) eqn:E; [|discriminate].
  destruct (blank_tail s) as [k|].
  - intros [= <-]. simpl. constructor; auto.
  - destruct (char_eqb c nl); [|discriminate].
    intros [= <-]. simpl. constructor; [assumption|constructor].
Qed.

Lemma re_blank_line_white : white re_blank_line.
Proof.
  intros [|c s] n; simpl; [discriminate|].
  destruct (char_eqb c nl) eqn:E; [|discriminate].
  destruct (blank_tail s) as [k|] eqn:Ek; simpl; [|discriminate].
  intros [= <-]. simpl. constructor.
  - apply N.eqb_eq in E. now subst c.
  - now apply blank_tail_white.
Qed.

End WordFacts.

Section SplitFacts.

(** The pieces [split(/\s+/)] produces hold no white space. *)
Lemma split_go_spaces_solid (s cur : jsstring) (k : nat) :
  solid cur -> Forall solid (split_go re_spaces s cur k).
Proof.
  revert cur k.
  induction s as [|c s IH]; intros cur k Hcur; simpl.
  - constructor; [assumption|constructor].
  - destruct k as [|k]; [|now apply IH].
    unfold re_spaces at 1. simpl.
    destruct (is_space c) eqn:E.
    + constructor; [assumption|]. apply IH. constructor.
    + apply IH. apply Forall_app. split; [assumption|].
      constructor; [assumption|constructor].
Qed.

Lemma split_spaces_pieces (p w : jsstring) :
  In w (split re_spaces p) -> w = [] \/ In w (words p).
Proof.
  intros Hin.
  assert (Hs : solid w).
  { pose proof (@split_go_spaces_solid p [] 0 (Forall_nil _)) as H.
    rewrite Forall_forall in H. now apply H. }
  destruct w as [|c w]; [now left|right].
  rewrite <- (split_words p re_spaces_white).
  apply in_flat_map. exists (c :: w). split; [assumption|].
  rewrite (words_solid Hs). now left.
Qed.

Lemma strlen_app (a b : jsstring) :
  strlen (a ++ b) = (strlen a + strlen b)%Z.
Proof. unfold strlen. rewrite length_app. lia. Qed.

Lemma truthy_false (s : jsstring) : truthy s = false -> s = [].
Proof. destruct s; [reflexivity|discriminate]. Qed.

Lemma truthy_true (s : jsstring) : truthy s = true -> s <> [].
Proof. destruct s; [discriminate|]. intros _. discriminate. Qed.

End SplitFacts.

Section ChunkLoop.

Import DocumentUtils.
Local Open Scope Z_scope.

Variable chunkSize : Z.
Variable vocabulary : list jsstring.

Lemma flush_words (st : chunk_state) :
  flat_map words (flush st) = words_of st.
Proof.
  destruct st as [chunks cur]. unfold flush, words_of. simpl.
  destruct (truthy cur) eqn:E.
  - rewrite flat_map_app. simpl. now rewrite app_nil_r.
  - apply truthy_false in E. subst cur. now rewrite words_nil, app_nil_r.
Qed.

Lemma flush_inv (st : chunk_state) :
  chunk_inv chunkSize vocabulary st ->
  Forall (fun c => c <> [] /\ within chunkSize vocabulary c) (flush st).
Proof.
  destruct st as [chunks cur]. intros [Hc Hcur]. simpl in *.
  destruct (truthy cur) eqn:E; [|assumption].
  apply Forall_app. split; [assumption|].
  constructor; [|constructor].
  apply truthy_true in E. split; [assumption|].
  destruct Hcur; [contradiction|assumption].
Qed.

Lemma add_word_words (st : chunk_state) (word : jsstring) :
  words_of (add_word chunkSize st word) = words_of st ++ words word.
Proof.
  destruct st as [chunks cur]. unfold add_word.
  destruct (strlen (cur ++ str " " ++ word) <=? chunkSize).
  - unfold words_of. cbn [fst snd].
    destruct (truthy cur) eqn:E.
    + now rewrite words_join_space, app_assoc.
    + apply truthy_false in E. subst cur. simpl.
      now rewrite words_nil, app_nil_r.
  - unfold words_of at 1. cbn [fst snd].
    now rewrite flush_words.
Qed.

Lemma add_word_inv (st : chunk_state) (word : jsstring) :
  word = [] \/ In word vocabulary ->
  chunk_inv chunkSize vocabulary st ->
  chunk_inv chunkSize vocabulary (add_word chunkSize st word).
Proof.
  intros Hw Hst. pose proof (flush_inv Hst) as Hfl.
  destruct st as [chunks cur]. unfold add_word.
  destruct (strlen (cur ++ str " " ++ word) <=? chunkSize) eqn:E.
  - destruct Hst as [Hc _]. split; [exact Hc|]. right. left. cbn [snd].
    apply Z.leb_le in E. rewrite !strlen_app in *.
    destruct (truthy cur); [assumption|].
    change (strlen []) with 0. change (strlen (str " ")) with 1 in E. lia.
  - split; [exact Hfl|]. cbn [snd].
    destruct Hw as [->|Hin]; [now left|right].
    unfold within. destruct (Z_le_gt_dec (strlen word) chunkSize).
    + now left.
    + right. split; [assumption|lia].
Qed.

Lemma fold_add_word_words (ws : list jsstring) (st : chunk_state) :
  words_of (fold_left (add_word chunkSize) ws st)
  = words_of st ++ flat_map words ws.
Proof.
  revert st. induction ws as [|w ws IH]; intros st; simpl.
  - now rewrite app_nil_r.
  - now rewrite IH, add_word_words, app_assoc.
Qed.

Lemma fold_add_word_inv (ws : list jsstring) (st : chunk_state) :
  (forall w, In w ws -> w = [] \/ In w vocabulary) ->
  chunk_inv chunkSize vocabulary st ->
  chunk_inv chunkSize vocabulary (fold_left (add_word chunkSize) ws st).
Proof.
  revert st. induction ws as [|w ws IH]; intros st Hws Hst; simpl.
  - assumption.
  - apply IH.
    + intros w' Hw'. apply Hws. now right.
    + apply add_word_inv; [|assumption]. apply Hws. now left.
Qed.

Lemma add_paragraph_words (st : chunk_state) (paragraph : jsstring) :
  words_of (add_paragraph chunkSize st paragraph)
  = words_of st ++ words paragraph.
Proof.
  destruct st as [chunks cur]. unfold add_paragraph.
  destruct (strlen paragraph >? chunkSize).
  - rewrite fold_add_word_words.
    now rewrite (split_words paragraph re_spaces_white).
  - destruct (strlen (cur ++ [nl; nl] ++ paragraph) <=? chunkSize).
    + unfold words_of. cbn [fst snd].
      destruct (truthy cur) eqn:E.
      * now rewrite words_join_blank, app_assoc.
      * apply truthy_false in E. subst cur. simpl.
        now rewrite words_nil, app_nil_r.
    + unfold words_of at 1. cbn [fst snd].
      now rewrite flush_words.
Qed.

Lemma add_paragraph_inv (st : chunk_state) (paragraph : jsstring) :
  (forall w, In w (words paragraph) -> In w vocabulary) ->
  chunk_inv chunkSize vocabulary st ->
  chunk_inv chunkSize vocabulary (add_paragraph chunkSize st paragraph).
Proof.
  intros Hp Hst. pose proof (flush_inv Hst) as Hfl.
  destruct st as [chunks cur]. unfold add_paragraph.
  destruct (strlen paragraph >? chunkSize) eqn:Elong.
  - apply fold_add_word_inv; [|assumption].
    intros w Hw. destruct (split_spaces_pieces _ _ Hw); auto.
  - destruct (strlen (cur ++ [nl; nl] ++ paragraph) <=? chunkSize) eqn:E.
    + destruct Hst as [Hc _]. split; [exact Hc|]. right. left. cbn [snd].
      apply Z.leb_le in E. rewrite !strlen_app in *.
      destruct (truthy cur); [assumption|].
      change (strlen []) with 0. change (strlen [nl; nl]) with 2 in E. lia.
    + split; [exact Hfl|]. cbn [snd]. right. left.
      destruct (Z.gtb_spec (strlen paragraph) chunkSize); [discriminate|lia].
Qed.

Lemma fold_add_paragraph (ps : list jsstring) (st : chunk_state) :
  (forall p w, In p ps -> In w (words p) -> In w vocabulary) ->
  chunk_inv chunkSize vocabulary st ->
  let st' := fold_left (add_paragraph chunkSize) ps st in
  chunk_inv chunkSize vocabulary st' /\
  words_of st' = words_of st ++ flat_map words ps.
Proof.
  revert st. induction ps as [|p ps IH]; intros st Hps Hst; simpl.
  - split; [assumption|now rewrite app_nil_r].
  - destruct (IH (add_paragraph chunkSize st p)) as [Hinv Hw].
    + intros p' w Hp'. apply Hps. now right.
    + apply add_paragraph_inv; [|assumption].
      intros w. apply Hps. now left.
    + split; [exact Hinv|].
      simpl in Hw. now rewrite Hw, add_paragraph_words, app_assoc.
Qed.

End ChunkLoop.

(* ================================================================== *)
(** ** The chunker *)
(* ================================================================== *)

Section Chunker.

Import DocumentUtils.
Local Open Scope Z_scope.

(** C10. A text strictly shorter than [chunkSize] comes back as the one
    chunk, verbatim, and this includes the empty text: with the default
    size [chunkDocument] of the empty text is a list whose only chunk is
    empty. *)
Theorem chunkDocument_short_text :
  (forall (content : jsstring) (chunkSize : Z),
      strlen content < chunkSize ->
      chunkDocument content chunkSize = [content]) /\
  chunkDocument [] defaultChunkSize = [[]].
Proof.
  split; [|reflexivity].
  intros content chunkSize H. unfold chunkDocument.
  apply Z.ltb_lt in H. now rewrite H.
Qed.

Lemma chunkDocument_short_text_witness :
  strlen (str "hello world") < 1000 /\
  chunkDocument (str "hello world") 1000 = [str "hello world"].
Proof.
  split; [reflexivity|].
  apply (proj1 chunkDocument_short_text). reflexivity.
Defined.

(** C5. For a content that is not empty and any [chunkSize]: the words of
    the chunks, read chunk after chunk, are the words of the content in
    source order; no chunk is empty; and a chunk is at most [chunkSize]
    long unless it is a single word of the content that is longer than
    [chunkSize] by itself. *)
Theorem chunkDocument_coverage (content : jsstring) (chunkSize : Z) :
  content <> [] ->
  flat_map words (chunkDocument content chunkSize) = words content /\
  Forall (fun chunk => chunk <> []) (chunkDocument content chunkSize) /\
  Forall (fun chunk =>
            strlen chunk <= chunkSize \/
            (In chunk (words content) /\ chunkSize < strlen chunk))
         (chunkDocument content chunkSize).
Proof.
  intros Hne. unfold chunkDocument.
  destruct (strlen content <? chunkSize) eqn:E.
  - apply Z.ltb_lt in E. simpl. rewrite app_nil_r.
    repeat split; constructor; auto. left. lia.
  - pose proof (split_words content re_blank_line_white) as Hsplit.
    destruct (@fold_add_paragraph chunkSize (words content)
                (split re_blank_line content) ([], [])) as [Hinv Hw].
    + intros p w Hp Hin. rewrite <- Hsplit.
      apply in_flat_map. now exists p.
    + split; [constructor|now left].
    + cbv zeta in Hinv, Hw. apply flush_inv in Hinv.
      split.
      * rewrite flush_words, Hw, Hsplit. reflexivity.
      * split; eapply Forall_impl; try exact Hinv; simpl; tauto.
Qed.

Lemma chunkDocument_coverage_witness :
  let content :=
    str "aaa bbb ccc" ++ [nl; nl] ++ str "dd ee" ++ [nl; nl]
      ++ str "ffffffffffff g" in
  chunkDocument content 7
  = [str "aaa bbb"; str "ccc"; str "dd ee"; str "ffffffffffff"; str "g"] /\
  flat_map words (chunkDocument content 7) = words content /\
  Forall (fun chunk => chunk <> []) (chunkDocument content 7) /\
  Forall (fun chunk =>
            strlen chunk <= 7 \/
            (In chunk (words content) /\ 7 < strlen chunk))
         (chunkDocument content 7).
Proof.
  intros content. split; [reflexivity|].
  apply (@chunkDocument_coverage content 7). discriminate.
Defined.

End Chunker.

(* ================================================================== *)
(** ** The relevance ranker *)
(* ================================================================== *)

Section SortFacts.

Local Open Scope Z_scope.

Variable A : Type.
Variable cmp : A -> A -> Z.

Hypothesis cmp_total : forall a b, precedes cmp a b \/ precedes cmp b a.
Hypothesis cmp_trans :
  forall a b c, precedes cmp a b -> precedes cmp b c -> precedes cmp a c.

Lemma sort_insert_perm (x : A) (l : list A) :
  Permutation (sort_insert cmp x l) (x :: l).
Proof.
  induction l as [|y l IH]; simpl; [reflexivity|].
  destruct (cmp x y <=? 0); [reflexivity|].
  rewrite IH. apply perm_swap.
Qed.

Lemma sort_perm (l : list A) : Permutation (sort cmp l) l.
Proof.
  induction l as [|x l IH]; simpl; [reflexivity|].
  rewrite sort_insert_perm. now constructor.
Qed.

Lemma sort_insert_sorted (x : A) (l : list A) :
  StronglySorted (precedes cmp) l ->
  StronglySorted (precedes cmp) (sort_insert cmp x l).
Proof.
  induction 1 as [|y l Hl IH Hy]; simpl.
  - repeat constructor.
  - destruct (cmp x y <=? 0) eqn:E.
    + apply Z.leb_le in E. constructor.
      * now constructor.
      * constructor; [exact E|].
        eapply Forall_impl; [|exact Hy].
        intros z Hz. now apply cmp_trans with y.
    + apply Z.leb_gt in E. constructor; [exact IH|].
      assert (Hyx : precedes cmp y x).
      { destruct (cmp_total x y) as [H|H]; [unfold precedes in H; lia|easy]. }
      eapply Permutation_Forall.
      * symmetry. apply sort_insert_perm.
      * now constructor.
Qed.

Lemma sort_sorted (l : list A) :
  StronglySorted (precedes cmp) (sort cmp l).
Proof.
  induction l as [|x l IH]; simpl; [constructor|].
  now apply sort_insert_sorted.
Qed.

End SortFacts.

Section SliceFacts.

Variable A : Type.

Lemma firstn_min_length (k : nat) (l : list A) :
  firstn (Nat.min k (List.length l)) l = firstn k l.
Proof.
  destruct (Nat.le_ge_cases k (List.length l)) as [H|H].
  - now rewrite Nat.min_l.
  - rewrite Nat.min_r by assumption.
    now rewrite firstn_all, firstn_all2.
Qed.

(** [l.slice(0, k)] for a count [k] is the first [k] entries. *)
Lemma slice_prefix (l : list A) (k : nat) :
  slice l 0 (Z.of_nat k) = firstn k l.
Proof.
  unfold slice, clamp_index.
  replace (0 <? 0)%Z with false by reflexivity.
  replace (Z.of_nat k <? 0)%Z with false by (symmetry; apply Z.ltb_ge; lia).
  rewrite (Z.min_l 0) by lia. simpl skipn.
  rewrite <- (firstn_min_length k l).
  replace (Z.to_nat (Z.min (Z.of_nat k) (Z.of_nat (List.length l)) - 0))
    with (Nat.min k (List.length l)) by lia.
  reflexivity.
Qed.

(** [l.slice(-k)] for a count [k] drops all but the last [k] entries. *)
Lemma slice_from_suffix (l : list A) (k : nat) :
  (0 < k)%nat ->
  slice_from l (- Z.of_nat k) = skipn (List.length l - k) l.
Proof.
  intros Hk. unfold slice_from, slice, clamp_index.
  replace (- Z.of_nat k <? 0)%Z with true by (symmetry; apply Z.ltb_lt; lia).
  replace (Z.of_nat (List.length l) <? 0)%Z with false
    by (symmetry; apply Z.ltb_ge; lia).
  rewrite Z.min_id.
  replace (Z.to_nat (Z.max (Z.of_nat (List.length l) + - Z.of_nat k) 0))
    with (List.length l - k)%nat by lia.
  apply firstn_all2. rewrite length_skipn. lia.
Qed.

End SliceFacts.

Section Ranker.

Import DocumentUtils.
Local Open Scope Z_scope.

Lemma compareScored_spec (a b : ScoredChunk) :
  precedes compareScored a b <->
  score b < score a \/ (score a = score b /\ index a <= index b).
Proof.
  unfold precedes, compareScored.
  destruct (Z.eqb_spec (score b) (score a)); simpl; lia.
Qed.

Lemma compareScored_total (a b : ScoredChunk) :
  precedes compareScored a b \/ precedes compareScored b a.
Proof. rewrite !compareScored_spec. lia. Qed.

Lemma compareScored_trans (a b c : ScoredChunk) :
  precedes compareScored a b -> precedes compareScored b c ->
  precedes compareScored a c.
Proof. rewrite !compareScored_spec. lia. Qed.

Lemma map_indexed_index_lower {X} (f : X -> Z -> ScoredChunk)
  (l : list X) (i : Z) :
  (forall x j, index (f x j) = j) ->
  forall sc, In sc (map_indexed f l i) -> i <= index sc.
Proof.
  intros Hf. revert i.
  induction l as [|x l IH]; intros i sc; simpl; [easy|].
  intros [<-|Hin].
  - rewrite Hf. lia.
  - apply IH in Hin. lia.
Qed.

Lemma map_indexed_index_nodup {X} (f : X -> Z -> ScoredChunk)
  (l : list X) (i : Z) :
  (forall x j, index (f x j) = j) ->
  NoDup (List.map index (map_indexed f l i)).
Proof.
  intros Hf. revert i.
  induction l as [|x l IH]; intros i; simpl; constructor.
  - rewrite Hf. intros Hin. apply in_map_iff in Hin.
    destruct Hin as [sc [Hi Hsc]].
    apply (map_indexed_index_lower f l (i + 1) Hf) in Hsc. lia.
  - apply IH.
Qed.

Lemma sorted_strict (l : list ScoredChunk) :
  NoDup (List.map index l) ->
  StronglySorted (precedes compareScored) l ->
  StronglySorted ranks_before l.
Proof.
  intros Hnd Hs. induction Hs as [|a l Hl IH Ha]; [constructor|].
  simpl in Hnd. inversion Hnd as [|? ? Hnotin Hnd']; subst.
  constructor; [now apply IH|].
  rewrite Forall_forall in *. intros b Hb.
  specialize (Ha b Hb). apply compareScored_spec in Ha.
  assert (index a <> index b).
  { intros E. apply Hnotin. rewrite E. now apply in_map. }
  unfold ranks_before. lia.
Qed.

Variable toLowerCase : jsstring -> jsstring.

Lemma findRelevantChunks_ranked (doc : ProcessedDocument)
  (query : jsstring) (maxChunks : nat) :
  extractKeywords toLowerCase query <> [] ->
  let scored :=
    scoredChunks toLowerCase (extractKeywords toLowerCase query)
      (chunks doc) in
  findRelevantChunks toLowerCase (Some doc) query (Z.of_nat maxChunks)
  = firstn maxChunks (List.map chunk (sort compareScored scored)).
Proof.
  intros Hk scored. unfold findRelevantChunks.
  destruct (chunks doc) as [|c cs] eqn:Ec.
  - simpl. now rewrite firstn_nil.
  - replace (arraylen (c :: cs) =? 0) with false by reflexivity.
    destruct (extractKeywords toLowerCase query) as [|k ks] eqn:Ek;
      [contradiction|].
    replace (arraylen (k :: ks) =? 0) with false by reflexivity.
    rewrite slice_prefix, firstn_map. reflexivity.
Qed.

End Ranker.

Section RankerClaims.

Import DocumentUtils Samples.
Local Open Scope Z_scope.

(** C3. With a keyword list that is not empty, the ranker returns, for a
    count [maxChunks], the first [maxChunks] chunks of the scored chunks put
    in the order: higher score first, and among equal scores the smaller
    document index first. In
    particular the chunks "apple banana", "apple", "banana apple" and the
    query "apple" come back in that same order. *)
Theorem findRelevantChunks_order :
  (forall (toLowerCase : jsstring -> jsstring) (doc : ProcessedDocument)
          (query : jsstring) (maxChunks : nat),
      extractKeywords toLowerCase query <> [] ->
      exists ranked : list ScoredChunk,
        Permutation ranked
          (scoredChunks toLowerCase (extractKeywords toLowerCase query)
             (chunks doc)) /\
        StronglySorted ranks_before ranked /\
        findRelevantChunks toLowerCase (Some doc) query (Z.of_nat maxChunks)
        = firstn maxChunks (List.map chunk ranked)) /\
  (forall doc : ProcessedDocument,
      chunks doc = [str "apple banana"; str "apple"; str "banana apple"] ->
      findRelevantChunks ascii_toLowerCase (Some doc) (str "apple") 3
      = [str "apple banana"; str "apple"; str "banana apple"]).
Proof.
  split.
  - intros toLowerCase doc query maxChunks Hk.
    set (scored := scoredChunks toLowerCase
                     (extractKeywords toLowerCase query) (chunks doc)).
    exists (sort compareScored scored).
    split; [apply sort_perm|]. split.
    + apply sorted_strict.
      * eapply Permutation_NoDup.
        -- apply Permutation_map. symmetry. apply sort_perm.
        -- apply map_indexed_index_nodup. reflexivity.
      * apply sort_sorted.
        -- apply compareScored_total.
        -- apply compareScored_trans.
    + now apply findRelevantChunks_ranked.
  - intros doc Hc. unfold findRelevantChunks. rewrite Hc. reflexivity.
Qed.

Lemma findRelevantChunks_order_witness :
  let doc :=
    sampleDocument
      [str "plain"; str "banana"; str "banana apple"; str "apple"] in
  extractKeywords ascii_toLowerCase (str "Apple, banana!") <> [] /\
  findRelevantChunks ascii_toLowerCase (Some doc) (str "Apple, banana!") 2
  = [str "banana apple"; str "banana"] /\
  exists ranked : list ScoredChunk,
    Permutation ranked
      (scoredChunks ascii_toLowerCase
         (extractKeywords ascii_toLowerCase (str "Apple, banana!"))
         (chunks doc)) /\
    StronglySorted ranks_before ranked /\
    findRelevantChunks ascii_toLowerCase (Some doc) (str "Apple, banana!")
      (Z.of_nat 2)
    = firstn 2 (List.map chunk ranked).
Proof.
  intros doc. split; [discriminate|]. split; [reflexivity|].
  apply (proj1 findRelevantChunks_order). discriminate.
Defined.

Lemma chunkScore_fold (toLowerCase : jsstring -> jsstring)
  (keywords : list jsstring) (chunk : jsstring) (acc : Z) :
  fold_left
    (fun acc keyword =>
       acc + (if includes (toLowerCase chunk) (toLowerCase keyword)
              then 1 else 0))
    keywords acc
  = acc + Z.of_nat
            (List.length (filter (occursIn toLowerCase chunk) keywords)).
Proof.
  revert acc. induction keywords as [|k ks IH]; intros acc; simpl.
  - lia.
  - rewrite IH. unfold occursIn at 2.
    destruct (includes (toLowerCase chunk) (toLowerCase k)); simpl; lia.
Qed.

(** C4, as the code has it. The score of a chunk is the number of entries
    of the extracted keyword list that occur in the chunk, letter case set
    aside; an entry counts once however often it occurs in the chunk, and a
    keyword the query repeats is an entry each time. When the list repeats
    no keyword this is the number of distinct keywords that occur in the
    chunk. *)
Theorem chunkScore_counts_entries (toLowerCase : jsstring -> jsstring)
  (query chunk : jsstring) :
  let keywords := extractKeywords toLowerCase query in
  chunkScore toLowerCase keywords chunk
  = Z.of_nat
      (List.length (filter (occursIn toLowerCase chunk) keywords)) /\
  distinctKeywordScore toLowerCase keywords chunk
  <= chunkScore toLowerCase keywords chunk <= arraylen keywords /\
  (NoDup keywords ->
   chunkScore toLowerCase keywords chunk
   = distinctKeywordScore toLowerCase keywords chunk).
Proof.
  intros keywords.
  assert (E : chunkScore toLowerCase keywords chunk
              = Z.of_nat (List.length
                            (filter (occursIn toLowerCase chunk) keywords))).
  { unfold chunkScore. now rewrite chunkScore_fold. }
  split; [exact E|]. split.
  - rewrite E. unfold distinctKeywordScore, arraylen. split.
    + apply inj_le. apply NoDup_incl_length.
      * apply NoDup_filter, NoDup_nodup.
      * intros k Hk. apply filter_In in Hk. destruct Hk as [Hk Hp].
        apply filter_In. split; [|exact Hp].
        now apply nodup_In in Hk.
    + apply inj_le, filter_length_le.
  - intros Hnd. rewrite E. unfold distinctKeywordScore.
    now rewrite nodup_fixed_point.
Qed.

Lemma chunkScore_counts_entries_witness :
  let keywords := extractKeywords ascii_toLowerCase (str "Apple, banana!") in
  NoDup keywords /\
  chunkScore ascii_toLowerCase keywords (str "An APPLE a day")
  = distinctKeywordScore ascii_toLowerCase keywords (str "An APPLE a day").
Proof.
  assert (Hnd : NoDup (extractKeywords ascii_toLowerCase
                         (str "Apple, banana!"))).
  { repeat constructor; simpl; intuition discriminate. }
  split; [exact Hnd|].
  apply (proj2 (proj2 (chunkScore_counts_entries ascii_toLowerCase
                         (str "Apple, banana!") (str "An APPLE a day")))).
  exact Hnd.
Defined.

(** C4 as stated fails when the query repeats a keyword: for the query
    "apple apple" the chunk "apple" scores 2, with one distinct keyword. *)
Lemma chunkScore_repeated_keyword :
  let keywords := extractKeywords ascii_toLowerCase (str "apple apple") in
  keywords = [str "apple"; str "apple"] /\
  chunkScore ascii_toLowerCase keywords (str "apple") = 2 /\
  distinctKeywordScore ascii_toLowerCase keywords (str "apple") = 1 /\
  chunkScore ascii_toLowerCase keywords (str "apple")
  <> distinctKeywordScore ascii_toLowerCase keywords (str "apple").
Proof. repeat split. discriminate. Qed.

End RankerClaims.

(* ================================================================== *)
(** ** The history buffer *)
(* ================================================================== *)

Section History.

Local Open Scope Z_scope.

Lemma recentHistory_suffix (h : list ChatMessage) :
  recentHistory h = skipn (List.length h - 6) h.
Proof.
  unfold recentHistory, arraylen.
  destruct h as [|m h]; [reflexivity|].
  replace (Z.of_nat (List.length (m :: h)) >? 0) with true
    by (symmetry; apply Z.gtb_lt; simpl List.length; lia).
  change (-6) with (- Z.of_nat 6).
  apply slice_from_suffix. lia.
Qed.

Lemma recordExchange_suffix (h : list ChatMessage) (q r : jsstring) :
  exists dropped,
    h ++ turn (q, r) = dropped ++ recordExchange h q r /\
    List.length (recordExchange h q r)
    = Nat.min 10 (List.length h + 2).
Proof.
  unfold recordExchange, turn, arraylen. cbn [fst snd].
  set (pushed := h ++ _).
  assert (Hlen : List.length pushed = (List.length h + 2)%nat).
  { unfold pushed. rewrite length_app. reflexivity. }
  destruct (Z.gtb_spec (Z.of_nat (List.length pushed)) 10) as [Hgt|Hle].
  - change (-10) with (- Z.of_nat 10).
    rewrite slice_from_suffix by lia.
    exists (firstn (List.length pushed - 10) pushed). split.
    + now rewrite firstn_skipn.
    + rewrite length_skipn. lia.
  - exists []. split; [reflexivity|]. lia.
Qed.

Lemma recordExchange_bounded (h : list ChatMessage) (q r : jsstring) :
  arraylen (recordExchange h q r) <= 10.
Proof.
  destruct (recordExchange_suffix h q r) as [_ [_ Hlen]].
  unfold arraylen. lia.
Qed.

Lemma app_same_length_suffix {X} (a b c d : list X) :
  a ++ b = c ++ d -> List.length b = List.length d -> b = d.
Proof.
  intros E Hl.
  assert (Ha : List.length a = List.length c).
  { apply (f_equal (@List.length X)) in E. rewrite !length_app in E. lia. }
  revert c E Ha. induction a as [|x a IH]; intros [|y c] E Ha;
    simpl in *; try discriminate; [assumption|].
  injection E as _ E. apply (IH c); [assumption|lia].
Qed.

Variable Service : Type.
Variable history : Service -> list ChatMessage.
Variable completes : Service -> jsstring -> jsstring -> Service -> Prop.

Hypothesis completes_records :
  forall s q r s',
    completes s q r s' -> history s' = recordExchange (history s) q r.

Lemma exchanges_suffix (s s' : Service) (run : list (jsstring * jsstring)) :
  exchanges completes s run s' ->
  exists dropped,
    history s ++ flat_map turn run = dropped ++ history s' /\
    (Nat.min 10 (List.length (history s) + 2 * List.length run)
     <= List.length (history s'))%nat /\
    (run <> [] -> (List.length (history s') <= 10)%nat).
Proof.
  induction 1 as [s|s q r s' rest s'' Hstep Hrest IH].
  - exists []. cbn [flat_map app]. rewrite app_nil_r.
    repeat split; [simpl List.length; lia|congruence].
  - destruct IH as [dropped' [Happ [Hlow Hup]]].
    apply completes_records in Hstep.
    destruct (recordExchange_suffix (history s) q r) as [dropped [Hd Hl]].
    rewrite <- Hstep in Hd, Hl.
    exists (dropped ++ dropped'). split; [|split].
    + cbn [flat_map]. rewrite app_assoc, Hd, <- !app_assoc, Happ.
      reflexivity.
    + simpl List.length. lia.
    + intros _. destruct rest as [|p rest].
      * inversion Hrest; subst. lia.
      * apply Hup. discriminate.
Qed.

(** After six completed exchanges the history is the last five of them. *)
Lemma exchanges_six (s s' : Service) (p1 p2 p3 p4 p5 p6 : jsstring * jsstring) :
  exchanges completes s [p1; p2; p3; p4; p5; p6] s' ->
  history s' = flat_map turn [p2; p3; p4; p5; p6].
Proof.
  intros H. apply exchanges_suffix in H.
  destruct H as [dropped [Happ [Hlow Hup]]].
  assert (Hlen : List.length (history s') = 10%nat).
  { specialize (Hup ltac:(discriminate)). simpl List.length in Hlow. lia. }
  symmetry.
  apply (@app_same_length_suffix _ (history s ++ turn p1) _ dropped).
  - rewrite <- Happ, <- app_assoc. reflexivity.
  - rewrite Hlen. reflexivity.
Qed.

End History.

(* ================================================================== *)
(** ** The remote service *)
(* ================================================================== *)

Module OpenAIFacts.

Import OpenAIService.

Section WithRuntime.

Variable toLowerCase : jsstring -> jsstring.
Variable parseDelta : jsstring -> option jsstring.

Lemma handleLine_accumulated (st : stream_state) (line : jsstring) :
  fst st = List.concat (snd st) ->
  fst (handleLine parseDelta st line)
  = List.concat (snd (handleLine parseDelta st line)).
Proof.
  destruct st as [full calls]. unfold handleLine.
  cbn [fst snd]. intros ->.
  destruct (startsWith line (str "data: ")); [|reflexivity].
  destruct (parseDelta (skipn 6 line)) as [content|]; [|reflexivity].
  destruct (truthy content); [|reflexivity].
  cbn [fst snd]. rewrite concat_app. cbn [List.concat].
  now rewrite app_nil_r.
Qed.

Lemma handleLines_accumulated (ls : list jsstring) (st : stream_state) :
  fst st = List.concat (snd st) ->
  fst (fold_left (handleLine parseDelta) ls st)
  = List.concat (snd (fold_left (handleLine parseDelta) ls st)).
Proof.
  revert st. induction ls as [|l ls IH]; intros st H; simpl; [assumption|].
  apply IH. now apply handleLine_accumulated.
Qed.

Lemma readLoop_accumulated (reads : list ReadResult) (st : stream_state) :
  fst st = List.concat (snd st) ->
  fst (snd (readLoop parseDelta reads st))
  = List.concat (snd (snd (readLoop parseDelta reads st))).
Proof.
  revert st. induction reads as [|[text|e] reads IH]; intros st H; simpl.
  - assumption.
  - apply IH. now apply handleLines_accumulated.
  - assumption.
Qed.

(** A call that throws leaves the service as it was. *)
Lemma openai_generate_throws fetch this messages e :
  returned (generateResponse toLowerCase parseDelta fetch this messages)
  = inl e ->
  after (generateResponse toLowerCase parseDelta fetch this messages) = this.
Proof.
  unfold generateResponse.
  destruct (document this); [|reflexivity].
  destruct (last_message messages); [|reflexivity].
  match goal with |- context [fetch ?r] => destruct (fetch r) as [?|resp] end;
    [reflexivity|].
  destruct (ok resp); simpl; [|reflexivity].
  destruct (body resp) as [reads|]; [|reflexivity].
  destruct (readLoop parseDelta reads ([], [])) as [[?|] [full calls]];
    simpl; [reflexivity|discriminate].
Qed.

(** A call that returns has asked one question, recorded the exchange, and
    returns what it handed to [onUpdate]. *)
Lemma openai_generate_returns fetch this messages text :
  returned (generateResponse toLowerCase parseDelta fetch this messages)
  = inr text ->
  exists lastMessage,
    last_message messages = Some lastMessage /\
    after (generateResponse toLowerCase parseDelta fetch this messages)
    = withHistory this
        (recordExchange (chatHistory this) (content lastMessage) text) /\
    text
    = List.concat
        (updates
           (generateResponse toLowerCase parseDelta fetch this messages)).
Proof.
  unfold generateResponse.
  destruct (document this); [|discriminate].
  destruct (last_message messages) as [m|]; [|discriminate].
  match goal with |- context [fetch ?r] => destruct (fetch r) as [?|resp] end;
    [discriminate|].
  destruct (ok resp); simpl; [|discriminate].
  destruct (body resp) as [reads|]; [|discriminate].
  pose proof (@readLoop_accumulated reads ([], []) eq_refl) as Hacc.
  destruct (readLoop parseDelta reads ([], [])) as [[?|] [full calls]];
    simpl; [discriminate|].
  intros [= <-]. exists m. repeat split. exact Hacc.
Qed.

(** Without a document nothing reaches the transport. *)
Lemma openai_generate_unbound fetch this messages :
  document this = None ->
  generateResponse toLowerCase parseDelta fetch this messages
  = throws this DocumentNotSet [] [].
Proof. intros H. unfold generateResponse. now rewrite H. Qed.

Lemma openai_generate_request fetch this messages doc lastMessage :
  document this = Some doc ->
  last_message messages = Some lastMessage ->
  List.map req_messages
    (requests (generateResponse toLowerCase parseDelta fetch this messages))
  = [ [ {| role := system; content := createSystemPrompt (Some doc) |} ]
        ++ skipn (List.length (chatHistory this) - 6) (chatHistory this)
        ++ [ userContextMessage
               (join [nl; nl]
                  (findRelevantChunks toLowerCase (Some doc)
                     (content lastMessage) 3))
               (content lastMessage) ] ].
Proof.
  intros Hd Hm. unfold generateResponse. rewrite Hd, Hm.
  rewrite recentHistory_suffix.
  match goal with |- context [fetch ?r] => destruct (fetch r) as [?|resp] end;
    [reflexivity|].
  destruct (ok resp); simpl; [|reflexivity].
  destruct (body resp) as [reads|]; [|reflexivity].
  destruct (readLoop parseDelta reads ([], [])) as [[?|] [full calls]];
    reflexivity.
Qed.

Lemma openai_completes_records this q r this' :
  remoteCompletes toLowerCase parseDelta this q r this' ->
  chatHistory this' = recordExchange (chatHistory this) q r.
Proof.
  intros [fetch [messages [m [Hm [Hq [Hr Ha]]]]]].
  apply openai_generate_returns in Hr.
  destruct Hr as [m' [Hm' [Hafter _]]].
  rewrite Hm in Hm'. injection Hm' as <-.
  rewrite <- Ha, Hafter, Hq. reflexivity.
Qed.

End WithRuntime.

End OpenAIFacts.

(* ================================================================== *)
(** ** The local service *)
(* ================================================================== *)

Module WebLLMFacts.

Import WebLLMService.

Lemma streamLoop_accumulated (steps : list StreamStep) (st : stream_state) :
  fst st = List.concat (snd st) ->
  fst (snd (streamLoop steps st))
  = List.concat (snd (snd (streamLoop steps st))).
Proof.
  revert st. induction steps as [|[deltaContent|e] steps IH];
    intros st H; simpl; try assumption.
  apply IH. cbn [fst snd]. rewrite H, concat_app. cbn [List.concat].
  now rewrite app_nil_r.
Qed.

(** The loop hands every chunk to [onUpdate], one call a chunk. *)
Lemma streamLoop_updates (steps : list StreamStep) (st : stream_state) :
  Forall (fun step => exists c, step = Chunk c) steps ->
  streamLoop steps st
  = (None,
     (fst st
        ++ List.concat
             (List.map (fun step => match step with
                                    | Chunk c => or_empty c
                                    | Raises _ => []
                                    end) steps),
      snd st
        ++ List.map (fun step => match step with
                                 | Chunk c => or_empty c
                                 | Raises _ => []
                                 end) steps)).
Proof.
  intros H. revert st.
  induction H as [|step steps [c ->] _ IH]; intros [full calls]; simpl.
  - now rewrite !app_nil_r.
  - rewrite IH. cbn [fst snd]. now rewrite <- !app_assoc.
Qed.

Section WithRuntime.

Variable toLowerCase : jsstring -> jsstring.

Lemma webllm_generate_throws create this messages e :
  returned (generateResponse toLowerCase create this messages) = inl e ->
  after (generateResponse toLowerCase create this messages) = this.
Proof.
  unfold generateResponse.
  destruct (notLoaded this); [reflexivity|].
  destruct (document this); [|reflexivity].
  destruct (last_message messages); [|reflexivity].
  match goal with |- context [create ?r] => destruct (create r) as [?|steps|?]
  end; try reflexivity.
  destruct (streamLoop steps ([], [])) as [[?|] [full calls]];
    simpl; [reflexivity|discriminate].
Qed.

Lemma webllm_generate_returns create this messages text :
  returned (generateResponse toLowerCase create this messages) = inr text ->
  exists lastMessage,
    last_message messages = Some lastMessage /\
    after (generateResponse toLowerCase create this messages)
    = withHistory this
        (recordExchange (chatHistory this) (content lastMessage) text) /\
    text
    = List.concat
        (updates (generateResponse toLowerCase create this messages)).
Proof.
  unfold generateResponse.
  destruct (notLoaded this); [discriminate|].
  destruct (document this); [|discriminate].
  destruct (last_message messages) as [m|]; [|discriminate].
  match goal with |- context [create ?r] => destruct (create r) as [?|steps|?]
  end; try discriminate.
  pose proof (@streamLoop_accumulated steps ([], []) eq_refl) as Hacc.
  destruct (streamLoop steps ([], [])) as [[?|] [full calls]];
    simpl; [discriminate|].
  intros [= <-]. exists m. repeat split. exact Hacc.
Qed.

(** Without a document, or without a loaded model, nothing reaches the
    engine; the model is looked at first. *)
Lemma webllm_generate_unbound create this messages :
  document this = None ->
  generateResponse toLowerCase create this messages
  = throws this
      (if notLoaded this then ModelNotLoaded else DocumentNotSet) [] [].
Proof.
  intros H. unfold generateResponse. rewrite H.
  now destruct (notLoaded this).
Qed.

Lemma webllm_generate_request create this messages doc lastMessage :
  notLoaded this = false ->
  document this = Some doc ->
  last_message messages = Some lastMessage ->
  List.map req_messages
    (requests (generateResponse toLowerCase create this messages))
  = [ [ {| role := system; content := createSystemPrompt (Some doc) |};
        userContextMessage
          (join [nl; nl]
             (findRelevantChunks toLowerCase (Some doc)
                (content lastMessage) 3))
          (content lastMessage) ]
        ++ skipn (List.length (chatHistory this) - 6) (chatHistory this) ].
Proof.
  intros Hl Hd Hm. unfold generateResponse.
  rewrite Hl, Hd, Hm, recentHistory_suffix.
  match goal with |- context [create ?r] => destruct (create r) as [?|steps|?]
  end; try reflexivity.
  destruct (streamLoop steps ([], [])) as [[?|] [full calls]]; reflexivity.
Qed.

Lemma webllm_completes_records this q r this' :
  localCompletes toLowerCase this q r this' ->
  chatHistory this' = recordExchange (chatHistory this) q r.
Proof.
  intros [create [messages [m [Hm [Hq [Hr Ha]]]]]].
  apply webllm_generate_returns in Hr.
  destruct Hr as [m' [Hm' [Hafter _]]].
  rewrite Hm in Hm'. injection Hm' as <-.
  rewrite <- Ha, Hafter, Hq. reflexivity.
Qed.

End WithRuntime.

End WebLLMFacts.

(* ================================================================== *)
(** ** Prompt assembly and the topic list *)
(* ================================================================== *)

Section PromptClaims.

Import Samples.

(** C1. The remote service submits the system message, then the last six
    history entries in their order, then the new user message. The local
    service submits the system message, the new user message, and the
    history after it: with a history of one exchange the request ends with
    the old answer, not with the new question. *)
Theorem history_placement :
  (forall toLowerCase parseDelta fetch this messages doc lastMessage,
      OpenAIService.document this = Some doc ->
      last_message messages = Some lastMessage ->
      List.map OpenAIService.req_messages
        (requests (OpenAIService.generateResponse toLowerCase parseDelta
                     fetch this messages))
      = [ [ {| role := system;
               content := createSystemPrompt (Some doc) |} ]
            ++ skipn (List.length (OpenAIService.chatHistory this) - 6)
                 (OpenAIService.chatHistory this)
            ++ [ OpenAIService.userContextMessage
                   (join [nl; nl]
                      (findRelevantChunks toLowerCase (Some doc)
                         (content lastMessage) 3))
                   (content lastMessage) ] ]) /\
  (forall toLowerCase create this messages doc lastMessage,
      WebLLMService.notLoaded this = false ->
      WebLLMService.document this = Some doc ->
      last_message messages = Some lastMessage ->
      List.map WebLLMService.req_messages
        (requests (WebLLMService.generateResponse toLowerCase create
                     this messages))
      = [ [ {| role := system;
               content := createSystemPrompt (Some doc) |};
            WebLLMService.userContextMessage
              (join [nl; nl]
                 (findRelevantChunks toLowerCase (Some doc)
                    (content lastMessage) 3))
              (content lastMessage) ]
            ++ skipn (List.length (WebLLMService.chatHistory this) - 6)
                 (WebLLMService.chatHistory this) ]) /\
  List.map WebLLMService.req_messages
    (requests
       (WebLLMService.generateResponse ascii_toLowerCase (generating "a1")
          (loaded (turn (str "q0", str "a0"))) (ask "q1")))
  = [ [ {| role := system; content := createSystemPrompt (Some notes) |};
        WebLLMService.userContextMessage
          (join [nl; nl] (DocumentUtils.chunks notes)) (str "q1");
        {| role := user; content := str "q0" |};
        {| role := assistant; content := str "a0" |} ] ].
Proof.
  split; [|split].
  - intros toLowerCase parseDelta fetch this messages doc m Hd Hm.
    apply (OpenAIFacts.openai_generate_request toLowerCase parseDelta
             fetch this messages Hd Hm).
  - intros toLowerCase create this messages doc m Hl Hd Hm.
    apply (WebLLMFacts.webllm_generate_request toLowerCase create
             this messages Hl Hd Hm).
  - reflexivity.
Qed.

Lemma history_placement_witness :
  List.map (fun ms => List.map role ms)
    (List.map OpenAIService.req_messages
       (requests
          (OpenAIService.generateResponse ascii_toLowerCase readDelta
             (answering "a1") (remote (turn (str "q0", str "a0")))
             (ask "q1"))))
  = [[system; user; assistant; user]] /\
  List.map (fun ms => List.map role ms)
    (List.map WebLLMService.req_messages
       (requests
          (WebLLMService.generateResponse ascii_toLowerCase
             (generating "a1") (loaded (turn (str "q0", str "a0")))
             (ask "q1"))))
  = [[system; user; user; assistant]].
Proof.
  split.
  - rewrite (proj1 history_placement ascii_toLowerCase readDelta
               (answering "a1") (remote (turn (str "q0", str "a0")))
               (ask "q1") notes {| role := user; content := str "q1" |}
               eq_refl eq_refl).
    reflexivity.
  - rewrite (proj1 (proj2 history_placement) ascii_toLowerCase
               (generating "a1") (loaded (turn (str "q0", str "a0")))
               (ask "q1") notes {| role := user; content := str "q1" |}
               eq_refl eq_refl eq_refl).
    reflexivity.
Defined.

Lemma topic_callback_truthy (line : jsstring) :
  truthy (topic_callback line) = truthy line.
Proof.
  destruct line as [|c rest]; [reflexivity|].
  unfold topic_callback. cbn [truthy andb].
  change (str "-") with [45%N].
  cbn [startsWith]. unfold strip_list_marker, char_eqb.
  rewrite andb_true_r, (N.eqb_sym 45 c).
  destruct (N.eqb c 45); reflexivity.
Qed.

(** C2. What the code returns for a topic text: the trimmed lines that are
    not empty, each as it is. The callback that was to strip the marker is
    the test of a [filter], so its value only decides whether the line
    stays: a leading "-" is kept and an empty line is dropped. *)
Theorem parseTopics_keeps_markers :
  (forall topicsText : jsstring,
      parseTopics topicsText
      = filter truthy (List.map trim (split sep_newline topicsText))) /\
  parseTopics topicList = [str "- Topic A"; str "- Topic B"] /\
  returned (OpenAIService.extractKeyTopics (completion topicList) (remote []))
  = inr [str "- Topic A"; str "- Topic B"] /\
  returned
    (WebLLMService.extractKeyTopics
       (fun _ => WebLLMService.CreateCompletion (Some topicList)) (loaded []))
  = inr [str "- Topic A"; str "- Topic B"].
Proof.
  split; [|repeat split].
  intros topicsText. unfold parseTopics.
  apply filter_ext. intros line. apply topic_callback_truthy.
Qed.

End PromptClaims.

(* ================================================================== *)
(** ** Generation: preconditions, streaming, history *)
(* ================================================================== *)

Section GenerationClaims.

Import Samples.
Local Open Scope Z_scope.

(** C7, as the code has it. Without a document [generateResponse] reaches
    neither the network nor the model. The remote service throws "document
    not set". The local service looks at the model first: it throws "model
    not loaded" when the model is not loaded, and "document not set" when
    it is. *)
Theorem generateResponse_without_document :
  (forall toLowerCase parseDelta fetch this messages,
      OpenAIService.document this = None ->
      let call := OpenAIService.generateResponse toLowerCase parseDelta
                    fetch this messages in
      returned call = inl OpenAIService.DocumentNotSet /\
      requests call = [] /\ updates call = [] /\ after call = this) /\
  (forall toLowerCase create this messages,
      WebLLMService.document this = None ->
      let call := WebLLMService.generateResponse toLowerCase create
                    this messages in
      returned call
      = inl (if WebLLMService.notLoaded this
             then WebLLMService.ModelNotLoaded
             else WebLLMService.DocumentNotSet) /\
      requests call = [] /\ updates call = [] /\ after call = this).
Proof.
  split.
  - intros toLowerCase parseDelta fetch this messages H call.
    unfold call. rewrite OpenAIFacts.openai_generate_unbound by assumption.
    now repeat split.
  - intros toLowerCase create this messages H call.
    unfold call. rewrite WebLLMFacts.webllm_generate_unbound by assumption.
    now repeat split.
Qed.

Lemma generateResponse_without_document_witness :
  (returned (OpenAIService.generateResponse ascii_toLowerCase readDelta
               (answering "a1") remoteFresh (ask "q1"))
   = inl OpenAIService.DocumentNotSet /\
   requests (OpenAIService.generateResponse ascii_toLowerCase readDelta
               (answering "a1") remoteFresh (ask "q1")) = []) /\
  (returned (WebLLMService.generateResponse ascii_toLowerCase
               (generating "a1") localLoadedUnbound (ask "q1"))
   = inl WebLLMService.DocumentNotSet /\
   requests (WebLLMService.generateResponse ascii_toLowerCase
               (generating "a1") localLoadedUnbound (ask "q1")) = []).
Proof.
  split.
  - destruct (proj1 generateResponse_without_document ascii_toLowerCase
                readDelta (answering "a1") remoteFresh (ask "q1") eq_refl)
      as [Hr [Hq _]].
    split; [exact Hr|exact Hq].
  - destruct (proj2 generateResponse_without_document ascii_toLowerCase
                (generating "a1") localLoadedUnbound (ask "q1") eq_refl)
      as [Hr [Hq _]].
    split; [exact Hr|exact Hq].
Defined.

(** C7 as stated fails on a local service that is new: [setDocument] has
    not been called, and the call throws "model not loaded", not "document
    not set". *)
Lemma generateResponse_fresh_local_service :
  WebLLMService.document localFresh = None /\
  returned (WebLLMService.generateResponse ascii_toLowerCase
              (generating "a1") localFresh (ask "q1"))
  = inl WebLLMService.ModelNotLoaded /\
  returned (WebLLMService.generateResponse ascii_toLowerCase
              (generating "a1") localFresh (ask "q1"))
  <> inl WebLLMService.DocumentNotSet.
Proof. repeat split. discriminate. Qed.

Lemma handleLine_data parseDelta (st : OpenAIService.stream_state)
  (payload : jsstring) :
  OpenAIService.handleLine parseDelta st (str "data: " ++ payload)
  = match parseDelta payload with
    | Some content =>
        if truthy content
        then (fst st ++ content, snd st ++ [content])
        else st
    | None => st
    end.
Proof. destruct st as [full calls]. reflexivity. Qed.

Lemma readLoop_hello parseDelta :
  parseDelta (jsonDelta (str "Hel")) = Some (str "Hel") ->
  parseDelta (jsonDelta (str "lo, ")) = Some (str "lo, ") ->
  parseDelta (jsonDelta (str "world")) = Some (str "world") ->
  OpenAIService.readLoop parseDelta helloReads ([], [])
  = (None, (str "Hello, world", [str "Hel"; str "lo, "; str "world"])).
Proof.
  intros H1 H2 H3. unfold helloReads.
  assert (Hl : forall payload,
             In payload [jsonDelta (str "Hel"); jsonDelta (str "lo, ");
                         jsonDelta (str "world")] ->
             OpenAIService.streamLines (event payload)
             = [str "data: " ++ payload]).
  { intros payload [<-|[<-|[<-|[]]]]; reflexivity. }
  cbn [OpenAIService.readLoop].
  rewrite !Hl by (simpl; tauto).
  cbn [fold_left]. rewrite !handleLine_data.
  rewrite H1, H2, H3. reflexivity.
Qed.

(** C8. A call that returns, returns the fragments it gave to [onUpdate],
    put together in the order of the calls. A stream that delivers "Hel",
    "lo, ", "world" makes three calls of [onUpdate], with these fragments,
    and the call returns "Hello, world". *)
Theorem generateResponse_streams :
  (forall toLowerCase parseDelta fetch this messages text,
      returned (OpenAIService.generateResponse toLowerCase parseDelta
                  fetch this messages) = inr text ->
      text = List.concat
               (updates (OpenAIService.generateResponse toLowerCase
                           parseDelta fetch this messages))) /\
  (forall toLowerCase create this messages text,
      returned (WebLLMService.generateResponse toLowerCase create
                  this messages) = inr text ->
      text = List.concat
               (updates (WebLLMService.generateResponse toLowerCase create
                           this messages))) /\
  (forall toLowerCase parseDelta this messages doc lastMessage,
      OpenAIService.document this = Some doc ->
      last_message messages = Some lastMessage ->
      parseDelta (jsonDelta (str "Hel")) = Some (str "Hel") ->
      parseDelta (jsonDelta (str "lo, ")) = Some (str "lo, ") ->
      parseDelta (jsonDelta (str "world")) = Some (str "world") ->
      let call := OpenAIService.generateResponse toLowerCase parseDelta
                    (streaming helloReads) this messages in
      updates call = [str "Hel"; str "lo, "; str "world"] /\
      returned call = inr (str "Hello, world")) /\
  (forall toLowerCase this messages doc lastMessage,
      WebLLMService.notLoaded this = false ->
      WebLLMService.document this = Some doc ->
      last_message messages = Some lastMessage ->
      let call := WebLLMService.generateResponse toLowerCase
                    (fun _ => WebLLMService.CreateStream helloSteps)
                    this messages in
      updates call = [str "Hel"; str "lo, "; str "world"] /\
      returned call = inr (str "Hello, world")).
Proof.
  split; [|split; [|split]].
  - intros toLowerCase parseDelta fetch this messages text H.
    apply OpenAIFacts.openai_generate_returns in H.
    now destruct H as [_ [_ [_ H]]].
  - intros toLowerCase create this messages text H.
    apply WebLLMFacts.webllm_generate_returns in H.
    now destruct H as [_ [_ [_ H]]].
  - intros toLowerCase parseDelta this messages doc m Hd Hm H1 H2 H3 call.
    unfold call, OpenAIService.generateResponse, streaming.
    rewrite Hd, Hm. cbn [OpenAIService.ok OpenAIService.body negb].
    rewrite (readLoop_hello parseDelta H1 H2 H3). split; reflexivity.
  - intros toLowerCase this messages doc m Hl Hd Hm call.
    unfold call, WebLLMService.generateResponse.
    rewrite Hl, Hd, Hm. split; reflexivity.
Qed.

Lemma generateResponse_streams_witness :
  let remoteCall :=
    OpenAIService.generateResponse ascii_toLowerCase readDelta
      (streaming helloReads) (remote []) (ask "say hello") in
  let localCall :=
    WebLLMService.generateResponse ascii_toLowerCase
      (fun _ => WebLLMService.CreateStream helloSteps) (loaded [])
      (ask "say hello") in
  (updates remoteCall = [str "Hel"; str "lo, "; str "world"] /\
   returned remoteCall = inr (str "Hello, world")) /\
  (updates localCall = [str "Hel"; str "lo, "; str "world"] /\
   returned localCall = inr (str "Hello, world")) /\
  str "Hello, world" = List.concat (updates remoteCall) /\
  str "Hello, world" = List.concat (updates localCall).
Proof.
  intros remoteCall localCall.
  pose proof generateResponse_streams as [Hremote [Hlocal [Hex1 Hex2]]].
  split; [|split; [|split]].
  - apply (Hex1 ascii_toLowerCase readDelta (remote []) (ask "say hello")
             notes {| role := user; content := str "say hello" |});
      reflexivity.
  - apply (Hex2 ascii_toLowerCase (loaded []) (ask "say hello")
             notes {| role := user; content := str "say hello" |});
      reflexivity.
  - apply Hremote. reflexivity.
  - apply Hlocal. reflexivity.
Defined.

(** C9. A call that throws leaves the history as it was; this holds for
    every throw, and so for a failure of the transport, of the response or
    of the stream after the checks have passed. *)
Theorem failed_generation_keeps_history :
  (forall toLowerCase parseDelta fetch this messages e,
      returned (OpenAIService.generateResponse toLowerCase parseDelta
                  fetch this messages) = inl e ->
      OpenAIService.chatHistory
        (after (OpenAIService.generateResponse toLowerCase parseDelta
                  fetch this messages))
      = OpenAIService.chatHistory this) /\
  (forall toLowerCase create this messages e,
      returned (WebLLMService.generateResponse toLowerCase create
                  this messages) = inl e ->
      WebLLMService.chatHistory
        (after (WebLLMService.generateResponse toLowerCase create
                  this messages))
      = WebLLMService.chatHistory this).
Proof.
  split.
  - intros toLowerCase parseDelta fetch this messages e H.
    now rewrite (OpenAIFacts.openai_generate_throws _ _ _ _ _ H).
  - intros toLowerCase create this messages e H.
    now rewrite (WebLLMFacts.webllm_generate_throws _ _ _ _ H).
Qed.

Lemma failed_generation_keeps_history_witness :
  let h := turn (str "q0", str "a0") in
  let remoteCall :=
    OpenAIService.generateResponse ascii_toLowerCase readDelta
      (streaming brokenReads) (remote h) (ask "q1") in
  let localCall :=
    WebLLMService.generateResponse ascii_toLowerCase
      (fun _ => WebLLMService.CreateStream brokenSteps) (loaded h)
      (ask "q1") in
  (returned remoteCall = inl (OpenAIService.Rejected (str "network error")) /\
   updates remoteCall = [str "Hel"] /\
   OpenAIService.chatHistory (after remoteCall) = h) /\
  (returned localCall = inl WebLLMService.GenerationFailed /\
   updates localCall = [str "Hel"] /\
   WebLLMService.chatHistory (after localCall) = h).
Proof.
  intros h remoteCall localCall.
  pose proof failed_generation_keeps_history as [Hremote Hlocal].
  split; (split; [reflexivity|split; [reflexivity|]]).
  - apply (Hremote ascii_toLowerCase readDelta (streaming brokenReads)
             (remote h) (ask "q1")
             (OpenAIService.Rejected (str "network error"))).
    reflexivity.
  - apply (Hlocal ascii_toLowerCase
             (fun _ => WebLLMService.CreateStream brokenSteps)
             (loaded h) (ask "q1") WebLLMService.GenerationFailed).
    reflexivity.
Defined.

End GenerationClaims.

Section HistoryClaims.

Import Samples.
Local Open Scope Z_scope.

(** C6. A call that returns leaves at most ten entries in the history: the
    history before and the new pair, cut at the front to the last ten.
    After six completed exchanges the history is the last five exchanges,
    question and answer in turn, and the first exchange is gone. *)
Theorem history_bounded :
  (forall toLowerCase parseDelta fetch this messages text,
      let call := OpenAIService.generateResponse toLowerCase parseDelta
                    fetch this messages in
      returned call = inr text ->
      exists lastMessage dropped,
        last_message messages = Some lastMessage /\
        OpenAIService.chatHistory this ++ turn (content lastMessage, text)
        = dropped ++ OpenAIService.chatHistory (after call) /\
        List.length (OpenAIService.chatHistory (after call))
        = Nat.min 10 (List.length (OpenAIService.chatHistory this) + 2) /\
        arraylen (OpenAIService.chatHistory (after call)) <= 10) /\
  (forall toLowerCase create this messages text,
      let call := WebLLMService.generateResponse toLowerCase create
                    this messages in
      returned call = inr text ->
      exists lastMessage dropped,
        last_message messages = Some lastMessage /\
        WebLLMService.chatHistory this ++ turn (content lastMessage, text)
        = dropped ++ WebLLMService.chatHistory (after call) /\
        List.length (WebLLMService.chatHistory (after call))
        = Nat.min 10 (List.length (WebLLMService.chatHistory this) + 2) /\
        arraylen (WebLLMService.chatHistory (after call)) <= 10) /\
  (forall toLowerCase parseDelta this this' p1 p2 p3 p4 p5 p6,
      remoteRun toLowerCase parseDelta this [p1; p2; p3; p4; p5; p6] this' ->
      OpenAIService.chatHistory this'
      = flat_map turn [p2; p3; p4; p5; p6]) /\
  (forall toLowerCase this this' p1 p2 p3 p4 p5 p6,
      localRun toLowerCase this [p1; p2; p3; p4; p5; p6] this' ->
      WebLLMService.chatHistory this'
      = flat_map turn [p2; p3; p4; p5; p6]).
Proof.
  split; [|split; [|split]].
  - intros toLowerCase parseDelta fetch this messages text call H.
    apply OpenAIFacts.openai_generate_returns in H.
    destruct H as [m [Hm [Hafter _]]].
    destruct (recordExchange_suffix (OpenAIService.chatHistory this)
                (content m) text) as [dropped [Hd Hl]].
    exists m, dropped. unfold call. rewrite Hafter.
    cbn [OpenAIService.withHistory OpenAIService.chatHistory].
    repeat split; try assumption. apply recordExchange_bounded.
  - intros toLowerCase create this messages text call H.
    apply WebLLMFacts.webllm_generate_returns in H.
    destruct H as [m [Hm [Hafter _]]].
    destruct (recordExchange_suffix (WebLLMService.chatHistory this)
                (content m) text) as [dropped [Hd Hl]].
    exists m, dropped. unfold call. rewrite Hafter.
    cbn [WebLLMService.withHistory WebLLMService.chatHistory].
    repeat split; try assumption. apply recordExchange_bounded.
  - intros toLowerCase parseDelta this this' p1 p2 p3 p4 p5 p6 H.
    apply (exchanges_six OpenAIService.chatHistory
             (@OpenAIFacts.openai_completes_records toLowerCase parseDelta)
             H).
  - intros toLowerCase this this' p1 p2 p3 p4 p5 p6 H.
    apply (exchanges_six WebLLMService.chatHistory
             (@WebLLMFacts.webllm_completes_records toLowerCase) H).
Qed.

Lemma remote_six :
  remoteRun ascii_toLowerCase readDelta (remote []) sixExchanges
    (remote lastFive).
Proof.
  unfold remoteRun, sixExchanges.
  apply exchanges_cons with (s' := remote (turnsOf 1));
    [exists (answering "a1"), (ask "q1"),
       {| role := user; content := str "q1" |}; repeat split|].
  apply exchanges_cons with (s' := remote (turnsOf 2));
    [exists (answering "a2"), (ask "q2"),
       {| role := user; content := str "q2" |}; repeat split|].
  apply exchanges_cons with (s' := remote (turnsOf 3));
    [exists (answering "a3"), (ask "q3"),
       {| role := user; content := str "q3" |}; repeat split|].
  apply exchanges_cons with (s' := remote (turnsOf 4));
    [exists (answering "a4"), (ask "q4"),
       {| role := user; content := str "q4" |}; repeat split|].
  apply exchanges_cons with (s' := remote (turnsOf 5));
    [exists (answering "a5"), (ask "q5"),
       {| role := user; content := str "q5" |}; repeat split|].
  apply exchanges_cons with (s' := remote lastFive);
    [exists (answering "a6"), (ask "q6"),
       {| role := user; content := str "q6" |}; repeat split|].
  apply exchanges_nil.
Defined.

Lemma local_six :
  localRun ascii_toLowerCase (loaded []) sixExchanges (loaded lastFive).
Proof.
  unfold localRun, sixExchanges.
  apply exchanges_cons with (s' := loaded (turnsOf 1));
    [exists (generating "a1"), (ask "q1"),
       {| role := user; content := str "q1" |}; repeat split|].
  apply exchanges_cons with (s' := loaded (turnsOf 2));
    [exists (generating "a2"), (ask "q2"),
       {| role := user; content := str "q2" |}; repeat split|].
  apply exchanges_cons with (s' := loaded (turnsOf 3));
    [exists (generating "a3"), (ask "q3"),
       {| role := user; content := str "q3" |}; repeat split|].
  apply exchanges_cons with (s' := loaded (turnsOf 4));
    [exists (generating "a4"), (ask "q4"),
       {| role := user; content := str "q4" |}; repeat split|].
  apply exchanges_cons with (s' := loaded (turnsOf 5));
    [exists (generating "a5"), (ask "q5"),
       {| role := user; content := str "q5" |}; repeat split|].
  apply exchanges_cons with (s' := loaded lastFive);
    [exists (generating "a6"), (ask "q6"),
       {| role := user; content := str "q6" |}; repeat split|].
  apply exchanges_nil.
Defined.

Lemma history_bounded_witness :
  (exists this',
      remoteRun ascii_toLowerCase readDelta (remote []) sixExchanges this' /\
      OpenAIService.chatHistory this' = lastFive) /\
  (exists this',
      localRun ascii_toLowerCase (loaded []) sixExchanges this' /\
      WebLLMService.chatHistory this' = lastFive) /\
  arraylen
    (OpenAIService.chatHistory
       (after (OpenAIService.generateResponse ascii_toLowerCase readDelta
                 (answering "a6") (remote (turnsOf 5)) (ask "q6")))) <= 10 /\
  arraylen
    (WebLLMService.chatHistory
       (after (WebLLMService.generateResponse ascii_toLowerCase
                 (generating "a6") (loaded (turnsOf 5)) (ask "q6")))) <= 10.
Proof.
  pose proof history_bounded as [Hremote [Hlocal [Hsix Hsix']]].
  split; [|split; [|split]].
  - exists (remote lastFive). split; [exact remote_six|].
    apply (Hsix _ _ _ _ _ _ _ _ _ _ remote_six).
  - exists (loaded lastFive). split; [exact local_six|].
    apply (Hsix' _ _ _ _ _ _ _ _ _ local_six).
  - destruct (Hremote ascii_toLowerCase readDelta (answering "a6")
                (remote (turnsOf 5)) (ask "q6") (str "a6") eq_refl)
      as [m [dropped [_ [_ [_ H]]]]].
    exact H.
  - destruct (Hlocal ascii_toLowerCase (generating "a6")
                (loaded (turnsOf 5)) (ask "q6") (str "a6") eq_refl)
      as [m [dropped [_ [_ [_ H]]]]].
    exact H.
Defined.

End HistoryClaims.

(* ================================================================== *)
(** * Further properties of the code *)
(* ================================================================== *)

(* ================================================================== *)
(** ** Keywords and the fallback of the ranker *)
(* ================================================================== *)

Section KeywordFacts.

Import DocumentUtils.
Local Open Scope Z_scope.

(** The pieces of a split are made of code units of the text. *)
Lemma split_go_pieces (P : char -> Prop) (m : matcher) (s cur : jsstring)
  (k : nat) :
  Forall P s -> Forall P cur -> Forall (Forall P) (split_go m s cur k).
Proof.
  revert cur k.
  induction s as [|c s IH]; intros cur k Hs Hcur; simpl.
  - constructor; [assumption|constructor].
  - inversion Hs as [|? ? Hc Hs']; subst.
    destruct k as [|k]; [|now apply IH].
    destruct (m (c :: s)) as [[|n]|].
    + apply IH; [assumption|]. apply Forall_app. split; [assumption|].
      constructor; [assumption|constructor].
    + constructor; [assumption|]. apply IH; [assumption|constructor].
    + apply IH; [assumption|]. apply Forall_app. split; [assumption|].
      constructor; [assumption|constructor].
Qed.

Lemma strip_punctuation_clean (s : jsstring) :
  Forall (fun c => is_punctuation c = false) (strip_punctuation s).
Proof.
  apply Forall_forall. intros c Hc. unfold strip_punctuation in Hc.
  apply filter_In in Hc. destruct Hc as [_ Hc].
  now apply negb_true_iff in Hc.
Qed.

(** X1. Every keyword is longer than three code units, is no stopword,
    and holds neither a punctuation mark of the stripped class nor white
    space. *)
Theorem extractKeywords_filter (toLowerCase : jsstring -> jsstring)
  (text : jsstring) :
  Forall
    (fun word =>
       3 < strlen word /\
       array_includes stopwords word = false /\
       Forall (fun c => is_punctuation c = false) word /\
       solid word)
    (extractKeywords toLowerCase text).
Proof.
  apply Forall_forall. intros word Hw. unfold extractKeywords in Hw.
  apply filter_In in Hw. destruct Hw as [Hin Hf].
  apply andb_true_iff in Hf. destruct Hf as [Hlen Hstop].
  apply Z.gtb_lt in Hlen. apply negb_true_iff in Hstop.
  repeat split; try assumption.
  - pose proof (@split_go_pieces (fun c => is_punctuation c = false)
                  re_spaces (strip_punctuation (toLowerCase text)) [] 0
                  (strip_punctuation_clean _) (Forall_nil _)) as H.
    rewrite Forall_forall in H. now apply H.
  - pose proof (@split_go_spaces_solid
                  (strip_punctuation (toLowerCase text)) [] 0
                  (Forall_nil _)) as H.
    rewrite Forall_forall in H. now apply H.
Qed.

Lemma findRelevantChunks_unranked (toLowerCase : jsstring -> jsstring)
  (doc : ProcessedDocument) (query : jsstring) (maxChunks : nat) :
  extractKeywords toLowerCase query = [] ->
  findRelevantChunks toLowerCase (Some doc) query (Z.of_nat maxChunks)
  = firstn maxChunks (chunks doc).
Proof.
  intros Hk. unfold findRelevantChunks. rewrite Hk.
  destruct (chunks doc) as [|c cs].
  - now rewrite firstn_nil.
  - replace (arraylen (c :: cs) =? 0) with false by reflexivity.
    replace (arraylen (@nil jsstring) =? 0) with true by reflexivity.
    apply slice_prefix.
Qed.

(** X2. A query without keywords is answered with the first [maxChunks]
    chunks of the document, in the order of the document. *)
Theorem findRelevantChunks_fallback (toLowerCase : jsstring -> jsstring)
  (doc : ProcessedDocument) (query : jsstring) (maxChunks : nat) :
  extractKeywords toLowerCase query = [] ->
  findRelevantChunks toLowerCase (Some doc) query (Z.of_nat maxChunks)
  = firstn maxChunks (chunks doc).
Proof. apply findRelevantChunks_unranked. Qed.

Lemma findRelevantChunks_fallback_witness :
  extractKeywords ascii_toLowerCase (str "a an the") = [] /\
  findRelevantChunks ascii_toLowerCase
    (Some (Samples.sampleDocument
             [str "one"; str "two"; str "three"; str "four"]))
    (str "a an the") 3
  = [str "one"; str "two"; str "three"].
Proof.
  split; [reflexivity|].
  apply (@findRelevantChunks_fallback ascii_toLowerCase
           (Samples.sampleDocument
              [str "one"; str "two"; str "three"; str "four"])
           (str "a an the") 3).
  reflexivity.
Defined.

Lemma map_indexed_chunk (keywords chunks : list jsstring)
  (toLowerCase : jsstring -> jsstring) (i : Z) :
  List.map chunk
    (map_indexed
       (fun chunk index =>
          {| chunk := chunk;
             score := chunkScore toLowerCase keywords chunk;
             index := index |})
       chunks i)
  = chunks.
Proof.
  revert i. induction chunks as [|c cs IH]; intros i; simpl;
    [reflexivity|].
  now rewrite IH.
Qed.

(** X3. What the ranker returns is taken from the chunks of the document,
    none more often than it is there: together with some rest it is a
    rearrangement of the chunks. It has at most [maxChunks] entries, and
    all chunks come back when [maxChunks] is not below their number.
    Without a document the result is empty. *)
Theorem findRelevantChunks_selection (toLowerCase : jsstring -> jsstring)
  (doc : ProcessedDocument) (query : jsstring) (maxChunks : nat) :
  let found :=
    findRelevantChunks toLowerCase (Some doc) query (Z.of_nat maxChunks) in
  (exists rest, Permutation (found ++ rest) (chunks doc)) /\
  List.length found = Nat.min maxChunks (List.length (chunks doc)) /\
  findRelevantChunks toLowerCase None query (Z.of_nat maxChunks) = [].
Proof.
  intros found.
  assert (H : exists l, Permutation l (chunks doc) /\
                        found = firstn maxChunks l).
  { destruct (extractKeywords toLowerCase query) as [|k ks] eqn:Ek.
    - exists (chunks doc). split; [reflexivity|].
      now apply findRelevantChunks_unranked.
    - exists (List.map chunk
                (sort compareScored
                   (scoredChunks toLowerCase
                      (extractKeywords toLowerCase query) (chunks doc)))).
      split.
      + rewrite <- (map_indexed_chunk
                      (extractKeywords toLowerCase query) (chunks doc)
                      toLowerCase 0) at 2.
        apply Permutation_map, sort_perm.
      + apply findRelevantChunks_ranked. rewrite Ek. discriminate. }
  destruct H as [l [Hp ->]].
  split; [|split].
  - exists (skipn maxChunks l). now rewrite firstn_skipn.
  - rewrite length_firstn, (Permutation_length Hp). reflexivity.
  - reflexivity.
Qed.

End KeywordFacts.

(* ================================================================== *)
(** ** Rebinding the document, and the shape of the history *)
(* ================================================================== *)

Section HistoryShape.

Lemma turns_length (run : list (jsstring * jsstring)) :
  List.length (flat_map turn run) = (2 * List.length run)%nat.
Proof.
  induction run as [|p run IH]; [reflexivity|].
  cbn [flat_map]. rewrite length_app, IH. simpl. lia.
Qed.

Lemma turns_skipn (k : nat) (run : list (jsstring * jsstring)) :
  skipn (2 * k) (flat_map turn run) = flat_map turn (skipn k run).
Proof.
  revert run. induction k as [|k IH]; intros run; [reflexivity|].
  destruct run as [|p run]; [reflexivity|].
  replace (2 * S k)%nat with (S (S (2 * k))) by lia.
  cbn [flat_map skipn turn app]. apply IH.
Qed.

Variable Service : Type.
Variable history : Service -> list ChatMessage.
Variable completes : Service -> jsstring -> jsstring -> Service -> Prop.

Hypothesis completes_records :
  forall s q r s',
    completes s q r s' -> history s' = recordExchange (history s) q r.

(** From an empty history, a run of completed exchanges leaves its last
    five, and the next request is given the last three. *)
Lemma exchanges_from_empty (s s' : Service)
  (run : list (jsstring * jsstring)) :
  history s = [] ->
  exchanges completes s run s' ->
  history s' = flat_map turn (skipn (List.length run - 5) run) /\
  recentHistory (history s')
  = flat_map turn (skipn (List.length run - 3) run).
Proof.
  intros Hempty Hrun.
  destruct (exchanges_suffix history completes_records Hrun)
    as [dropped [Happ [Hlow Hup]]].
  rewrite Hempty in Happ, Hlow. cbn [app List.length] in Happ, Hlow.
  assert (Hsum : (List.length dropped + List.length (history s')
                  = 2 * List.length run)%nat).
  { rewrite <- length_app, <- Happ. apply turns_length. }
  assert (Hh : history s'
               = flat_map turn (skipn (List.length run - 5) run)).
  { symmetry.
    apply (@app_same_length_suffix _
             (flat_map turn (firstn (List.length run - 5) run)) _ dropped).
    - rewrite <- Happ, <- flat_map_app, firstn_skipn. reflexivity.
    - rewrite turns_length, length_skipn.
      destruct run as [|p run].
      + simpl in *. lia.
      + specialize (Hup ltac:(discriminate)). simpl List.length in *. lia. }
  split; [exact Hh|].
  rewrite recentHistory_suffix, Hh, turns_length, length_skipn.
  replace (2 * (List.length run - (List.length run - 5)) - 6)%nat
    with (2 * (List.length run - (List.length run - 5) - 3))%nat by lia.
  rewrite turns_skipn, skipn_skipn. f_equal. f_equal. lia.
Qed.

End HistoryShape.

Section Rebinding.

Import Samples.

(** X4. [setDocument] empties the history, whatever it held and whatever
    document was bound: the next request holds the system message and the
    new user message only, and when the call returns the history is the
    one new pair. *)
Theorem setDocument_clears_history :
  (forall toLowerCase parseDelta fetch this doc messages lastMessage,
      last_message messages = Some lastMessage ->
      let call :=
        OpenAIService.generateResponse toLowerCase parseDelta fetch
          (OpenAIService.setDocument this doc) messages in
      List.map (fun r => List.map role (OpenAIService.req_messages r))
        (requests call) = [[system; user]] /\
      (forall text,
          returned call = inr text ->
          OpenAIService.chatHistory (after call)
          = turn (content lastMessage, text))) /\
  (forall toLowerCase create this doc messages lastMessage,
      WebLLMService.notLoaded this = false ->
      last_message messages = Some lastMessage ->
      let call :=
        WebLLMService.generateResponse toLowerCase create
          (WebLLMService.setDocument this doc) messages in
      List.map (fun r => List.map role (WebLLMService.req_messages r))
        (requests call) = [[system; user]] /\
      (forall text,
          returned call = inr text ->
          WebLLMService.chatHistory (after call)
          = turn (content lastMessage, text))).
Proof.
  split.
  - intros toLowerCase parseDelta fetch this doc messages m Hm call.
    split.
    + rewrite <- map_map. unfold call.
      rewrite (OpenAIFacts.openai_generate_request toLowerCase parseDelta
                 fetch (OpenAIService.setDocument this doc) messages
                 eq_refl Hm).
      reflexivity.
    + intros text H. apply OpenAIFacts.openai_generate_returns in H.
      destruct H as [m' [Hm' [Hafter _]]].
      rewrite Hm in Hm'. injection Hm' as <-.
      fold call in Hafter. rewrite Hafter. reflexivity.
  - intros toLowerCase create this doc messages m Hl Hm call.
    split.
    + rewrite <- map_map. unfold call.
      rewrite (WebLLMFacts.webllm_generate_request toLowerCase create
                 (WebLLMService.setDocument this doc) messages
                 Hl eq_refl Hm).
      reflexivity.
    + intros text H. apply WebLLMFacts.webllm_generate_returns in H.
      destruct H as [m' [Hm' [Hafter _]]].
      rewrite Hm in Hm'. injection Hm' as <-.
      fold call in Hafter. rewrite Hafter. reflexivity.
Qed.

Lemma setDocument_clears_history_witness :
  (let call :=
     OpenAIService.generateResponse ascii_toLowerCase readDelta
       (answering "a7") (OpenAIService.setDocument (remote lastFive) notes)
       (ask "q7") in
   List.map (fun r => List.map role (OpenAIService.req_messages r))
     (requests call) = [[system; user]] /\
   OpenAIService.chatHistory (after call) = turn (str "q7", str "a7")) /\
  (let call :=
     WebLLMService.generateResponse ascii_toLowerCase (generating "a7")
       (WebLLMService.setDocument (loaded lastFive) notes) (ask "q7") in
   List.map (fun r => List.map role (WebLLMService.req_messages r))
     (requests call) = [[system; user]] /\
   WebLLMService.chatHistory (after call) = turn (str "q7", str "a7")).
Proof.
  pose proof setDocument_clears_history as [Hremote Hlocal].
  split.
  - destruct (Hremote ascii_toLowerCase readDelta (answering "a7")
                (remote lastFive) notes (ask "q7")
                {| role := user; content := str "q7" |} eq_refl)
      as [Hreq Hhist].
    split; [exact Hreq|]. apply (Hhist (str "a7")). reflexivity.
  - destruct (Hlocal ascii_toLowerCase (generating "a7")
                (loaded lastFive) notes (ask "q7")
                {| role := user; content := str "q7" |} eq_refl eq_refl)
      as [Hreq Hhist].
    split; [exact Hreq|]. apply (Hhist (str "a7")). reflexivity.
Defined.

(** X5. After [setDocument], however many exchanges complete, the history
    is the last five of them (fewer when fewer were made), each a question
    followed by its answer; and what the next request is given is the last
    three of them, whole pairs. *)
Theorem history_holds_whole_pairs :
  (forall toLowerCase parseDelta this doc run this',
      remoteRun toLowerCase parseDelta
        (OpenAIService.setDocument this doc) run this' ->
      OpenAIService.chatHistory this'
      = flat_map turn (skipn (List.length run - 5) run) /\
      recentHistory (OpenAIService.chatHistory this')
      = flat_map turn (skipn (List.length run - 3) run)) /\
  (forall toLowerCase this doc run this',
      localRun toLowerCase (WebLLMService.setDocument this doc) run this' ->
      WebLLMService.chatHistory this'
      = flat_map turn (skipn (List.length run - 5) run) /\
      recentHistory (WebLLMService.chatHistory this')
      = flat_map turn (skipn (List.length run - 3) run)).
Proof.
  split.
  - intros toLowerCase parseDelta this doc run this' H.
    apply (exchanges_from_empty OpenAIService.chatHistory
             (@OpenAIFacts.openai_completes_records toLowerCase parseDelta)
             (s := OpenAIService.setDocument this doc) eq_refl H).
  - intros toLowerCase this doc run this' H.
    apply (exchanges_from_empty WebLLMService.chatHistory
             (@WebLLMFacts.webllm_completes_records toLowerCase)
             (s := WebLLMService.setDocument this doc) eq_refl H).
Qed.

End Rebinding.

(* ================================================================== *)
(** ** Summaries and topics *)
(* ================================================================== *)

Section SummaryFacts.

Import Summary.
Local Open Scope Z_scope.



End SummaryFacts.

Section TrimFacts.

Lemma trimStart_split (s : jsstring) :
  exists ws, s = ws ++ trimStart s /\ Forall (fun c => is_space c = true) ws.
Proof.
  induction s as [|c s [ws [E Hws]]]; simpl.
  - exists []. split; [reflexivity|constructor].
  - destruct (is_space c) eqn:Hc.
    + exists (c :: ws). split; [simpl; now rewrite <- E|].
      now constructor.
    + exists []. split; [reflexivity|constructor].
Qed.

(** Where [trimStart] stops there is no white space. *)
Lemma trimStart_head (s : jsstring) (c : char) (rest : jsstring) :
  trimStart s = c :: rest -> is_space c = false.
Proof.
  induction s as [|x s IH]; simpl; [discriminate|].
  destruct (is_space x) eqn:Hx; [exact IH|].
  intros [= <- _]. exact Hx.
Qed.

Lemma trimStart_fixed (c : char) (rest : jsstring) :
  is_space c = false -> trimStart (c :: rest) = c :: rest.
Proof. intros H. simpl. now rewrite H. Qed.

Lemma trimStart_idempotent (s : jsstring) :
  trimStart (trimStart s) = trimStart s.
Proof.
  destruct (trimStart s) as [|c rest] eqn:E; [reflexivity|].
  apply trimStart_fixed. now apply trimStart_head in E.
Qed.

(** A trimmed text neither starts nor ends with white space: trimming it
    again at either end changes nothing. *)
Lemma trim_trimmed (s : jsstring) :
  trimStart (trim s) = trim s /\ trimEnd (trim s) = trim s.
Proof.
  unfold trim. split.
  - unfold trimEnd.
    destruct (trimStart_split (rev (trimStart s))) as [ws [E _]].
    apply (f_equal (@rev char)) in E.
    rewrite rev_involutive, rev_app_distr in E.
    destruct (rev (trimStart (rev (trimStart s)))) as [|c rest] eqn:Er;
      [reflexivity|].
    apply trimStart_fixed.
    simpl in E. now apply trimStart_head in E.
  - unfold trimEnd. now rewrite rev_involutive, trimStart_idempotent.
Qed.

Lemma trim_idempotent (s : jsstring) : trim (trim s) = trim s.
Proof.
  destruct (trim_trimmed s) as [Hs He].
  unfold trim at 1. now rewrite Hs, He.
Qed.

End TrimFacts.

Section TopicFacts.

Import Samples.

Lemma parseTopics_entries (topicsText : jsstring) :
  Forall (fun topic => topic <> [] /\ trim topic = topic)
    (parseTopics topicsText).
Proof.
  apply Forall_forall. intros topic H. unfold parseTopics in H.
  apply filter_In in H. destruct H as [Hin Ht].
  rewrite topic_callback_truthy in Ht.
  split; [now apply truthy_true|].
  apply in_map_iff in Hin. destruct Hin as [line [<- _]].
  apply trim_idempotent.
Qed.

(** X6. The topics either service returns are never empty and never start
    or end with white space: the empty lines of the answer are dropped and
    the others trimmed. *)
Theorem extractKeyTopics_entries :
  (forall fetch this topics,
      returned (OpenAIService.extractKeyTopics fetch this) = inr topics ->
      Forall (fun topic => topic <> [] /\ trim topic = topic) topics) /\
  (forall create this topics,
      returned (WebLLMService.extractKeyTopics create this) = inr topics ->
      Forall (fun topic => topic <> [] /\ trim topic = topic) topics).
Proof.
  split.
  - intros fetch this topics. unfold OpenAIService.extractKeyTopics.
    destruct (OpenAIService.document this); [|discriminate].
    match goal with
    | |- context [fetch ?r] => destruct (fetch r) as [?|resp]
    end; [discriminate|].
    destruct (OpenAIService.ok resp); simpl; [|discriminate].
    destruct (OpenAIService.json resp) as [?|data]; [discriminate|].
    destruct (OpenAIService.json_choices data); [|discriminate].
    intros [= <-]. apply parseTopics_entries.
  - intros create this topics. unfold WebLLMService.extractKeyTopics.
    destruct (WebLLMService.notLoaded this); [discriminate|].
    destruct (WebLLMService.document this); [|discriminate].
    match goal with
    | |- context [create ?r] => destruct (create r) as [?|?|?]
    end; try discriminate.
    intros [= <-]. apply parseTopics_entries.
Qed.

Lemma extractKeyTopics_entries_witness :
  let answer :=
    str "  Solar power " ++ [nl; nl] ++ str "- Wind farms" ++ [nl; sp] in
  returned (OpenAIService.extractKeyTopics (completion answer) (remote []))
  = inr [str "Solar power"; str "- Wind farms"] /\
  Forall (fun topic => topic <> [] /\ trim topic = topic)
    [str "Solar power"; str "- Wind farms"] /\
  Forall (fun topic => topic <> [] /\ trim topic = topic)
    (parseTopics answer).
Proof.
  intros answer. split; [reflexivity|]. split.
  - apply (proj1 extractKeyTopics_entries (completion answer) (remote [])).
    reflexivity.
  - apply (proj2 extractKeyTopics_entries
             (fun _ => WebLLMService.CreateCompletion (Some answer))
             (loaded [])).
    reflexivity.
Defined.

End TopicFacts.

Section SummaryClaims.

Import Samples Summary.
Local Open Scope Z_scope.

Lemma history_holds_whole_pairs_witness :
  (OpenAIService.chatHistory (remote lastFive)
   = flat_map turn (skipn (List.length sixExchanges - 5) sixExchanges) /\
   recentHistory (OpenAIService.chatHistory (remote lastFive))
   = flat_map turn (skipn (List.length sixExchanges - 3) sixExchanges)) /\
  (WebLLMService.chatHistory (loaded lastFive)
   = flat_map turn (skipn (List.length sixExchanges - 5) sixExchanges) /\
   recentHistory (WebLLMService.chatHistory (loaded lastFive))
   = flat_map turn (skipn (List.length sixExchanges - 3) sixExchanges)).
Proof.
  split.
  - apply (proj1 history_holds_whole_pairs ascii_toLowerCase readDelta
             (remote lastFive) notes sixExchanges (remote lastFive)).
    exact remote_six.
  - apply (proj2 history_holds_whole_pairs ascii_toLowerCase
             (loaded lastFive) notes sixExchanges (loaded lastFive)).
    exact local_six.
Defined.


Ltac each_branch :=
  repeat match goal with
         | |- context [match ?x with _ => _ end] => destruct x
         end;
  cbn [after returned requests updates List.length
       OpenAIService.throws WebLLMService.throws localThrows];
  repeat split; try lia; try reflexivity.

(** X8. No method of either service sends more than one request in a
    call: nothing is tried again. [summarizeDocument] and
    [extractKeyTopics] leave the service as it was, history included, and
    never call [onUpdate]. *)
Theorem methods_send_one_request :
  (forall toLowerCase parseDelta fetch this messages,
      (List.length
         (requests (OpenAIService.generateResponse toLowerCase parseDelta
                      fetch this messages)) <= 1)%nat) /\
  (forall toLowerCase create this messages,
      (List.length
         (requests (WebLLMService.generateResponse toLowerCase create
                      this messages)) <= 1)%nat) /\
  (forall fetch this,
      let call := OpenAIService.extractKeyTopics fetch this in
      (List.length (requests call) <= 1)%nat /\
      after call = this /\ updates call = []) /\
  (forall create this,
      let call := WebLLMService.extractKeyTopics create this in
      (List.length (requests call) <= 1)%nat /\
      after call = this /\ updates call = []) /\
  (forall fetch this,
      let call := remoteSummarize fetch this in
      (List.length (requests call) <= 1)%nat /\
      after call = this /\ updates call = []) /\
  (forall create this,
      let call := localSummarize create this in
      (List.length (requests call) <= 1)%nat /\
      after call = this /\ updates call = []).
Proof.
  split; [|split; [|split; [|split; [|split]]]].
  - intros. unfold OpenAIService.generateResponse. each_branch.
  - intros. unfold WebLLMService.generateResponse. each_branch.
  - intros. unfold call, OpenAIService.extractKeyTopics. each_branch.
  - intros. unfold call, WebLLMService.extractKeyTopics. each_branch.
  - intros. unfold call, remoteSummarize. each_branch.
  - intros. unfold call, localSummarize. each_branch.
Qed.

End SummaryClaims.

(* ================================================================== *)
(** ** Preconditions, stream decoding and failures *)
(* ================================================================== *)

Section StreamFacts.

Import Samples Summary.

(** X9. Without a document [summarizeDocument] and [extractKeyTopics]
    throw before any request. The remote service throws "document not
    set". The local service, and its [generateResponse] too, looks at the
    model first: without a loaded model it throws "model not loaded",
    bound document or not. *)
Theorem methods_check_before_calling :
  (forall fetch this,
      OpenAIService.document this = None ->
      returned (remoteSummarize fetch this)
      = inl OpenAIService.DocumentNotSet /\
      requests (remoteSummarize fetch this) = [] /\
      returned (OpenAIService.extractKeyTopics fetch this)
      = inl OpenAIService.DocumentNotSet /\
      requests (OpenAIService.extractKeyTopics fetch this) = []) /\
  (forall toLowerCase create this messages,
      WebLLMService.notLoaded this = true \/
      WebLLMService.document this = None ->
      returned (localSummarize create this)
      = inl (if WebLLMService.notLoaded this
             then SummaryModelNotLoaded else SummaryDocumentNotSet) /\
      requests (localSummarize create this) = [] /\
      returned (WebLLMService.extractKeyTopics create this)
      = inl (if WebLLMService.notLoaded this
             then WebLLMService.ModelNotLoaded
             else WebLLMService.DocumentNotSet) /\
      requests (WebLLMService.extractKeyTopics create this) = [] /\
      returned (WebLLMService.generateResponse toLowerCase create
                  this messages)
      = inl (if WebLLMService.notLoaded this
             then WebLLMService.ModelNotLoaded
             else WebLLMService.DocumentNotSet) /\
      requests (WebLLMService.generateResponse toLowerCase create
                  this messages) = []).
Proof.
  split.
  - intros fetch this H.
    unfold remoteSummarize, OpenAIService.extractKeyTopics.
    rewrite H. repeat split.
  - intros toLowerCase create this messages H.
    unfold localSummarize, WebLLMService.extractKeyTopics,
      WebLLMService.generateResponse.
    destruct (WebLLMService.notLoaded this); [repeat split|].
    destruct H as [H|H]; [discriminate|].
    rewrite H. repeat split.
Qed.

Lemma methods_check_before_calling_witness :
  (returned (remoteSummarize (answering "a") remoteFresh)
   = inl OpenAIService.DocumentNotSet /\
   requests (OpenAIService.extractKeyTopics (answering "a") remoteFresh)
   = []) /\
  (returned (localSummarize (generating "a")
               (WebLLMService.setDocument localFresh notes))
   = inl SummaryModelNotLoaded /\
   requests (WebLLMService.generateResponse ascii_toLowerCase
               (generating "a")
               (WebLLMService.setDocument localFresh notes) (ask "q"))
   = []) /\
  returned (WebLLMService.extractKeyTopics (generating "a")
              localLoadedUnbound)
  = inl WebLLMService.DocumentNotSet.
Proof.
  pose proof methods_check_before_calling as [Hremote Hlocal].
  split; [|split].
  - destruct (Hremote (answering "a") remoteFresh eq_refl)
      as [H1 [_ [_ H4]]].
    split; assumption.
  - destruct (Hlocal ascii_toLowerCase (generating "a")
                (WebLLMService.setDocument localFresh notes) (ask "q")
                (or_introl eq_refl))
      as [H1 [_ [_ [_ [_ H6]]]]].
    split; assumption.
  - destruct (Hlocal ascii_toLowerCase (generating "a")
                localLoadedUnbound (ask "q") (or_intror eq_refl))
      as [_ [_ [H3 _]]].
    exact H3.
Defined.

End StreamFacts.

Section StreamDecoding.

Import Samples OpenAIService.

Variable toLowerCase : jsstring -> jsstring.
Variable parseDelta : jsstring -> option jsstring.

Lemma handleLine_unusable (st : stream_state) (line : jsstring) :
  unusable parseDelta line -> handleLine parseDelta st line = st.
Proof.
  destruct st as [full calls]. unfold handleLine.
  intros [H|[H|H]]; rewrite H; try reflexivity.
  - destruct (startsWith line (str "data: ")); reflexivity.
  - destruct (startsWith line (str "data: ")); reflexivity.
Qed.

Lemma handleLines_unusable (ls : list jsstring) (st : stream_state) :
  Forall (unusable parseDelta) ls ->
  fold_left (handleLine parseDelta) ls st = st.
Proof.
  induction 1 as [|l ls Hl _ IH]; simpl; [reflexivity|].
  now rewrite handleLine_unusable.
Qed.

Lemma readLoop_skips (pre post : list ReadResult) (text : jsstring)
  (st : stream_state) :
  Forall (unusable parseDelta) (streamLines text) ->
  readLoop parseDelta (pre ++ ReadValue text :: post) st
  = readLoop parseDelta (pre ++ post) st.
Proof.
  intros H. revert st.
  induction pre as [|[t|e] pre IH]; intros st; simpl.
  - now rewrite handleLines_unusable.
  - apply IH.
  - reflexivity.
Qed.

Lemma readLoop_stops (pre post : list ReadResult) (e : jsstring)
  (st : stream_state) :
  Forall isValue pre ->
  readLoop parseDelta (pre ++ ReadRejects e :: post) st
  = (Some e, snd (readLoop parseDelta pre st)) /\
  fst (readLoop parseDelta pre st) = None.
Proof.
  intros H. revert st.
  induction H as [|[t|x] pre Hr _ IH]; intros st; simpl.
  - now destruct st.
  - apply IH.
  - contradiction.
Qed.

Lemma handleLine_fragments (st : stream_state) (line : jsstring) :
  Forall (fun fragment => fragment <> []) (snd st) ->
  Forall (fun fragment => fragment <> [])
    (snd (handleLine parseDelta st line)).
Proof.
  destruct st as [full calls]. unfold handleLine. cbn [snd]. intros H.
  destruct (startsWith line (str "data: ")); [|assumption].
  destruct (parseDelta (skipn 6 line)) as [content|]; [|assumption].
  destruct (truthy content) eqn:E; [|assumption].
  cbn [snd]. apply Forall_app. split; [assumption|].
  constructor; [now apply truthy_true|constructor].
Qed.

Lemma readLoop_fragments (reads : list ReadResult) (st : stream_state) :
  Forall (fun fragment => fragment <> []) (snd st) ->
  Forall (fun fragment => fragment <> [])
    (snd (snd (readLoop parseDelta reads st))).
Proof.
  revert st. induction reads as [|[text|e] reads IH]; intros st H; simpl;
    try assumption.
  apply IH. generalize (streamLines text). intros ls. revert st H.
  induction ls as [|l ls IHl]; intros st H; simpl; [assumption|].
  apply IHl. now apply handleLine_fragments.
Qed.

End StreamDecoding.

Section StreamClaims.

Import Samples.

(** X10. A read of the remote stream whose lines are all unusable (not a
    [data: ] line, a payload that does not parse, or one without content)
    changes nothing: the call does what it does without that read, with
    the same fragments, the same result and the same history. *)
Theorem unusable_reads_are_skipped
  (toLowerCase : jsstring -> jsstring)
  (parseDelta : jsstring -> option jsstring)
  (this : OpenAIService.OpenAIService) (messages : list ChatMessage)
  (json : OpenAIService.JsonResult)
  (pre post : list OpenAIService.ReadResult) (text : jsstring) :
  Forall (unusable parseDelta) (OpenAIService.streamLines text) ->
  OpenAIService.generateResponse toLowerCase parseDelta
    (streamOf json (pre ++ OpenAIService.ReadValue text :: post))
    this messages
  = OpenAIService.generateResponse toLowerCase parseDelta
      (streamOf json (pre ++ post)) this messages.
Proof.
  intros H. unfold OpenAIService.generateResponse, streamOf.
  destruct (OpenAIService.document this); [|reflexivity].
  destruct (last_message messages); [|reflexivity].
  cbn [OpenAIService.ok OpenAIService.body negb].
  now rewrite (@readLoop_skips parseDelta pre post text ([], []) H).
Qed.

Lemma unusable_reads_are_skipped_witness :
  let noise :=
    str ": keep-alive" ++ [nl] ++ str "data: {broken" ++ [nl]
      ++ str "data: [DONE]" ++ [nl] in
  Forall (unusable readDelta) (OpenAIService.streamLines noise) /\
  OpenAIService.generateResponse ascii_toLowerCase readDelta
    (streamOf (OpenAIService.JsonRejects [])
       ([OpenAIService.ReadValue (event (jsonDelta (str "Hel")))]
          ++ OpenAIService.ReadValue noise
          :: [OpenAIService.ReadValue (event (jsonDelta (str "lo")))]))
    (remote []) (ask "q1")
  = OpenAIService.generateResponse ascii_toLowerCase readDelta
      (streamOf (OpenAIService.JsonRejects [])
         ([OpenAIService.ReadValue (event (jsonDelta (str "Hel")))]
            ++ [OpenAIService.ReadValue (event (jsonDelta (str "lo")))]))
      (remote []) (ask "q1").
Proof.
  intros noise.
  assert (H : Forall (unusable readDelta)
                (OpenAIService.streamLines noise)).
  { repeat constructor; unfold unusable; (now left) || (right; now left). }
  split; [exact H|].
  apply (@unusable_reads_are_skipped ascii_toLowerCase readDelta
           (remote []) (ask "q1") (OpenAIService.JsonRejects [])
           [OpenAIService.ReadValue (event (jsonDelta (str "Hel")))]
           [OpenAIService.ReadValue (event (jsonDelta (str "lo")))]
           noise H).
Defined.

(** X11. The remote service never calls [onUpdate] with an empty
    fragment. The local service calls it once for every chunk of the
    stream, with the empty string for a chunk without content. *)
Theorem onUpdate_fragments :
  (forall toLowerCase parseDelta fetch this messages,
      Forall (fun fragment => fragment <> [])
        (updates (OpenAIService.generateResponse toLowerCase parseDelta
                    fetch this messages))) /\
  (forall toLowerCase this messages doc lastMessage contents,
      WebLLMService.notLoaded this = false ->
      WebLLMService.document this = Some doc ->
      last_message messages = Some lastMessage ->
      updates
        (WebLLMService.generateResponse toLowerCase
           (fun _ =>
              WebLLMService.CreateStream
                (List.map WebLLMService.Chunk contents))
           this messages)
      = List.map or_empty contents).
Proof.
  split.
  - intros toLowerCase parseDelta fetch this messages.
    unfold OpenAIService.generateResponse.
    destruct (OpenAIService.document this); [|constructor].
    destruct (last_message messages); [|constructor].
    match goal with
    | |- context [fetch ?r] => destruct (fetch r) as [?|resp]
    end; [constructor|].
    destruct (OpenAIService.ok resp); [|constructor].
    cbn [negb]. destruct (OpenAIService.body resp) as [reads|];
      [|constructor].
    pose proof (@readLoop_fragments parseDelta reads ([], [])
                  (Forall_nil _)) as H.
    destruct (OpenAIService.readLoop parseDelta reads ([], []))
      as [[?|] [full calls]]; exact H.
  - intros toLowerCase this messages doc m contents Hl Hd Hm.
    unfold WebLLMService.generateResponse. rewrite Hl, Hd, Hm.
    rewrite WebLLMFacts.streamLoop_updates.
    + cbn [fst snd app updates]. rewrite map_map. reflexivity.
    + apply Forall_forall. intros step Hs. apply in_map_iff in Hs.
      destruct Hs as [c [<- _]]. now exists c.
Qed.

Lemma onUpdate_fragments_witness :
  updates
    (WebLLMService.generateResponse ascii_toLowerCase
       (fun _ =>
          WebLLMService.CreateStream
            (List.map WebLLMService.Chunk
               [Some (str "Hi"); None; Some []; Some (str "!")]))
       (loaded []) (ask "q1"))
  = [str "Hi"; []; []; str "!"].
Proof.
  apply (proj2 onUpdate_fragments ascii_toLowerCase (loaded []) (ask "q1")
           notes {| role := user; content := str "q1" |}
           [Some (str "Hi"); None; Some []; Some (str "!")]);
    reflexivity.
Defined.

(** X12. How failures come out. The remote service throws what went
    wrong: the rejection of [fetch] as it is, and for a response that is
    not ok the message of its body. The local service, once its checks
    have passed, throws one generic error whatever went wrong. *)
Theorem failures_surface :
  (forall toLowerCase parseDelta this messages doc lastMessage e,
      OpenAIService.document this = Some doc ->
      last_message messages = Some lastMessage ->
      returned (OpenAIService.generateResponse toLowerCase parseDelta
                  (fun _ => OpenAIService.FetchRejects e) this messages)
      = inl (OpenAIService.Rejected e)) /\
  (forall toLowerCase parseDelta this messages doc lastMessage c message
          choices reads,
      OpenAIService.document this = Some doc ->
      last_message messages = Some lastMessage ->
      returned
        (OpenAIService.generateResponse toLowerCase parseDelta
           (fun _ =>
              OpenAIService.FetchResolves
                {| OpenAIService.ok := false;
                   OpenAIService.json :=
                     OpenAIService.JsonResolves
                       {| OpenAIService.json_error_message :=
                            Some (c :: message);
                          OpenAIService.json_choices := choices |};
                   OpenAIService.body := reads |})
           this messages)
      = inl (OpenAIService.ApiError (c :: message))) /\
  (forall toLowerCase create this messages doc,
      WebLLMService.notLoaded this = false ->
      WebLLMService.document this = Some doc ->
      (exists text,
          returned (WebLLMService.generateResponse toLowerCase create
                      this messages) = inr text) \/
      returned (WebLLMService.generateResponse toLowerCase create
                  this messages)
      = inl WebLLMService.GenerationFailed).
Proof.
  split; [|split].
  - intros toLowerCase parseDelta this messages doc m e Hd Hm.
    unfold OpenAIService.generateResponse. now rewrite Hd, Hm.
  - intros toLowerCase parseDelta this messages doc m c message choices
      reads Hd Hm.
    unfold OpenAIService.generateResponse. now rewrite Hd, Hm.
  - intros toLowerCase create this messages doc Hl Hd.
    unfold WebLLMService.generateResponse. rewrite Hl, Hd.
    destruct (last_message messages); [|now right].
    match goal with
    | |- context [create ?r] => destruct (create r) as [?|steps|?]
    end; try (now right).
    destruct (WebLLMService.streamLoop steps ([], []))
      as [[?|] [full calls]]; [now right|left; now exists full].
Qed.

Lemma failures_surface_witness :
  returned (OpenAIService.generateResponse ascii_toLowerCase readDelta
              (fun _ => OpenAIService.FetchRejects (str "offline"))
              (remote []) (ask "q1"))
  = inl (OpenAIService.Rejected (str "offline")) /\
  returned
    (OpenAIService.generateResponse ascii_toLowerCase readDelta
       (fun _ =>
          OpenAIService.FetchResolves
            {| OpenAIService.ok := false;
               OpenAIService.json :=
                 OpenAIService.JsonResolves
                   {| OpenAIService.json_error_message :=
                        Some (str "Incorrect API key");
                      OpenAIService.json_choices := None |};
               OpenAIService.body := None |})
       (remote []) (ask "q1"))
  = inl (OpenAIService.ApiError (str "Incorrect API key")) /\
  returned (WebLLMService.generateResponse ascii_toLowerCase
              (fun _ => WebLLMService.CreateRejects (str "device lost"))
              (loaded []) (ask "q1"))
  = inl WebLLMService.GenerationFailed.
Proof.
  pose proof failures_surface as [Hreject [Hnotok Hlocal]].
  split; [|split].
  - apply (Hreject ascii_toLowerCase readDelta (remote []) (ask "q1")
             notes {| role := user; content := str "q1" |}
             (str "offline")); reflexivity.
  - apply (Hnotok ascii_toLowerCase readDelta (remote []) (ask "q1")
             notes {| role := user; content := str "q1" |}
             73%N (skipn 1 (str "Incorrect API key")) None None);
      reflexivity.
  - destruct (Hlocal ascii_toLowerCase
                (fun _ => WebLLMService.CreateRejects (str "device lost"))
                (loaded []) (ask "q1") notes eq_refl eq_refl)
      as [[text H]|H]; [discriminate H|exact H].
Defined.

(** X13. When a read of the remote stream is rejected after some reads
    that gave values, the call throws that rejection; the fragments of the
    earlier reads have been handed to [onUpdate], exactly as if the stream
    had ended there, and nothing of the later reads is. *)
Theorem partial_output_stays
  (toLowerCase : jsstring -> jsstring)
  (parseDelta : jsstring -> option jsstring)
  (this : OpenAIService.OpenAIService) (messages : list ChatMessage)
  (doc : DocumentUtils.ProcessedDocument) (lastMessage : ChatMessage)
  (json : OpenAIService.JsonResult)
  (pre post : list OpenAIService.ReadResult) (e : jsstring) :
  OpenAIService.document this = Some doc ->
  last_message messages = Some lastMessage ->
  Forall isValue pre ->
  let broken :=
    OpenAIService.generateResponse toLowerCase parseDelta
      (streamOf json (pre ++ OpenAIService.ReadRejects e :: post))
      this messages in
  let ended :=
    OpenAIService.generateResponse toLowerCase parseDelta
      (streamOf json pre) this messages in
  returned broken = inl (OpenAIService.Rejected e) /\
  updates broken = updates ended /\
  returned ended = inr (List.concat (updates ended)).
Proof.
  intros Hd Hm Hpre broken ended.
  unfold broken, ended, OpenAIService.generateResponse, streamOf.
  rewrite Hd, Hm. cbn [OpenAIService.ok OpenAIService.body negb].
  destruct (@readLoop_stops parseDelta pre post e ([], []) Hpre)
    as [Hb He].
  rewrite Hb.
  pose proof (@OpenAIFacts.readLoop_accumulated parseDelta pre ([], [])
                eq_refl) as Hacc.
  destruct (OpenAIService.readLoop parseDelta pre ([], []))
    as [[x|] [full calls]]; [discriminate|].
  cbn [fst snd] in *. subst full. repeat split.
Qed.

Lemma partial_output_stays_witness :
  let broken :=
    OpenAIService.generateResponse ascii_toLowerCase readDelta
      (streamOf (OpenAIService.JsonRejects [])
         ([OpenAIService.ReadValue (event (jsonDelta (str "Hel")))]
            ++ OpenAIService.ReadRejects (str "reset")
            :: [OpenAIService.ReadValue (event (jsonDelta (str "lo")))]))
      (remote []) (ask "q1") in
  returned broken = inl (OpenAIService.Rejected (str "reset")) /\
  updates broken = [str "Hel"].
Proof.
  intros broken.
  assert (Hv : Forall isValue
                 [OpenAIService.ReadValue (event (jsonDelta (str "Hel")))])
    by (repeat constructor).
  destruct (@partial_output_stays ascii_toLowerCase readDelta (remote [])
              (ask "q1") notes {| role := user; content := str "q1" |}
              (OpenAIService.JsonRejects [])
              [OpenAIService.ReadValue (event (jsonDelta (str "Hel")))]
              [OpenAIService.ReadValue (event (jsonDelta (str "lo")))]
              (str "reset") eq_refl eq_refl Hv)
    as [Hr [Hu _]].
  split; [exact Hr|]. unfold broken. rewrite Hu. reflexivity.
Defined.

End StreamClaims.

(* ================================================================== *)
(** ** Loading and disposing of the local model *)
(* ================================================================== *)

Section Lifecycle.

Import Samples WebLLMLifecycle.

Lemma step_after_failure (this : Instance) (e : jsstring) (c : Call) :
  WebLLMService.engine (service this) = None ->
  WebLLMService.isInitialized (service this) = false ->
  initPromise this = Some (Rejected e) ->
  snd (step this c) = false /\
  WebLLMService.engine (service (fst (step this c))) = None /\
  WebLLMService.isInitialized (service (fst (step this c))) = false /\
  initPromise (fst (step this c)) = Some (Rejected e).
Proof.
  intros He Hi Hp. destruct c as [| |doc]; simpl.
  - unfold init. rewrite Hp. simpl. auto.
  - unfold dispose. rewrite He. auto.
  - auto.
Qed.

(** X14. A load that failed is final. Once [init] has been rejected, no
    sequence of [init], [dispose] and [setDocument] starts another load:
    [init] hands back the rejected promise, [dispose] finds no engine and
    resets nothing, and [generateResponse] goes on throwing "model not
    loaded" without a request. *)
Theorem failed_load_is_final (this : Instance) (e : jsstring)
  (calls : list Call) :
  WebLLMService.engine (service this) = None ->
  WebLLMService.isInitialized (service this) = false ->
  initPromise this = Some (Rejected e) ->
  snd (run this calls) = O /\
  initPromise (fst (run this calls)) = Some (Rejected e) /\
  isModelLoaded (fst (run this calls)) = false /\
  forall toLowerCase create messages,
    let call :=
      WebLLMService.generateResponse toLowerCase create
        (service (fst (run this calls))) messages in
    returned call = inl WebLLMService.ModelNotLoaded /\ requests call = [].
Proof.
  revert this.
  induction calls as [|c calls IH]; intros this He Hi Hp.
  - simpl. repeat split; try assumption.
    + unfold WebLLMService.generateResponse, WebLLMService.notLoaded.
      now rewrite Hi.
    + unfold WebLLMService.generateResponse, WebLLMService.notLoaded.
      now rewrite Hi.
  - destruct (@step_after_failure this e c He Hi Hp)
      as [Hs [He' [Hi' Hp']]].
    specialize (IH (fst (step this c)) He' Hi' Hp').
    cbn [run]. destruct (step this c) as [this1 started].
    cbn [fst snd] in *. subst started.
    destruct (run this1 calls) as [this2 n]. exact IH.
Qed.

Lemma failed_load_is_final_witness :
  let failed :=
    fst (settle (fst (fst (init newInstance)))
           (CreationFails (str "out of memory"))) in
  let calls := [CallInit; CallDispose; CallSetDocument notes; CallInit] in
  snd (settle (fst (fst (init newInstance)))
         (CreationFails (str "out of memory")))
  = [str "out of memory"] /\
  snd (run failed calls) = O /\
  initPromise (fst (run failed calls))
  = Some (Rejected (str "out of memory")) /\
  returned
    (WebLLMService.generateResponse ascii_toLowerCase (generating "a")
       (service (fst (run failed calls))) (ask "q"))
  = inl WebLLMService.ModelNotLoaded.
Proof.
  intros failed calls. split; [reflexivity|].
  destruct (@failed_load_is_final failed (str "out of memory") calls
              eq_refl eq_refl eq_refl) as [H1 [H2 [_ H4]]].
  split; [exact H1|]. split; [exact H2|].
  apply (H4 ascii_toLowerCase (generating "a") (ask "q")).
Defined.

(** X15. [dispose] on a loaded service forgets the model and the
    conversation and keeps the document: afterwards the model counts as
    not loaded, the history is empty, the document is the one bound
    before, and [init] starts a load again. Without an engine [dispose]
    changes nothing. *)
Theorem dispose_resets (this : Instance) :
  (forall engine,
      WebLLMService.engine (service this) = Some engine ->
      isModelLoaded (dispose this) = false /\
      WebLLMService.notLoaded (service (dispose this)) = true /\
      WebLLMService.chatHistory (service (dispose this)) = [] /\
      WebLLMService.document (service (dispose this))
      = WebLLMService.document (service this) /\
      snd (fst (init (dispose this))) = true) /\
  (WebLLMService.engine (service this) = None -> dispose this = this).
Proof.
  split.
  - intros engine H. unfold dispose. rewrite H. repeat split.
  - intros H. unfold dispose. now rewrite H.
Qed.

Lemma dispose_resets_witness :
  let ready :=
    setDocument (fst (settle (fst (fst (init newInstance))) EngineCreated))
      notes in
  let talked :=
    {| service :=
         WebLLMService.withHistory (service ready)
           (turn (str "q0", str "a0"));
       initPromise := initPromise ready |} in
  snd (fst (init ready)) = false /\
  WebLLMService.chatHistory (service (dispose talked)) = [] /\
  WebLLMService.document (service (dispose talked)) = Some notes /\
  snd (fst (init (dispose talked))) = true /\
  dispose newInstance = newInstance.
Proof.
  intros ready talked. split; [reflexivity|].
  destruct (proj1 (dispose_resets talked) WebLLMService.mlcEngine eq_refl)
    as [_ [_ [H3 [H4 H5]]]].
  split; [exact H3|]. split; [exact H4|]. split; [exact H5|].
  apply (proj2 (dispose_resets newInstance)). reflexivity.
Defined.

End Lifecycle.

(* ================================================================== *)
(** ** The document store *)
(* ================================================================== *)

Section StoreFacts.

Import DocumentUtils DocumentStorage.
Local Open Scope Z_scope.

Lemma str_eqb_eq (a b : jsstring) : str_eqb a b = true <-> a = b.
Proof.
  revert b. induction a as [|x a IH]; intros [|y b]; simpl;
    try (split; [discriminate|discriminate]); [tauto|].
  unfold char_eqb. rewrite andb_true_iff, N.eqb_eq, IH.
  split; [intros [-> ->]; reflexivity|now intros [= -> ->]].
Qed.

Lemma str_eqb_refl (a : jsstring) : str_eqb a a = true.
Proof. now apply str_eqb_eq. Qed.

Lemma str_eqb_neq (a b : jsstring) : a <> b -> str_eqb a b = false.
Proof.
  intros H. destruct (str_eqb a b) eqn:E; [|reflexivity].
  apply str_eqb_eq in E. contradiction.
Qed.

Lemma find_append {X} (f : X -> bool) (a b : list X) :
  find f (a ++ b)
  = match find f a with
    | Some x => Some x
    | None => find f b
    end.
Proof.
  induction a as [|x a IH]; simpl; [reflexivity|].
  now destruct (f x).
Qed.

Lemma db_get_id (store : list ProcessedDocument) (key : jsstring)
  (doc : ProcessedDocument) :
  db_get store key = Some doc -> In doc store /\ id doc = key.
Proof.
  unfold db_get. intros H. apply find_some in H.
  destruct H as [Hin He]. now apply str_eqb_eq in He.
Qed.

Lemma db_get_none (store : list ProcessedDocument) (key : jsstring) :
  db_get store key = None <-> ~ In key (List.map id store).
Proof.
  unfold db_get. split.
  - intros H Hin. apply in_map_iff in Hin. destruct Hin as [d [<- Hd]].
    pose proof (find_none _ _ H d Hd) as Hn. cbn beta in Hn.
    now rewrite str_eqb_refl in Hn.
  - intros H. destruct (find _ store) as [d|] eqn:E; [|reflexivity].
    apply find_some in E. destruct E as [Hin He].
    apply str_eqb_eq in He. exfalso. apply H. rewrite <- He.
    now apply in_map.
Qed.

(** What [put] stores under the key of the document is the document. *)
Lemma db_get_put_same (store : list ProcessedDocument)
  (doc : ProcessedDocument) :
  db_get (db_put store doc) (id doc) = Some doc.
Proof.
  unfold db_put. destruct (db_get store (id doc)) as [old|] eqn:E.
  - unfold db_get in *. induction store as [|d store IH]; simpl in *;
      [discriminate|].
    destruct (str_eqb (id d) (id doc)) eqn:Ed.
    + now rewrite str_eqb_refl.
    + rewrite Ed. now apply IH.
  - unfold db_get in *. rewrite find_append, E. simpl.
    now rewrite str_eqb_refl.
Qed.

(** [put] leaves the other keys as they were. *)
Lemma db_get_put_other (store : list ProcessedDocument)
  (doc : ProcessedDocument) (key : jsstring) :
  key <> id doc -> db_get (db_put store doc) key = db_get store key.
Proof.
  intros Hk. unfold db_put.
  destruct (db_get store (id doc)) as [old|] eqn:E.
  - clear E. unfold db_get. induction store as [|d store IH]; simpl;
      [reflexivity|].
    destruct (str_eqb (id d) (id doc)) eqn:Ed.
    + apply str_eqb_eq in Ed.
      rewrite (str_eqb_neq (a := id doc) (b := key)) by congruence.
      rewrite (str_eqb_neq (a := id d) (b := key)) by congruence.
      exact IH.
    + destruct (str_eqb (id d) key); [reflexivity|exact IH].
  - unfold db_get. rewrite find_append.
    destruct (find _ store); [reflexivity|]. simpl.
    now rewrite str_eqb_neq by congruence.
Qed.

Lemma db_put_ids (store : list ProcessedDocument)
  (doc : ProcessedDocument) :
  NoDup (List.map id store) -> NoDup (List.map id (db_put store doc)).
Proof.
  intros H. unfold db_put.
  destruct (db_get store (id doc)) as [old|] eqn:E.
  - replace (List.map id
               (List.map (fun d => if str_eqb (id d) (id doc)
                                   then doc else d) store))
      with (List.map id store); [assumption|].
    rewrite map_map. apply map_ext. intros d.
    destruct (str_eqb (id d) (id doc)) eqn:Ed; [|reflexivity].
    now apply str_eqb_eq in Ed.
  - rewrite map_app. simpl. apply NoDup_app; try assumption.
    + repeat constructor. intros [].
    + intros x Hx [<-|[]]. apply db_get_none in E. contradiction.
Qed.

Lemma db_get_delete (store : list ProcessedDocument) (key k : jsstring) :
  db_get (db_delete store key) k
  = if str_eqb k key then None else db_get store k.
Proof.
  unfold db_get, db_delete.
  induction store as [|d store IH]; simpl.
  - now destruct (str_eqb k key).
  - destruct (str_eqb (id d) key) eqn:Ed; simpl.
    + rewrite IH. destruct (str_eqb k key) eqn:Ek; [reflexivity|].
      apply str_eqb_eq in Ed.
      rewrite (str_eqb_neq (a := id d) (b := k)); [reflexivity|].
      intros E. rewrite Ed in E. subst k.
      now rewrite str_eqb_refl in Ek.
    + destruct (str_eqb (id d) k) eqn:Edk.
      * apply str_eqb_eq in Edk. subst k. now rewrite Ed.
      * exact IH.
Qed.

End StoreFacts.

Section StoreListing.

Import DocumentUtils DocumentStorage.
Local Open Scope Z_scope.

Lemma map_set_fresh (m : list (jsstring * ProcessedDocument))
  (key : jsstring) (value : ProcessedDocument) :
  ~ In key (List.map fst m) -> map_set m key value = m ++ [(key, value)].
Proof.
  induction m as [|[k v] m IH]; simpl; [reflexivity|].
  intros H. rewrite str_eqb_neq by tauto. rewrite IH by tauto. reflexivity.
Qed.

Lemma uniqueById_fold (l : list ProcessedDocument)
  (m : list (jsstring * ProcessedDocument)) :
  NoDup (List.map fst m ++ List.map id l) ->
  fold_left (fun m doc => map_set m (id doc) doc) l m
  = m ++ List.map (fun doc => (id doc, doc)) l.
Proof.
  revert m. induction l as [|d l IH]; intros m H; simpl.
  - now rewrite app_nil_r.
  - assert (Hd : ~ In (id d) (List.map fst m)).
    { intros Hin. simpl in H. apply NoDup_remove_2 in H.
      apply H. apply in_or_app. now left. }
    rewrite (@map_set_fresh m (id d) d Hd), IH.
    + now rewrite <- app_assoc.
    + rewrite map_app. simpl. rewrite <- app_assoc. exact H.
Qed.

(** With ids that differ, the pass through the [Map] changes nothing. *)
Lemma uniqueById_unique (l : list ProcessedDocument) :
  NoDup (List.map id l) -> uniqueById l = l.
Proof.
  intros H. unfold uniqueById. rewrite uniqueById_fold by exact H.
  simpl. rewrite map_map. simpl. apply map_id.
Qed.

Lemma newestFirst_total (a b : ProcessedDocument) :
  precedes newestFirst a b \/ precedes newestFirst b a.
Proof. unfold precedes, newestFirst. lia. Qed.

Lemma newestFirst_trans (a b c : ProcessedDocument) :
  precedes newestFirst a b -> precedes newestFirst b c ->
  precedes newestFirst a c.
Proof. unfold precedes, newestFirst. lia. Qed.

Lemma sorted_weaken {X} (R S : X -> X -> Prop) (l : list X) :
  (forall a b, R a b -> S a b) ->
  StronglySorted R l -> StronglySorted S l.
Proof.
  intros H. induction 1 as [|a l Hl IH Ha]; constructor; [assumption|].
  eapply Forall_impl; [|exact Ha]. intros b. apply H.
Qed.

Lemma getAllDocuments_listing (env : Environment) (st : Storage) :
  databaseOpens env = true ->
  uniqueIds st ->
  Permutation (getAllDocuments env st) (documents st) /\
  StronglySorted (fun a b => createdAt b <= createdAt a)
    (getAllDocuments env st).
Proof.
  intros Ho H. unfold getAllDocuments, db_getAllFromIndex.
  rewrite Ho.
  assert (Hp : Permutation (sort indexCompare (documents st))
                 (documents st)) by apply sort_perm.
  rewrite uniqueById_unique.
  - split.
    + rewrite sort_perm. exact Hp.
    + apply (@sorted_weaken _ (precedes newestFirst)).
      * intros a b Hab. unfold precedes, newestFirst in Hab. lia.
      * apply sort_sorted.
        -- apply newestFirst_total.
        -- apply newestFirst_trans.
  - eapply Permutation_NoDup; [|exact H].
    apply Permutation_map. symmetry. exact Hp.
Qed.

End StoreListing.

Section StoreClaims.

Import DocumentUtils DocumentStorage StoreSamples.
Local Open Scope Z_scope.

Lemma saveDocument_stored (env : Environment)
  (timeString : jsstring) (st st' : Storage)
  (doc saved : ProcessedDocument) :
  saveDocument env timeString st doc = inr (st', saved) ->
  getDocumentById env st' (id doc) = Some saved /\
  (exists n, saved = withName doc n) /\
  (forall key, key <> id doc ->
     getDocumentById env st' key = getDocumentById env st key) /\
  lastProcessedDocumentId st' = lastProcessedDocumentId st /\
  (uniqueIds st -> uniqueIds st').
Proof.
  unfold saveDocument, getDocumentById.
  destruct (databaseOpens env); [|discriminate]. cbn [negb].
  assert (Hself : doc = withName doc (name doc)) by now destruct doc.
  destruct (db_get (documents st) (id doc)) as [old|] eqn:E.
  - intros [= <- <-]. cbn [documents lastProcessedDocumentId].
    repeat split.
    + apply db_get_put_same.
    + now exists (name doc).
    + intros key Hk. now apply db_get_put_other.
    + now apply db_put_ids.
  - match goal with
    | |- context [db_put _ ?d] => set (doc' := d)
    end.
    assert (Hid : id doc' = id doc)
      by (unfold doc'; now destruct (find _ _)).
    intros [= <- <-]. cbn [documents lastProcessedDocumentId].
    repeat split.
    + rewrite <- Hid. apply db_get_put_same.
    + unfold doc'. destruct (find _ _); [eexists; reflexivity|].
      now exists (name doc).
    + intros key Hk. apply db_get_put_other. congruence.
    + now apply db_put_ids.
Qed.

(** X16. What [saveDocument] stores can be read back: after a save that
    does not throw, [getDocumentById] with the id of the document gives
    the document as it was stored, which differs from the one handed in
    by its name at most. The documents under other ids, and the
    last-processed id, are as before, and ids stay unique. *)
Theorem saveDocument_round_trip (env : Environment)
  (timeString : jsstring) (st st' : Storage)
  (doc saved : ProcessedDocument) :
  saveDocument env timeString st doc = inr (st', saved) ->
  getDocumentById env st' (id doc) = Some saved /\
  (exists n, saved = withName doc n) /\
  (forall key, key <> id doc ->
     getDocumentById env st' key = getDocumentById env st key) /\
  lastProcessedDocumentId st' = lastProcessedDocumentId st /\
  (uniqueIds st -> uniqueIds st').
Proof. apply saveDocument_stored. Qed.

Lemma saveDocument_round_trip_witness :
  exists st' saved,
    saveDocument working (str "10:15:00") oneReport (report "id2" 300)
    = inr (st', saved) /\
    getDocumentById working st' (str "id2") = Some saved /\
    getDocumentById working st' (str "id1") = Some (report "id1" 100) /\
    name saved = str "report.txt (10-15-00)".
Proof.
  destruct (saveDocument working (str "10:15:00") oneReport
              (report "id2" 300)) as [m|[st' saved]] eqn:E;
    [discriminate E|].
  exists st', saved.
  destruct (@saveDocument_round_trip working (str "10:15:00") oneReport
              st' (report "id2" 300) saved E) as [H1 [_ [H3 _]]].
  split; [reflexivity|]. split; [exact H1|]. split.
  - rewrite (H3 (str "id1")) by discriminate. reflexivity.
  - injection E as _ <-. reflexivity.
Defined.

Lemma find_exists {X} (f : X -> bool) (l : list X) :
  (exists x, In x l /\ f x = true) <-> find f l <> None.
Proof.
  split.
  - intros [x [Hin Hf]] Hn. pose proof (find_none _ _ Hn x Hin). congruence.
  - destruct (find f l) as [x|] eqn:E; [|congruence].
    intros _. exists x. now apply find_some in E.
Qed.

(** X17. When [saveDocument] renames. A document whose id is stored
    replaces the stored one under the name it comes with. A document with
    a new id is stored under its own name when no stored document has
    that name, and otherwise under the name followed by the time of day in
    brackets, the colons of the time written as dashes. *)
Theorem saveDocument_names (env : Environment) (timeString : jsstring)
  (st : Storage) (doc : ProcessedDocument) :
  databaseOpens env = true ->
  uniqueIds st ->
  exists st',
    saveDocument env timeString st doc
    = inr (st',
           if existsb (fun d => str_eqb (id d) (id doc)) (documents st)
           then doc
           else if existsb (fun d => str_eqb (name d) (name doc))
                     (documents st)
           then withName doc
                  (name doc ++ str " (" ++ dashed timeString ++ str ")")
           else doc).
Proof.
  intros Ho Hu. unfold saveDocument. rewrite Ho. cbn [negb].
  destruct (db_get (documents st) (id doc)) as [old|] eqn:E.
  - apply db_get_id in E. destruct E as [Hin Hid].
    replace (existsb (fun d => str_eqb (id d) (id doc)) (documents st))
      with true.
    + eexists. reflexivity.
    + symmetry. apply existsb_exists. exists old.
      split; [assumption|]. now apply str_eqb_eq.
  - assert (Hnone : forall d, In d (documents st) ->
                              str_eqb (id d) (id doc) = false).
    { intros d Hd. apply str_eqb_neq. intros Heq.
      apply db_get_none in E. apply E. rewrite <- Heq. now apply in_map. }
    replace (existsb (fun d => str_eqb (id d) (id doc)) (documents st))
      with false.
    2: { symmetry. apply not_true_is_false. intros H.
         apply existsb_exists in H. destruct H as [d [Hd Ht]].
         rewrite (Hnone d Hd) in Ht. discriminate. }
    destruct (@getAllDocuments_listing env st Ho Hu) as [Hperm _].
    destruct (existsb (fun d => str_eqb (name d) (name doc))
                (documents st)) eqn:Ex.
    + apply existsb_exists in Ex. destruct Ex as [d [Hd Hn]].
      assert (Hf : find (fun d0 => str_eqb (name d0) (name doc)
                                   && negb (str_eqb (id d0) (id doc)))
                     (getAllDocuments env st) <> None).
      { apply find_exists. exists d. split.
        - eapply Permutation_in; [symmetry; exact Hperm|exact Hd].
        - now rewrite Hn, (Hnone d Hd). }
      destruct (find _ (getAllDocuments env st)); [|congruence].
      eexists. reflexivity.
    + destruct (find _ (getAllDocuments env st)) as [d|] eqn:Ef.
      * apply find_some in Ef. destruct Ef as [Hd Hp].
        apply andb_true_iff in Hp. destruct Hp as [Hn _].
        assert (Hin : In d (documents st))
          by (eapply Permutation_in; [exact Hperm|exact Hd]).
        assert (existsb (fun d => str_eqb (name d) (name doc))
                  (documents st) = true)
          by (apply existsb_exists; now exists d).
        congruence.
      * eexists. reflexivity.
Qed.

Lemma saveDocument_names_witness :
  (exists st',
      saveDocument working (str "10:15:00") oneReport (report "id2" 300)
      = inr (st',
             withName (report "id2" 300) (str "report.txt (10-15-00)"))) /\
  (exists st',
      saveDocument working (str "10:15:00") twoReports (report "id2" 500)
      = inr (st', report "id2" 500)).
Proof.
  split.
  - apply (@saveDocument_names working (str "10:15:00") oneReport
             (report "id2" 300) eq_refl).
    repeat constructor; simpl; tauto.
  - apply (@saveDocument_names working (str "10:15:00") twoReports
             (report "id2" 500) eq_refl).
    repeat constructor; simpl; intuition discriminate.
Defined.

(** X18. [getAllDocuments] lists every stored document once, the newest
    first; when the database does not open it lists nothing. *)
Theorem getAllDocuments_newest_first (env : Environment) (st : Storage) :
  (databaseOpens env = true ->
   uniqueIds st ->
   Permutation (getAllDocuments env st) (documents st) /\
   StronglySorted (fun a b => createdAt b <= createdAt a)
     (getAllDocuments env st)) /\
  (databaseOpens env = false -> getAllDocuments env st = []).
Proof.
  split.
  - apply getAllDocuments_listing.
  - intros H. unfold getAllDocuments. now rewrite H.
Qed.

Lemma getAllDocuments_newest_first_witness :
  getAllDocuments working twoReports
  = [report "id2" 300; report "id1" 100] /\
  Permutation (getAllDocuments working twoReports)
    (documents twoReports) /\
  StronglySorted (fun a b => createdAt b <= createdAt a)
    (getAllDocuments working twoReports) /\
  getAllDocuments offline twoReports = [].
Proof.
  split; [reflexivity|].
  destruct (getAllDocuments_newest_first working twoReports)
    as [Hopen _].
  destruct (getAllDocuments_newest_first offline twoReports)
    as [_ Hclosed].
  destruct Hopen as [Hp Hs]; [reflexivity| |].
  - repeat constructor; simpl; intuition discriminate.
  - split; [exact Hp|]. split; [exact Hs|]. apply Hclosed. reflexivity.
Defined.



End StoreClaims.

(* ================================================================== *)
(** ** Ingestion *)
(* ================================================================== *)

Section IngestionFacts.

Import DocumentUtils DocumentStorage Ingestion.
Local Open Scope Z_scope.

Lemma words_go_started (cur s : jsstring) :
  cur <> [] -> words_go cur s <> [].
Proof.
  revert cur. induction s as [|c s IH]; intros cur Hc; simpl.
  - unfold emit. destruct cur; [contradiction|discriminate].
  - destruct (is_space c).
    + unfold emit. destruct cur; [contradiction|discriminate].
    + apply IH. now destruct cur.
Qed.

Lemma trimStart_words (s : jsstring) : words (trimStart s) = words s.
Proof.
  induction s as [|c s IH]; simpl; [reflexivity|].
  destruct (is_space c) eqn:E; [|reflexivity].
  now rewrite words_cons_space.
Qed.

(** A content that is not blank has a word. *)
Lemma not_blank_words (content : jsstring) :
  blank content = false -> words content <> [].
Proof.
  unfold blank. intros H. apply orb_false_iff in H. destruct H as [_ H].
  apply negb_false_iff in H. rewrite <- trimStart_words.
  unfold trim, trimEnd in H.
  destruct (trimStart content) as [|c rest] eqn:E; [discriminate H|].
  pose proof (trimStart_head _ E) as Hc.
  unfold words. simpl. rewrite Hc. apply words_go_started. discriminate.
Qed.

Lemma trimStart_spaces (s : jsstring) :
  Forall (fun c => is_space c = true) s -> trimStart s = [].
Proof.
  induction 1 as [|c s Hc _ IH]; simpl; [reflexivity|]. now rewrite Hc.
Qed.

(** The chunks hold the words of the content, whatever the content. *)
Lemma chunkDocument_words (content : jsstring) (chunkSize : Z) :
  flat_map words (chunkDocument content chunkSize) = words content.
Proof.
  unfold chunkDocument.
  destruct (strlen content <? chunkSize).
  - simpl. now rewrite app_nil_r.
  - pose proof (split_words content re_blank_line_white) as Hsplit.
    destruct (@fold_add_paragraph chunkSize (words content)
                (split re_blank_line content) ([], [])) as [_ Hw].
    + intros p w Hp Hin. rewrite <- Hsplit.
      apply in_flat_map. now exists p.
    + split; [constructor|now left].
    + cbv zeta in Hw. now rewrite flush_words, Hw, Hsplit.
Qed.

Lemma chunkDocument_not_empty (content : jsstring) (chunkSize : Z) :
  content <> [] ->
  Forall (fun chunk => chunk <> []) (chunkDocument content chunkSize).
Proof.
  intros Hne. unfold chunkDocument.
  destruct (strlen content <? chunkSize).
  - constructor; [assumption|constructor].
  - destruct (@fold_add_paragraph chunkSize (words content)
                (split re_blank_line content) ([], [])) as [Hinv _].
    + intros p w Hp Hin.
      rewrite <- (split_words content re_blank_line_white).
      apply in_flat_map. now exists p.
    + split; [constructor|now left].
    + cbv zeta in Hinv. apply flush_inv in Hinv.
      eapply Forall_impl; [|exact Hinv]. simpl. tauto.
Qed.

(** What a document that went through [store] is like. *)
Lemma store_result (env : Environment) (fresh : Fresh) (st st' : Storage)
  (docName content ext : jsstring) (origin : option jsstring)
  (doc : ProcessedDocument) :
  blank content = false ->
  store env fresh st docName content ext origin = (st', inr doc) ->
  DocumentUtils.content doc = content /\
  id doc = fresh_id fresh /\
  chunks doc = chunkDocument content defaultChunkSize /\
  chunks doc <> [] /\
  Forall (fun chunk => chunk <> []) (chunks doc) /\
  flat_map words (chunks doc) = words content /\
  getDocumentById env st' (id doc) = Some doc /\
  (localStorageWorks env = true ->
   lastProcessedDocumentId st' = Some (id doc)) /\
  (uniqueIds st -> uniqueIds st').
Proof.
  intros Hb. unfold store.
  match goal with
  | |- context [saveDocument _ _ _ ?d] => set (document := d)
  end.
  destruct (saveDocument env (fresh_timeString fresh) st document)
    as [m|[st1 saved]] eqn:E; [discriminate|].
  intros [= <- <-].
  destruct (@saveDocument_stored _ _ _ _ _ _ E)
    as [Hget [[n Hn] [_ [_ Hu]]]].
  assert (Hc : DocumentUtils.content saved = content) by now subst saved.
  assert (Hk : chunks saved = chunkDocument content defaultChunkSize)
    by now subst saved.
  assert (Hi : id saved = fresh_id fresh) by now subst saved.
  assert (Hne : content <> []).
  { intros ->. vm_compute in Hb. discriminate Hb. }
  repeat split; try assumption.
  - rewrite Hk. intros Hnil.
    pose proof (chunkDocument_words content defaultChunkSize) as Hw.
    rewrite Hnil in Hw. simpl in Hw.
    apply (@not_blank_words content Hb). now symmetry.
  - rewrite Hk. now apply chunkDocument_not_empty.
  - rewrite Hk. apply chunkDocument_words.
  - unfold getDocumentById, saveLastProcessedDocumentId in *.
    destruct (localStorageWorks env); cbn [documents];
      now rewrite Hi in *.
  - intros Hl. unfold saveLastProcessedDocumentId. now rewrite Hl.
  - intros H. specialize (Hu H). unfold uniqueIds in *.
    unfold saveLastProcessedDocumentId.
    now destruct (localStorageWorks env).
Qed.

Lemma store_failure (env : Environment) (fresh : Fresh) (st st' : Storage)
  (docName content ext : jsstring) (origin : option jsstring)
  (message : jsstring) :
  store env fresh st docName content ext origin = (st', inl message) ->
  st' = st /\ message = saveError.
Proof.
  unfold store.
  match goal with
  | |- context [saveDocument _ _ _ ?d] => set (document := d)
  end.
  unfold saveDocument.
  destruct (databaseOpens env); cbn [negb].
  - destruct (db_get (documents st) (id document)); discriminate.
  - now intros [= <- <-].
Qed.

End IngestionFacts.

Section IngestionClaims.

Import DocumentUtils DocumentStorage Ingestion StoreSamples.
Local Open Scope Z_scope.

(** X20. A document that [extractDocumentContent] or
    [extractContentFromUrl] hands back has a content that is not blank and
    the chunks of that content at the default size: at least one chunk,
    none of them empty, holding the words of the content in order. It is
    stored under its id, and with a working [localStorage] that id is the
    last-processed one. *)
Theorem ingested_document :
  (forall toLowerCase env fresh readers st file st' doc,
      extractDocumentContent toLowerCase env fresh readers st file
      = (st', inr doc) ->
      blank (content doc) = false /\
      chunks doc = chunkDocument (content doc) defaultChunkSize /\
      chunks doc <> [] /\
      Forall (fun chunk => chunk <> []) (chunks doc) /\
      flat_map words (chunks doc) = words (content doc) /\
      getDocumentById env st' (id doc) = Some doc /\
      (localStorageWorks env = true ->
       lastProcessedDocumentId st' = Some (id doc))) /\
  (forall env fresh urlValid page st url docName st' doc,
      extractContentFromUrl env fresh urlValid page st url docName
      = (st', inr doc) ->
      blank (content doc) = false /\
      chunks doc = chunkDocument (content doc) defaultChunkSize /\
      chunks doc <> [] /\
      Forall (fun chunk => chunk <> []) (chunks doc) /\
      flat_map words (chunks doc) = words (content doc) /\
      getDocumentById env st' (id doc) = Some doc /\
      (localStorageWorks env = true ->
       lastProcessedDocumentId st' = Some (id doc)) /\
      source doc = Some url /\ name doc <> []).
Proof.
  split.
  - intros toLowerCase env fresh readers st file st' doc.
    unfold extractDocumentContent.
    destruct (readFile toLowerCase readers file) as [m|text];
      [discriminate|].
    destruct (blank text) eqn:Hb; [discriminate|].
    intros H. destruct (store_result _ _ _ _ _ _ _ Hb H)
      as [Hc [_ [Hk [Hn [Hf [Hw [Hg [Hl _]]]]]]]].
    rewrite Hc. repeat split; assumption.
  - intros env fresh urlValid page st url docName st' doc.
    unfold extractContentFromUrl.
    destruct urlValid; [|discriminate]. cbn [negb].
    destruct page as [m|e|text title]; try discriminate.
    destruct (blank (or_empty text)) eqn:Hb; [discriminate|].
    intros H. destruct (store_result _ _ _ _ _ _ _ Hb H)
      as [Hc [_ [Hk [Hn [Hf [Hw [Hg [Hl _]]]]]]]].
    rewrite Hc. repeat split; try assumption.
    + unfold store in H.
      destruct (saveDocument _ _ _ _) as [?|[st1 saved]] eqn:E;
        [discriminate|].
      injection H as _ <-.
      destruct (@saveDocument_stored _ _ _ _ _ _ E) as [_ [[n Hs] _]].
      now subst saved.
    + unfold store in H.
      destruct (saveDocument _ _ _ _) as [?|[st1 saved]] eqn:E;
        [discriminate|].
      injection H as _ <-. unfold saveDocument in E.
      destruct (databaseOpens env); [|discriminate]. cbn [negb] in E.
      assert (Hp : pageName docName title url <> []).
      { unfold pageName, or_else.
        destruct docName; [|discriminate].
        destruct title as [[|? ?]|]; try discriminate;
          destruct (List.last (split sep_slash url) []); discriminate. }
      destruct (db_get _ _) in E.
      * injection E as _ <-. exact Hp.
      * destruct (find _ _) in E; injection E as _ <-; [|exact Hp].
        cbn [name withName]. intros Hnil.
        apply app_eq_nil in Hnil. tauto.
Qed.

Lemma ingested_document_witness :
  exists st' doc,
    extractDocumentContent ascii_toLowerCase working (fresh "id3" 500)
      (reading (inr (str "Hello world"))) twoReports textFile
    = (st', inr doc) /\
    chunks doc = [str "Hello world"] /\
    getDocumentById working st' (str "id3") = Some doc /\
    lastProcessedDocumentId st' = Some (str "id3") /\
    name doc = str "report.txt (10-15-00)".
Proof.
  destruct (extractDocumentContent ascii_toLowerCase working
              (fresh "id3" 500) (reading (inr (str "Hello world")))
              twoReports textFile) as [st' [m|doc]] eqn:E;
    [discriminate E|].
  exists st', doc.
  destruct (proj1 ingested_document _ _ _ _ _ _ _ _ E)
    as [_ [Hk [_ [_ [_ [Hg Hl]]]]]].
  assert (Hd : doc
               = withName
                   {| id := str "id3"; name := str "report.txt";
                      content := str "Hello world";
                      extension := str "TXT";
                      chunks := [str "Hello world"];
                      summary := None; createdAt := 500;
                      source := None |}
                   (str "report.txt (10-15-00)")).
  { injection E as _ <-. reflexivity. }
  split; [reflexivity|]. subst doc.
  split; [reflexivity|]. split; [exact Hg|].
  split; [exact (Hl eq_refl)|reflexivity].
Defined.

(** X21. An ingestion that reports an error has stored nothing: the store
    and the last-processed id are as they were. *)
Theorem failed_ingestion_stores_nothing :
  (forall toLowerCase env fresh readers st file st' message,
      extractDocumentContent toLowerCase env fresh readers st file
      = (st', inl message) ->
      st' = st) /\
  (forall env fresh urlValid page st url docName st' message,
      extractContentFromUrl env fresh urlValid page st url docName
      = (st', inl message) ->
      st' = st).
Proof.
  split.
  - intros toLowerCase env fresh readers st file st' message.
    unfold extractDocumentContent.
    destruct (readFile toLowerCase readers file) as [m|text];
      [now intros [= <- _]|].
    destruct (blank text); [now intros [= <- _]|].
    intros H. now apply store_failure in H.
  - intros env fresh urlValid page st url docName st' message.
    unfold extractContentFromUrl.
    destruct urlValid; cbn [negb]; [|now intros [= <- _]].
    destruct page as [m|e|text title]; try (now intros [= <- _]).
    destruct (blank (or_empty text)); [now intros [= <- _]|].
    intros H. now apply store_failure in H.
Qed.

Lemma failed_ingestion_stores_nothing_witness :
  extractDocumentContent ascii_toLowerCase offline (fresh "id3" 500)
    (reading (inr (str "Hello world"))) twoReports textFile
  = (twoReports, inl saveError) /\
  extractContentFromUrl working (fresh "id3" 500) true
    (PageOk (Some (str "   ")) (Some (str "Title"))) twoReports
    (str "https://example.org/a") []
  = (twoReports, inl noUrlContentError).
Proof.
  pose proof failed_ingestion_stores_nothing as [Hfile Hurl].
  split.
  - destruct (extractDocumentContent ascii_toLowerCase offline
                (fresh "id3" 500) (reading (inr (str "Hello world")))
                twoReports textFile) as [st' [m|doc]] eqn:E.
    + rewrite (Hfile _ _ _ _ _ _ _ _ E). injection E as _ <-.
      reflexivity.
    + discriminate E.
  - destruct (extractContentFromUrl working (fresh "id3" 500) true
                (PageOk (Some (str "   ")) (Some (str "Title")))
                twoReports (str "https://example.org/a") [])
      as [st' [m|doc]] eqn:E.
    + rewrite (Hurl _ _ _ _ _ _ _ _ _ E). injection E as _ <-.
      reflexivity.
    + discriminate E.
Defined.

End IngestionClaims.

Section StoreInvariant.

Import DocumentUtils DocumentStorage Ingestion StoreSamples.

Lemma filter_ids (f : ProcessedDocument -> bool)
  (store : list ProcessedDocument) :
  NoDup (List.map id store) -> NoDup (List.map id (filter f store)).
Proof.
  induction store as [|d store IH]; simpl; [constructor|].
  intros H. inversion H as [|? ? Hn Hs]; subst.
  destruct (f d); simpl; [|now apply IH].
  constructor; [|now apply IH].
  intros Hin. apply Hn. apply in_map_iff in Hin.
  destruct Hin as [x [Hx Hf]]. apply filter_In in Hf.
  rewrite <- Hx. apply in_map. tauto.
Qed.

Lemma store_wellFormed (fresh : Fresh) (st : Storage)
  (docName content ext : jsstring) (origin : option jsstring) :
  wellFormed st ->
  wellFormed (fst (store working fresh st docName content ext origin)).
Proof.
  intros [Hu Hp]. unfold store.
  destruct (saveDocument _ _ _ _) as [m|[st1 saved]] eqn:E;
    [now split|].
  destruct (@saveDocument_stored _ _ _ _ _ _ E)
    as [Hg [[n Hn] [Ho [Hl Hu']]]].
  cbn [fst]. unfold saveLastProcessedDocumentId, working.
  cbn [localStorageWorks]. split.
  - unfold uniqueIds. cbn [documents]. now apply Hu'.
  - intros key. cbn [lastProcessedDocumentId documents].
    intros [= <-]. unfold getDocumentById, working in Hg.
    cbn [databaseOpens] in Hg.
    replace (id saved) with (fresh_id fresh) by now subst saved.
    cbn [id] in Hg. rewrite Hg. discriminate.
Qed.

Lemma applyOp_wellFormed (toLowerCase : jsstring -> jsstring)
  (st : Storage) (op : StoreOp) :
  wellFormed st -> wellFormed (applyOp toLowerCase working st op).
Proof.
  intros H. destruct op as [fresh readers file|fresh ok page url n|key|];
    cbn [applyOp].
  - unfold extractDocumentContent.
    destruct (readFile toLowerCase readers file); [exact H|].
    destruct (blank _); [exact H|]. now apply store_wellFormed.
  - unfold extractContentFromUrl.
    destruct ok; [|exact H]. cbn [negb].
    destruct page; try exact H.
    destruct (blank _); [exact H|]. now apply store_wellFormed.
  - destruct H as [Hu Hp]. unfold deleteDocument, working.
    cbn [databaseOpens negb].
    destruct (db_get (documents st) key) as [old|] eqn:E; [|now split].
    cbn [fst]. split.
    + unfold uniqueIds, db_delete. cbn [documents]. now apply filter_ids.
    + intros k. cbn [documents lastProcessedDocumentId].
      unfold getLastProcessedDocumentId. cbn [localStorageWorks].
      destruct (lastProcessedDocumentId st) as [last|] eqn:El;
        [|discriminate].
      cbn [same_id]. destruct (str_eqb last key) eqn:Ek; [discriminate|].
      intros [= <-]. rewrite db_get_delete, Ek. now apply Hp.
  - unfold clearAllDocuments, working. cbn [databaseOpens negb
      localStorageWorks fst]. split.
    + constructor.
    + intros k. discriminate.
Qed.

Lemma emptyStorage_wellFormed : wellFormed emptyStorage.
Proof. split; [constructor|]. intros key. discriminate. Qed.

Lemma run_wellFormed (toLowerCase : jsstring -> jsstring)
  (ops : list StoreOp) (st : Storage) :
  wellFormed st ->
  wellFormed (fold_left (applyOp toLowerCase working) ops st).
Proof.
  revert st. induction ops as [|op ops IH]; intros st H; simpl;
    [exact H|].
  apply IH. now apply applyOp_wellFormed.
Qed.

(** X22. Whatever files and pages are ingested and whatever is deleted or
    cleared, in a browser where the database opens and [localStorage]
    answers: no two stored documents share an id, and the last-processed
    id always names a stored document, so that [loadLastDocument] finds
    the document whenever there is such an id. *)
Theorem store_stays_well_formed (toLowerCase : jsstring -> jsstring)
  (ops : list StoreOp) :
  let st := fold_left (applyOp toLowerCase working) ops emptyStorage in
  uniqueIds st /\
  pointerValid st /\
  match lastProcessedDocumentId st with
  | Some (c :: key) =>
      exists doc,
        loadLastDocument working st = Some doc /\ id doc = c :: key
  | _ => loadLastDocument working st = None
  end.
Proof.
  intros st.
  destruct (run_wellFormed toLowerCase ops emptyStorage_wellFormed)
    as [Hu Hp].
  fold st in Hu, Hp. split; [exact Hu|]. split; [exact Hp|].
  unfold loadLastDocument, getLastProcessedDocumentId, getDocumentById,
    working. cbn [localStorageWorks databaseOpens].
  destruct (lastProcessedDocumentId st) as [[|c key]|] eqn:E;
    try reflexivity.
  specialize (Hp (c :: key) E).
  destruct (db_get (documents st) (c :: key)) as [doc|] eqn:Eg;
    [|contradiction].
  exists doc. split; [reflexivity|]. now apply db_get_id in Eg.
Qed.

Lemma join_empties (items : list (option jsstring)) :
  Forall (fun item => or_empty item = []) items ->
  Forall (fun c => is_space c = true)
    (join [sp] (List.map or_empty items)).
Proof.
  induction 1 as [|i items Hi _ IH]; [constructor|].
  cbn [List.map join]. rewrite Hi.
  destruct (List.map or_empty items) eqn:E; [constructor|].
  cbn [app]. constructor; [reflexivity|exact IH].
Qed.

Lemma pdfText_textless (pages : list (list (option jsstring))) :
  Forall (Forall (fun item => or_empty item = [])) pages ->
  pdfText pages = [].
Proof.
  intros Hpages.
  assert (H : forall acc,
             Forall (fun c => is_space c = true) acc ->
             Forall (fun c => is_space c = true)
               (fold_left
                  (fun fullText items =>
                     fullText ++ join [sp] (List.map or_empty items)
                       ++ [nl; nl])
                  pages acc)).
  { induction Hpages as [|items pages Hi _ IH]; intros acc Hacc;
      [exact Hacc|].
    cbn [fold_left]. apply IH. apply Forall_app. split; [exact Hacc|].
    apply Forall_app. split; [now apply join_empties|].
    repeat constructor. }
  unfold pdfText, trim.
  rewrite trimStart_spaces; [reflexivity|]. apply H. constructor.
Qed.

(** X23. A PDF whose pages hold no text is refused: the text put together
    from its pages is empty, [extractDocumentContent] reports that no
    content could be extracted, and nothing is stored. *)
Theorem textless_pdf_is_refused (toLowerCase : jsstring -> jsstring)
  (env : Environment) (fresh : Fresh) (readers : Readers) (st : Storage)
  (file : FileWithPreview) (pages : list (list (option jsstring))) :
  toLowerCase (file_extension file) = str "pdf" ->
  readPdf readers = extractPdfContent (Some pages) ->
  Forall (Forall (fun item => or_empty item = [])) pages ->
  pdfText pages = [] /\
  extractDocumentContent toLowerCase env fresh readers st file
  = (st, inl noContentError).
Proof.
  intros Hext Hread Hpages.
  pose proof (pdfText_textless Hpages) as Htext.
  split; [exact Htext|].
  unfold extractDocumentContent, readFile. rewrite Hext, Hread.
  cbn [str_eqb]. unfold extractPdfContent. rewrite Htext. reflexivity.
Qed.

Lemma textless_pdf_is_refused_witness :
  pdfText [[None; Some []]; []; [None]] = [] /\
  extractDocumentContent ascii_toLowerCase working (fresh "id3" 500)
    (reading (extractPdfContent (Some [[None; Some []]; []; [None]])))
    twoReports scan
  = (twoReports, inl noContentError).
Proof.
  apply (@textless_pdf_is_refused ascii_toLowerCase working
           (fresh "id3" 500)
           (reading (extractPdfContent (Some [[None; Some []]; []; [None]])))
           twoReports scan [[None; Some []]; []; [None]]);
    [reflexivity|reflexivity|].
  repeat constructor.
Defined.

End StoreInvariant.

(* ================================================================== *)
(** ** The chat hook *)
(* ================================================================== *)

Section HookFacts.

Import ChatHook.

Lemma updateById_hit (target : jsstring) (f : jsstring -> jsstring)
  (before after : list Message) (m : Message) :
  ~ In target (List.map msg_id before) ->
  msg_id m = target ->
  updateById target f (before ++ m :: after)
  = before ++ withContent m (f (msg_content m)) :: after.
Proof.
  intros Hn Hm. induction before as [|x before IH]; simpl.
  - rewrite Hm, str_eqb_refl. reflexivity.
  - simpl in Hn. rewrite str_eqb_neq by tauto.
    rewrite IH by tauto. reflexivity.
Qed.

(** The fragments land, in order, in the one message with the id. *)
Lemma onChunk_stream (target : jsstring) (chunks : list jsstring)
  (before after : list Message) (m : Message) :
  ~ In target (List.map msg_id before) ->
  msg_id m = target ->
  fold_left (onChunk target) chunks (before ++ m :: after)
  = before
      ++ withContent m (msg_content m ++ List.concat chunks) :: after.
Proof.
  intros Hn. revert m.
  induction chunks as [|c chunks IH]; intros m Hm; simpl.
  - rewrite app_nil_r. now destruct m.
  - unfold onChunk at 2. rewrite updateById_hit by assumption.
    rewrite IH by (now destruct m).
    cbn [msg_content withContent]. rewrite <- app_assoc.
    now destruct m.
Qed.

Lemma shown_ids (ids : NewIds) (st : HookState) (content : jsstring) :
  freshAssistantId ids st ->
  ~ In (assistantMessageId ids)
       (List.map msg_id (messages st ++ [userBubble ids content])).
Proof.
  intros [Hn Hu]. rewrite map_app. intros H. apply in_app_or in H.
  destruct H as [H|[H|[]]]; [now apply Hn|].
  cbn [userBubble msg_id] in H. congruence.
Qed.

End HookFacts.

Section HookClaims.

Import ChatHook Samples HookSamples.

Lemma sendMessage_shows {Service Request Error : Type}
  (generate : Generate Service Request Error) (localProvider : bool)
  (ids : NewIds) (st : HookState) (content : jsstring) :
  truthy (trim content) = true ->
  freshAssistantId ids st ->
  let call :=
    generate
      (List.map toChatMessage (messages st ++ [userBubble ids content])) in
  sendMessage (Some generate) localProvider ids st content
  = ({| messages :=
          messages st
            ++ [ userBubble ids content;
                 assistantBubble ids
                   match returned call with
                   | inr _ => List.concat (updates call)
                   | inl _ => sorry
                   end ];
        isGenerating := false;
        modelLoadingError := modelLoadingError st |},
     Some call).
Proof.
  intros Ht Hf call. unfold sendMessage. rewrite Ht. cbn [negb].
  fold (userBubble ids content). fold (assistantBubble ids []).
  fold call. f_equal. f_equal.
  pose proof (@shown_ids ids st content Hf) as Hn.
  rewrite (@onChunk_stream (assistantMessageId ids) (updates call)
             (messages st ++ [userBubble ids content]) []
             (assistantBubble ids []) Hn eq_refl).
  cbn [msg_content assistantBubble app].
  change (withContent (assistantBubble ids []) (List.concat (updates call)))
    with (assistantBubble ids (List.concat (updates call))).
  destruct (returned call).
  - rewrite (@updateById_hit (assistantMessageId ids) (fun _ => sorry)
               (messages st ++ [userBubble ids content]) []
               (assistantBubble ids (List.concat (updates call)))
               Hn eq_refl).
    rewrite <- app_assoc. reflexivity.
  - rewrite <- app_assoc. reflexivity.
Qed.

(** X24. When the service returns, the conversation shown by the hook is
    the one before, the user's message, and an assistant message whose
    content is the text returned, put together from the fragments as they
    came; this is so for both services, provided the id drawn for the
    assistant message is new. The question the service records in its
    history is the text the user sent. *)
Theorem sendMessage_shows_answer :
  (forall toLowerCase parseDelta fetch this localProvider ids st content
          text,
      truthy (trim content) = true ->
      freshAssistantId ids st ->
      returned
        (OpenAIService.generateResponse toLowerCase parseDelta fetch this
           (List.map toChatMessage
              (messages st ++ [userBubble ids content])))
      = inr text ->
      let result :=
        sendMessage
          (Some (OpenAIService.generateResponse toLowerCase parseDelta
                   fetch this))
          localProvider ids st content in
      messages (fst result)
      = messages st ++ [userBubble ids content; assistantBubble ids text] /\
      isGenerating (fst result) = false /\
      exists call,
        snd result = Some call /\
        OpenAIService.chatHistory (after call)
        = recordExchange (OpenAIService.chatHistory this) content text) /\
  (forall toLowerCase create this localProvider ids st content text,
      truthy (trim content) = true ->
      freshAssistantId ids st ->
      returned
        (WebLLMService.generateResponse toLowerCase create this
           (List.map toChatMessage
              (messages st ++ [userBubble ids content])))
      = inr text ->
      let result :=
        sendMessage
          (Some (WebLLMService.generateResponse toLowerCase create this))
          localProvider ids st content in
      messages (fst result)
      = messages st ++ [userBubble ids content; assistantBubble ids text] /\
      isGenerating (fst result) = false /\
      exists call,
        snd result = Some call /\
        WebLLMService.chatHistory (after call)
        = recordExchange (WebLLMService.chatHistory this) content text).
Proof.
  assert (Hlast : forall st ids content,
             last_message
               (List.map toChatMessage
                  (messages st ++ [userBubble ids content]))
             = Some {| role := user; content := content |}).
  { intros st ids content. unfold last_message.
    rewrite !map_app. cbn [List.map]. now rewrite last_last. }
  split.
  - intros toLowerCase parseDelta fetch this lp ids st content text
      Ht Hf Hr result.
    pose proof (@sendMessage_shows _ _ _
                  (OpenAIService.generateResponse toLowerCase parseDelta
                     fetch this)
                  lp ids st content Ht Hf) as Hs.
    cbv zeta in Hs.
    match type of Hs with _ = ?shown =>
      assert (Hres : result = shown) by exact Hs
    end.
    rewrite Hres.
    cbn [fst snd messages isGenerating]. rewrite Hr.
    apply OpenAIFacts.openai_generate_returns in Hr.
    destruct Hr as [m [Hm [Hafter <-]]].
    rewrite Hlast in Hm. injection Hm as <-.
    repeat split. eexists. split; [reflexivity|].
    rewrite Hafter. reflexivity.
  - intros toLowerCase create this lp ids st content text Ht Hf Hr result.
    pose proof (@sendMessage_shows _ _ _
                  (WebLLMService.generateResponse toLowerCase create this)
                  lp ids st content Ht Hf) as Hs.
    cbv zeta in Hs.
    match type of Hs with _ = ?shown =>
      assert (Hres : result = shown) by exact Hs
    end.
    rewrite Hres.
    cbn [fst snd messages isGenerating]. rewrite Hr.
    apply WebLLMFacts.webllm_generate_returns in Hr.
    destruct Hr as [m [Hm [Hafter <-]]].
    rewrite Hlast in Hm. injection Hm as <-.
    repeat split. eexists. split; [reflexivity|].
    rewrite Hafter. reflexivity.
Qed.

Lemma sendMessage_shows_answer_witness :
  messages
    (fst (sendMessage
            (Some (OpenAIService.generateResponse ascii_toLowerCase
                     readDelta (streaming helloReads) (remote [])))
            false ids earlier (str "say hello")))
  = messages earlier
      ++ [ userBubble ids (str "say hello");
           assistantBubble ids (str "Hello, world") ] /\
  messages
    (fst (sendMessage
            (Some (WebLLMService.generateResponse ascii_toLowerCase
                     (fun _ => WebLLMService.CreateStream helloSteps)
                     (loaded [])))
            true ids earlier (str "say hello")))
  = messages earlier
      ++ [ userBubble ids (str "say hello");
           assistantBubble ids (str "Hello, world") ].
Proof.
  assert (Hf : freshAssistantId ids earlier).
  { split; [simpl; intuition discriminate|discriminate]. }
  pose proof sendMessage_shows_answer as [Hremote Hlocal].
  split.
  - apply (Hremote ascii_toLowerCase readDelta (streaming helloReads)
             (remote []) false ids earlier (str "say hello")
             (str "Hello, world") eq_refl Hf eq_refl).
  - apply (Hlocal ascii_toLowerCase
             (fun _ => WebLLMService.CreateStream helloSteps)
             (loaded []) true ids earlier (str "say hello")
             (str "Hello, world") eq_refl Hf eq_refl).
Defined.

(** X25. When nothing can be generated. A message of white space only
    changes nothing and reaches no service. Without a service the
    conversation stays as it is and an error is set. When the service
    throws, the assistant message shows the apology and none of the
    fragments that came before the failure. *)
Theorem sendMessage_without_answer (Service Request Error : Type)
  (generate : Generate Service Request Error) (localProvider : bool)
  (ids : NewIds) (st : HookState) (content : jsstring) :
  (truthy (trim content) = false ->
   sendMessage (Some generate) localProvider ids st content = (st, None)) /\
  (truthy (trim content) = true ->
   let result :=
     sendMessage (@None (Generate Service Request Error)) localProvider
       ids st content in
   messages (fst result) = messages st /\
   modelLoadingError (fst result) = Some (noServiceError localProvider) /\
   snd result = None) /\
  (forall e,
      truthy (trim content) = true ->
      freshAssistantId ids st ->
      returned
        (generate
           (List.map toChatMessage
              (messages st ++ [userBubble ids content])))
      = inl e ->
      let result := sendMessage (Some generate) localProvider ids st
                      content in
      messages (fst result)
      = messages st ++ [userBubble ids content; assistantBubble ids sorry]
      /\ isGenerating (fst result) = false).
Proof.
  split; [|split].
  - intros H. unfold sendMessage. now rewrite H.
  - intros H result. unfold result, sendMessage. rewrite H.
    repeat split.
  - intros e Ht Hf Hr result. unfold result.
    pose proof (@sendMessage_shows _ _ _ generate localProvider ids st
                  content Ht Hf) as Hs.
    cbv zeta in Hs. rewrite Hs.
    cbn [fst messages isGenerating]. now rewrite Hr.
Qed.

Lemma sendMessage_without_answer_witness :
  sendMessage
    (Some (OpenAIService.generateResponse ascii_toLowerCase readDelta
             (streaming brokenReads) (remote [])))
    false ids earlier (str "   ")
  = (earlier, None) /\
  modelLoadingError
    (fst (sendMessage
            (@None (Generate OpenAIService.OpenAIService
                      OpenAIService.Request OpenAIService.Error))
            true ids earlier (str "hi")))
  = Some (str "Model not loaded. Please try again.") /\
  messages
    (fst (sendMessage
            (Some (OpenAIService.generateResponse ascii_toLowerCase
                     readDelta (streaming brokenReads) (remote [])))
            false ids earlier (str "hi")))
  = messages earlier
      ++ [userBubble ids (str "hi"); assistantBubble ids sorry].
Proof.
  assert (Hf : freshAssistantId ids earlier).
  { split; [simpl; intuition discriminate|discriminate]. }
  split; [|split].
  - apply (proj1 (sendMessage_without_answer
                    (OpenAIService.generateResponse ascii_toLowerCase
                       readDelta (streaming brokenReads) (remote []))
                    false ids earlier (str "   "))).
    reflexivity.
  - destruct (proj1 (proj2 (sendMessage_without_answer
                              (OpenAIService.generateResponse
                                 ascii_toLowerCase readDelta
                                 (streaming brokenReads) (remote []))
                              true ids earlier (str "hi"))) eq_refl)
      as [_ [H _]].
    exact H.
  - apply (proj2 (proj2 (sendMessage_without_answer
                           (OpenAIService.generateResponse
                              ascii_toLowerCase readDelta
                              (streaming brokenReads) (remote []))
                           false ids earlier (str "hi")))
             (OpenAIService.Rejected (str "network error"))
             eq_refl Hf eq_refl).
Defined.

End HookClaims.
